(** * The indexer engine of the beacon-chain explorer, embedded in Rocq

    Shallow embedding of [indexer] (slot cache, reorg engine, processing
    frontier, cache cleanup, epoch target) and of the two fork-gated duty
    getters of the [rpc] beacon client.

    Conventions:
    - a Go [uint64] is a [Z] in [0, 2^64); every arithmetic operation of the
      source that can leave that range is written with [wrap64];
    - a Go [[]byte] is an [option (list Z)]: [None] is the nil slice,
      [Some l] a non-nil slice; [bytes.Equal] does not tell nil from empty;
    - a Go map is a [gmap]; indexing a missing key gives the zero value,
      which for a slice or a pointer is nil, i.e. [None] here;
    - a [*BlockInfo] is held in exactly one place, the list stored under its
      slot, so a pointer is a (slot, index) position in [cachedBlocks] and
      writing through the pointer rewrites that position;
    - a loop the source does not bound is given fuel: [None] is "still
      running when the fuel ran out". *)

From Stdlib Require Import ZArith Lia List Bool.
From stdpp Require Import base option gmap list fin_maps strings.

Local Open Scope Z_scope.

(** ** Machine integers *)

Definition uint64_modulus : Z := 2 ^ 64.
Definition uint64_max : Z := 2 ^ 64 - 1.

Definition wrap64 (z : Z) : Z := z mod uint64_modulus.

Definition is_uint64 (z : Z) : Prop := 0 <= z < uint64_modulus.
Definition is_uint16 (z : Z) : Prop := 0 <= z < 2 ^ 16.

(** ** Byte slices *)

Definition GoBytes : Type := option (list Z).

Definition is_nil (b : GoBytes) : bool :=
  match b with None => true | Some _ => false end.

Definition contents (b : GoBytes) : list Z :=
  match b with None => [] | Some l => l end.

Fixpoint list_Z_eqb (a b : list Z) : bool :=
  match a, b with
  | [], [] => true
  | x :: a', y :: b' => (x =? y) && list_Z_eqb a' b'
  | _, _ => false
  end.

(** [bytes.Equal]: same length and same bytes; a nil argument is an empty
    slice. *)
Definition bytes_Equal (a b : GoBytes) : bool :=
  list_Z_eqb (contents a) (contents b).

(** ** Data model *)

(** The three header fields the indexer reads:
    [Header.Data.Root], [Header.Data.Header.Message.Slot] and
    [Header.Data.Header.Message.ParentRoot]. *)
Record BeaconHeader : Type := mkHeader {
  Root : GoBytes;
  Slot : Z;
  ParentRoot : GoBytes
}.

(** ** Configuration *)

(** [utils.Config.Chain]: the fields the engine and the duty getters read.
    [WhiskForkEpoch] is a [*uint64]: [None] when not configured. *)
Record ChainConfig : Type := mkChainConfig {
  SlotsPerEpoch : Z;
  AltairForkEpoch : Z;
  WhiskForkEpoch : option Z
}.

(** The configuration fields of [Indexer]; [synchronizerRunning] stands for
    [indexer.synchronizer != nil && indexer.synchronizer.running]. *)
Record IndexerConfig : Type := mkIndexerConfig {
  writeDb : bool;
  inMemoryEpochs : Z;
  epochProcessingDelay : Z;
  synchronizerRunning : bool
}.

(** Modelled from the spec: [utils.EpochOfSlot] is not among the sources.
    The chain clock converts a slot to its epoch, an epoch being
    [SlotsPerEpoch] consecutive slots. *)
Definition EpochOfSlot (cfg : ChainConfig) (slot : Z) : Z :=
  slot / SlotsPerEpoch cfg.

(** ** What a call can end in *)

Inductive Outcome (A : Type) : Type :=
| Returned (a : A)   (* the call returns *)
| Panic              (* nil pointer dereference *)
| Blocked            (* waits on a mutex nobody releases *)
| Running.           (* still looping when the fuel ran out *)

Arguments Returned {A} a.
Arguments Panic {A}.
Arguments Blocked {A}.
Arguments Running {A}.

(** Sequencing of calls: a call that does not return ends the caller the
    same way. *)
Definition andThen {A B : Type} (o : Outcome A) (f : A -> Outcome B)
  : Outcome B :=
  match o with
  | Returned a => f a
  | Panic => Panic
  | Blocked => Blocked
  | Running => Running
  end.

(** ** Answers of the beacon node *)

(** What a call of the RPC client hands back: the result (a pointer or a
    slice, so the caller picks the type) and whether the [error] is
    non-nil. *)
Record RpcAnswer (T : Type) : Type := mkAnswer {
  answer : T;
  failed : bool
}.

Arguments mkAnswer {T} answer failed.
Arguments answer {T} r.
Arguments failed {T} r.

(** An entry of [StandardV1StateValidatorsResponse.Data], with the fields
    [loadEpochStats] reads: [Index], [Status] and
    [Validator.EffectiveBalance], the two numbers as the [uint64] they are
    converted to. *)
Record ValidatorEntry : Type := mkValidatorEntry {
  Index : Z;
  Status : string;
  EffectiveBalance : Z
}.

(** Answers of the database collaborator during one [processEpoch]. *)
Record DbEnv : Type := mkDbEnv {
  beginOk : bool;
  persistOk : bool;
  setStateOk : bool;
  commitOk : bool
}.

(** The validators [loadEpochStats] counts, and the sum of their effective
    balances. *)
Definition activeOngoing (data : list ValidatorEntry) : list ValidatorEntry :=
  List.filter (fun v => String.eqb (Status v) "active_ongoing") data.

Definition totalBalance (data : list ValidatorEntry) : Z :=
  fold_right Z.add 0 (map EffectiveBalance data).

(** The balance the loop leaves under a validator index: the one of the
    last entry with that index. *)
Definition lastBalance (index : Z) (data : list ValidatorEntry) : option Z :=
  option_map EffectiveBalance
    (List.find (fun v => Index v =? index) (rev data)).

Section Indexer.

(** The block body ([rpctypes.StandardV2BeaconBlockResponse]) and the epoch
    assignments ([rpctypes.EpochAssignments]) are declared outside the
    indexer; the engine only stores and forwards them. *)
Context {Body : Type} {EpochAssignments : Type}.

Record BlockInfo : Type := mkBlockInfo {
  Header : BeaconHeader;
  Block : Body;
  Orphaned : bool
}.

Definition setOrphaned (o : bool) (b : BlockInfo) : BlockInfo :=
  {| Header := Header b; Block := Block b; Orphaned := o |}.

Definition blockRoot (b : BlockInfo) : GoBytes := Root (Header b).
Definition blockParent (b : BlockInfo) : GoBytes := ParentRoot (Header b).

(** State of a [sync.Mutex]. *)
Inductive Mutex : Type := Unlocked | Locked.

Record EpochValidators : Type := mkEpochValidators {
  ValidatorsMutex : Mutex;
  ValidatorCount : Z;
  EligibleAmount : Z;
  ValidatorBalances : gmap Z Z
}.

Record EpochStats : Type := mkEpochStats {
  dependendRoot : GoBytes;
  AssignmentsMutex : Mutex;
  Validators : EpochValidators;
  Assignments : option EpochAssignments
}.

Record indexerState : Type := mkState {
  lastHeadBlock : Z;
  lastHeadRoot : GoBytes;
  cachedBlocks : gmap Z (list BlockInfo);
  epochStats : gmap Z EpochStats;
  lowestCachedSlot : Z;
  lastProcessedEpoch : Z
}.

Definition set_cachedBlocks (m : gmap Z (list BlockInfo)) (st : indexerState)
  : indexerState :=
  {| lastHeadBlock := lastHeadBlock st; lastHeadRoot := lastHeadRoot st;
     cachedBlocks := m; epochStats := epochStats st;
     lowestCachedSlot := lowestCachedSlot st;
     lastProcessedEpoch := lastProcessedEpoch st |}.

Definition set_lowestCachedSlot (s : Z) (st : indexerState) : indexerState :=
  {| lastHeadBlock := lastHeadBlock st; lastHeadRoot := lastHeadRoot st;
     cachedBlocks := cachedBlocks st; epochStats := epochStats st;
     lowestCachedSlot := s;
     lastProcessedEpoch := lastProcessedEpoch st |}.

Definition set_head (s : Z) (r : GoBytes) (st : indexerState) : indexerState :=
  {| lastHeadBlock := s; lastHeadRoot := r;
     cachedBlocks := cachedBlocks st; epochStats := epochStats st;
     lowestCachedSlot := lowestCachedSlot st;
     lastProcessedEpoch := lastProcessedEpoch st |}.

Definition set_lastProcessedEpoch (e : Z) (st : indexerState) : indexerState :=
  {| lastHeadBlock := lastHeadBlock st; lastHeadRoot := lastHeadRoot st;
     cachedBlocks := cachedBlocks st; epochStats := epochStats st;
     lowestCachedSlot := lowestCachedSlot st;
     lastProcessedEpoch := e |}.

Definition set_epochStats (m : gmap Z EpochStats) (st : indexerState)
  : indexerState :=
  {| lastHeadBlock := lastHeadBlock st; lastHeadRoot := lastHeadRoot st;
     cachedBlocks := cachedBlocks st; epochStats := m;
     lowestCachedSlot := lowestCachedSlot st;
     lastProcessedEpoch := lastProcessedEpoch st |}.

(** [NewIndexer]: both maps empty, every other field at its zero value. *)
Definition NewIndexer_state : indexerState :=
  {| lastHeadBlock := 0; lastHeadRoot := None;
     cachedBlocks := ∅; epochStats := ∅;
     lowestCachedSlot := 0; lastProcessedEpoch := 0 |}.

(** A [*BlockInfo]: where the block sits in the cache, with a copy of its
    header (never written after creation). *)
Record BlockRef : Type := mkRef {
  refSlot : Z;
  refIndex : nat;
  refHeader : BeaconHeader
}.

(** Reading [ptr.Orphaned] through the cache. *)
Definition refOrphaned (st : indexerState) (p : BlockRef) : bool :=
  match cachedBlocks st !! refSlot p with
  | Some blocks =>
      match blocks !! refIndex p with
      | Some b => Orphaned b
      | None => false
      end
  | None => false
  end.

(** Writing [ptr.Orphaned = o] through the cache. *)
Definition writeOrphaned (o : bool) (p : BlockRef) (st : indexerState)
  : indexerState :=
  match cachedBlocks st !! refSlot p with
  | Some blocks =>
      match blocks !! refIndex p with
      | Some b =>
          set_cachedBlocks
            (<[refSlot p := <[refIndex p := setOrphaned o b]> blocks]>
               (cachedBlocks st)) st
      | None => st
      end
  | None => st
  end.

(** ** [GetCachedBlocks] *)

Definition GetCachedBlocks (st : indexerState) (slot : Z)
  : option (list BlockInfo) :=
  if slot <? lowestCachedSlot st then None
  else cachedBlocks st !! slot.

(** ** [processHeadBlock] *)

(** Duplicate check of [processHeadBlock]: the index of the first entry
    whose root equals the new root. *)
Fixpoint findDuplicate (root : GoBytes) (bidx : nat) (blocks : list BlockInfo)
  : option nat :=
  match blocks with
  | [] => None
  | b :: rest =>
      if bytes_Equal (blockRoot b) root then Some bidx
      else findDuplicate root (S bidx) rest
  end.

(** Body of the reorg-base search for one slot (the [bidx] loop): the new
    head is skipped, a block whose root is the new head's parent root is
    recorded as base (the last one wins), any other block is marked
    orphaned. *)
Fixpoint searchSlot (root parent : GoBytes) (bidx : nat)
    (blocks : list BlockInfo) (base : option (nat * BlockInfo))
  : list BlockInfo * option (nat * BlockInfo) :=
  match blocks with
  | [] => ([], base)
  | b :: rest =>
      if bytes_Equal (blockRoot b) root then
        let '(rest', base') := searchSlot root parent (S bidx) rest base in
        (b :: rest', base')
      else if bytes_Equal (blockRoot b) parent then
        let '(rest', base') :=
          searchSlot root parent (S bidx) rest (Some (bidx, b)) in
        (b :: rest', base')
      else
        let '(rest', base') := searchSlot root parent (S bidx) rest base in
        (setOrphaned true b :: rest', base')
  end.

(** The reorg-base search:
    [for sidx := slot; sidx >= lowestCachedSlot; sidx--]. *)
Fixpoint reorgBaseSearch (fuel : nat) (root parent : GoBytes) (sidx : Z)
    (st : indexerState) : option (indexerState * option BlockRef) :=
  match fuel with
  | O => None
  | S fuel' =>
      if sidx <? lowestCachedSlot st then Some (st, None)
      else
        match cachedBlocks st !! sidx with
        | None => reorgBaseSearch fuel' root parent (wrap64 (sidx - 1)) st
        | Some blocks =>
            let '(blocks', base) := searchSlot root parent 0 blocks None in
            let st' :=
              set_cachedBlocks (<[sidx := blocks']> (cachedBlocks st)) st in
            match base with
            | Some (bidx, b) => Some (st', Some (mkRef sidx bidx (Header b)))
            | None =>
                reorgBaseSearch fuel' root parent (wrap64 (sidx - 1)) st'
            end
        end
  end.

(** Body of the re-canonicalization walk for one slot: a block whose root is
    the parent root of the current [orphanedBlock] becomes the new
    [orphanedBlock] (and ends the walk if it is not orphaned); any other
    block is marked orphaned. *)
Fixpoint fixSlot (sidx : Z) (bidx : nat) (blocks : list BlockInfo)
    (cur : BlockRef) (found : bool) : list BlockInfo * BlockRef * bool :=
  match blocks with
  | [] => ([], cur, found)
  | b :: rest =>
      if bytes_Equal (blockRoot b) (ParentRoot (refHeader cur)) then
        let found' := if Orphaned b then found else true in
        let '(rest', cur', found'') :=
          fixSlot sidx (S bidx) rest (mkRef sidx bidx (Header b)) found' in
        (b :: rest', cur', found'')
      else
        let '(rest', cur', found'') :=
          fixSlot sidx (S bidx) rest cur found in
        (setOrphaned true b :: rest', cur', found'')
  end.

(** The walk below the base:
    [for sidx := reorgBaseSlot - 1; sidx >= lowestCachedSlot; sidx--].
    Returns the cache, the final [orphanedBlock] and [foundReorgBase]. *)
Fixpoint fixWalk (fuel : nat) (sidx : Z) (cur : BlockRef)
    (st : indexerState) : option (indexerState * BlockRef * bool) :=
  match fuel with
  | O => None
  | S fuel' =>
      if sidx <? lowestCachedSlot st then Some (st, cur, false)
      else
        match cachedBlocks st !! sidx with
        | None => fixWalk fuel' (wrap64 (sidx - 1)) cur st
        | Some blocks =>
            let '(blocks', cur', found) := fixSlot sidx 0 blocks cur false in
            let st' :=
              set_cachedBlocks (<[sidx := blocks']> (cachedBlocks st)) st in
            if found then Some (st', cur', true)
            else fixWalk fuel' (wrap64 (sidx - 1)) cur' st'
        end
  end.

(** [for orphanedBlock.Orphaned { ... }]: [rounds] bounds the iterations of
    this loop, [fuel] those of each walk inside it. Returns the cache and
    [resyncNeeded]. *)
Fixpoint fixOrphaned (rounds fuel : nat) (reorgBaseSlot : Z) (cur : BlockRef)
    (resync : bool) (st : indexerState) : option (indexerState * bool) :=
  match rounds with
  | O => None
  | S rounds' =>
      if refOrphaned st cur then
        let st1 := writeOrphaned false cur st in
        match fixWalk fuel (wrap64 (reorgBaseSlot - 1)) cur st1 with
        | None => None
        | Some (st2, cur', found) =>
            fixOrphaned rounds' fuel reorgBaseSlot cur'
              (if found then resync else true) st2
        end
      else Some (st, resync)
  end.

(** Result of [processHeadBlock]: the new state, the returned [*BlockInfo]
    (nil for a skipped duplicate) and whether "resync needed" was logged. *)
Record headResult : Type := mkHeadResult {
  hrState : indexerState;
  hrBlock : option BlockRef;
  hrResync : bool
}.

(** [processHeadBlock] from the watermark update on: [st] already holds
    the new block, at index [idx] under [slot]. *)
Definition reconcileHead (fuel : nat) (st : indexerState) (slot : Z)
    (header : BeaconHeader) (idx : nat) : option headResult :=
  let st2 :=
    if (lowestCachedSlot st =? 0) || (slot <? lowestCachedSlot st)
    then set_lowestCachedSlot slot st else st in
  let ret := Some (mkRef slot idx header) in
  let finish st' resync :=
    Some (mkHeadResult (set_head slot (Root header) st') ret resync) in
  if negb (is_nil (lastHeadRoot st2))
     && negb (bytes_Equal (lastHeadRoot st2) (ParentRoot header))
  then
    match reorgBaseSearch fuel (Root header) (ParentRoot header) slot st2 with
    | None => None
    | Some (st3, None) => finish st3 true
    | Some (st3, Some base) =>
        match fixOrphaned fuel fuel (refSlot base) base false st3 with
        | None => None
        | Some (st4, resync) => finish st4 resync
        end
    end
  else finish st2 false.

Definition processHeadBlock (fuel : nat) (st : indexerState) (slot : Z)
    (header : BeaconHeader) (block : Body) : option headResult :=
  let blockInfo := mkBlockInfo header block false in
  let store blocks' :=
    set_cachedBlocks (<[slot := blocks']> (cachedBlocks st)) st in
  match cachedBlocks st !! slot with
  | None => reconcileHead fuel (store [blockInfo]) slot header 0
  | Some blocks =>
      match findDuplicate (Root header) 0 blocks with
      | Some _ => Some (mkHeadResult st None false)
      | None =>
          reconcileHead fuel (store (blocks ++ [blockInfo])) slot header
            (length blocks)
      end
  end.

(** What [processEpoch] and [processCacheCleanup] do to the outside world,
    in order. *)
Inductive Event : Type :=
| LogNoTarget (epoch : Z)
| AggregateVotes (epoch : Z) (target : GoBytes)
| DbBeginFailed
| DbBegin
| DbPersist (epoch : Z) (ok : bool)
| DbSetSyncState (epoch : Z) (ok : bool)
| DbCommit
| DbCommitFailed
| DbRollback
| LogEpochSummary (epoch : Z)
| AddCachedEpochAssignments (epoch : Z) (a : option EpochAssignments).

(** The epoch an event is about, for the events that name one. *)
Definition eventEpoch (e : Event) : option Z :=
  match e with
  | LogNoTarget epoch | AggregateVotes epoch _ | DbPersist epoch _
  | DbSetSyncState epoch _ | LogEpochSummary epoch
  | AddCachedEpochAssignments epoch _ => Some epoch
  | DbBeginFailed | DbBegin | DbCommit | DbCommitFailed | DbRollback => None
  end.

(** The events that are calls into the database layer. *)
Definition isDbEvent (e : Event) : bool :=
  match e with
  | DbBeginFailed | DbBegin | DbPersist _ _ | DbSetSyncState _ _
  | DbCommit | DbCommitFailed | DbRollback => true
  | LogNoTarget _ | AggregateVotes _ _ | LogEpochSummary _
  | AddCachedEpochAssignments _ _ => false
  end.

(** ** Epoch target *)

Definition firstSlotOf (cfg : ChainConfig) (epoch : Z) : Z :=
  wrap64 (epoch * SlotsPerEpoch cfg).

Definition lastSlotOf (cfg : ChainConfig) (epoch : Z) : Z :=
  wrap64 (wrap64 (firstSlotOf cfg epoch + SlotsPerEpoch cfg) - 1).

(** The [bidx] loop of both target walks: the first entry with
    [!Orphaned]. *)
Fixpoint firstCanonical (blocks : list BlockInfo) : option BlockInfo :=
  match blocks with
  | [] => None
  | b :: rest => if Orphaned b then firstCanonical rest else Some b
  end.

(** [slotLoop] of [processEpoch]:
    [for slot := firstSlot; slot <= lastSlot; slot++], giving the final
    value of [epochTarget] (nil when nothing was assigned). *)
Fixpoint epochTargetLoop (fuel : nat) (firstSlot lastSlot slot : Z)
    (m : gmap Z (list BlockInfo)) : option GoBytes :=
  match fuel with
  | O => None
  | S fuel' =>
      if lastSlot <? slot then Some None
      else
        match m !! slot with
        | None =>
            epochTargetLoop fuel' firstSlot lastSlot (wrap64 (slot + 1)) m
        | Some blocks =>
            match firstCanonical blocks with
            | Some b =>
                Some (if slot =? firstSlot then blockRoot b
                      else blockParent b)
            | None =>
                epochTargetLoop fuel' firstSlot lastSlot (wrap64 (slot + 1)) m
            end
        end
  end.

(** [slotLoop] of [BuildLiveEpoch], giving the final value of
    [firstBlock]. *)
Fixpoint firstBlockLoop (fuel : nat) (lastSlot slot : Z)
    (m : gmap Z (list BlockInfo)) : option (option BlockInfo) :=
  match fuel with
  | O => None
  | S fuel' =>
      if lastSlot <? slot then Some None
      else
        match m !! slot with
        | None => firstBlockLoop fuel' lastSlot (wrap64 (slot + 1)) m
        | Some blocks =>
            match firstCanonical blocks with
            | Some b => Some (Some b)
            | None => firstBlockLoop fuel' lastSlot (wrap64 (slot + 1)) m
            end
        end
  end.

(** The database part of [processEpoch], entered when [writeDb] is set.
    The boolean tells whether the function goes on to its final logging. *)
Definition persistEpoch (icfg : IndexerConfig) (db : DbEnv) (epoch : Z)
  : list Event * bool :=
  if beginOk db then
    let body :=
      [DbBegin; DbPersist epoch (persistOk db)]
      ++ (if synchronizerRunning icfg then []
          else [DbSetSyncState epoch (setStateOk db)]) in
    if commitOk db then (body ++ [DbCommit], true)
    else (body ++ [DbCommitFailed; DbRollback], false)
  else ([DbBeginFailed], false).

(** What [processEpoch] does once it holds a non-nil target: aggregate the
    votes, persist when [writeDb] is set, log the summary. The deferred
    [tx.Rollback()] after a successful commit is the last event. *)
Definition aggregateAndPersist (icfg : IndexerConfig) (db : DbEnv)
    (epoch : Z) (target : GoBytes) : list Event :=
  let votes := [AggregateVotes epoch target] in
  if writeDb icfg then
    let '(dbEvents, goOn) := persistEpoch icfg db epoch in
    if goOn then votes ++ dbEvents ++ [LogEpochSummary epoch; DbRollback]
    else votes ++ dbEvents
  else votes ++ [LogEpochSummary epoch].

(** Whether [processEpoch], holding a target, gets past the database part
    to its final logging: always without [writeDb], and with it when
    [Begin] and [Commit] both succeeded. *)
Definition reachesSummary (icfg : IndexerConfig) (db : DbEnv) : bool :=
  if writeDb icfg then beginOk db && commitOk db else true.

(** The closing loop of [processEpoch],
    [for slot := firstSlot; slot <= lastSlot; slot++], which logs the
    orphaned blocks of the epoch. It reads the cache and writes log lines
    only, so what is kept of it is whether it comes to an end: [true] when
    the counter got past [lastSlot], [false] when the steps ran out. *)
Fixpoint orphanedLogLoop (fuel : nat) (lastSlot slot : Z) : bool :=
  match fuel with
  | O => false
  | S fuel' =>
      if lastSlot <? slot then true
      else orphanedLogLoop fuel' lastSlot (wrap64 (slot + 1))
  end.

(** [processEpoch]. It has no result and writes no field of the indexer
    state: all it leaves behind is the trace of what it did. The events of
    a run that reached the final logging are handed out once the closing
    loop has ended. *)
Definition processEpoch (fuel : nat) (cfg : ChainConfig)
    (icfg : IndexerConfig) (db : DbEnv) (st : indexerState) (epoch : Z)
  : Outcome (list Event) :=
  let firstSlot := firstSlotOf cfg epoch in
  let lastSlot := lastSlotOf cfg epoch in
  match epochStats st !! epoch with
  | None => Panic
  | Some stats =>
      match ValidatorsMutex (Validators stats) with
      | Locked => Blocked
      | Unlocked =>
          match epochTargetLoop fuel firstSlot lastSlot firstSlot
                  (cachedBlocks st) with
          | None => Running
          | Some None => Returned [LogNoTarget epoch]
          | Some (Some target) =>
              let events := aggregateAndPersist icfg db epoch (Some target) in
              if reachesSummary icfg db then
                if orphanedLogLoop fuel lastSlot firstSlot
                then Returned events
                else Running
              else Returned events
          end
      end
  end.

(** [BuildLiveEpoch]: [None] is the nil result; otherwise the target root
    handed to [aggregateEpochVotes]. *)
Definition BuildLiveEpoch (fuel : nat) (cfg : ChainConfig)
    (st : indexerState) (epoch : Z) : Outcome (option GoBytes) :=
  match epochStats st !! epoch with
  | None => Returned None
  | Some _ =>
      let firstSlot := firstSlotOf cfg epoch in
      let lastSlot := lastSlotOf cfg epoch in
      match firstBlockLoop fuel lastSlot firstSlot (cachedBlocks st) with
      | None => Running
      | Some None => Returned None
      | Some (Some b) =>
          Returned (Some (if Slot (Header b) =? firstSlot then blockRoot b
                          else blockParent b))
      end
  end.

(** ** Processing frontier *)

Definition frontierEpoch (cfg : ChainConfig) (icfg : IndexerConfig)
    (st : indexerState) : Z :=
  wrap64 (EpochOfSlot cfg (lastHeadBlock st) - epochProcessingDelay icfg).

Definition processIndexing (fuel : nat) (cfg : ChainConfig)
    (icfg : IndexerConfig) (db : DbEnv) (st : indexerState)
  : Outcome (indexerState * list Event) :=
  let processEpoch' := frontierEpoch cfg icfg st in
  if lastProcessedEpoch st <? processEpoch' then
    match processEpoch fuel cfg icfg db st processEpoch' with
    | Returned events =>
        Returned (set_lastProcessedEpoch processEpoch' st, events)
    | Panic => Panic
    | Blocked => Blocked
    | Running => Running
    end
  else Returned (st, []).

(** ** Cache cleanup *)

Definition cleanEpochOf (cfg : ChainConfig) (icfg : IndexerConfig)
    (st : indexerState) : Z :=
  wrap64 (EpochOfSlot cfg (lastHeadBlock st) - inMemoryEpochs icfg).

Definition cleanThreshold (cfg : ChainConfig) (icfg : IndexerConfig)
    (st : indexerState) : Z :=
  wrap64 (wrap64 (cleanEpochOf cfg icfg st + 1) * SlotsPerEpoch cfg).

(** [for lowestCachedSlot < threshold { delete; lowestCachedSlot++ }] *)
Fixpoint dropLoop (fuel : nat) (threshold : Z) (st : indexerState)
  : option indexerState :=
  match fuel with
  | O => None
  | S fuel' =>
      if lowestCachedSlot st <? threshold then
        let low := lowestCachedSlot st in
        let st1 :=
          match cachedBlocks st !! low with
          | Some _ => set_cachedBlocks (delete low (cachedBlocks st)) st
          | None => st
          end in
        dropLoop fuel' threshold (set_lowestCachedSlot (wrap64 (low + 1)) st1)
      else Some st
  end.

Definition processCacheCleanup (fuel : nat) (cfg : ChainConfig)
    (icfg : IndexerConfig) (st : indexerState)
  : option (indexerState * list Event) :=
  let cleanEpoch := cleanEpochOf cfg icfg st in
  let threshold := cleanThreshold cfg icfg st in
  if lowestCachedSlot st <? threshold then
    match dropLoop fuel threshold st with
    | None => None
    | Some st1 =>
        match epochStats st1 !! cleanEpoch with
        | Some stats =>
            Some (set_epochStats (delete cleanEpoch (epochStats st1)) st1,
                  [AddCachedEpochAssignments cleanEpoch
                     (Assignments stats)])
        | None => Some (st1, [])
        end
    end
  else Some (st, []).

(** ** Bootstrap *)

(** The start of [runIndexer], entered when the wall clock is past genesis;
    [currentEpoch] is [utils.TimeToEpoch(time.Now())], an [int64]. The
    product is computed in [int64] and converted to [uint64], which agrees
    with computing modulo 2^64. *)
Definition bootstrap (cfg : ChainConfig) (icfg : IndexerConfig)
    (currentEpoch : Z) (st : indexerState) : indexerState :=
  let st1 :=
    if inMemoryEpochs icfg <? currentEpoch then
      set_head
        (wrap64 (wrap64 ((currentEpoch - inMemoryEpochs icfg + 1)
                         * SlotsPerEpoch cfg) - 1))
        (lastHeadRoot st) st
    else st in
  if epochProcessingDelay icfg <? currentEpoch then
    set_lastProcessedEpoch
      (wrap64 (currentEpoch - epochProcessingDelay icfg)) st1
  else st1.

(** ** Epoch stats of the head epoch *)

(** The beacon node behind [indexer.rpcClient], as far as the indexer calls
    it, with the answers it gives while one call of the indexer runs. A
    pointer result is an [option], nil being [None]; the block body is
    stored as it comes. *)
Record BeaconNode : Type := mkBeaconNode {
  GetEpochAssignments : Z -> RpcAnswer (option EpochAssignments);
  GetLatestBlockHead : RpcAnswer (option BeaconHeader);
  GetBlockHeaderBySlot : Z -> RpcAnswer (option BeaconHeader);
  GetBlockHeaderByBlockroot : GoBytes -> RpcAnswer (option BeaconHeader);
  GetBlockBodyByBlockroot : GoBytes -> RpcAnswer Body;
  GetStateValidators : string -> RpcAnswer (option (list ValidatorEntry))
}.

(** The two fields of [rpctypes.EpochAssignments] the indexer reads. *)
Context (DependendRoot : EpochAssignments -> GoBytes)
        (DependendState : EpochAssignments -> string).

(** [newEpochStats]: [None] is the result [nil, false]; otherwise the state
    with the new [EpochStats] under [epoch], and [loadStats]. The new entry
    has its [AssignmentsMutex] locked; it takes over the [Validators] of the
    entry it replaces, or gets an empty one with [ValidatorsMutex] locked. *)
Definition newEpochStats (st : indexerState) (epoch : Z)
    (dependentRoot : GoBytes) : option (indexerState * bool) :=
  if epoch <? lastProcessedEpoch st then None
  else
    let oldEpochStats := epochStats st !! epoch in
    let unchanged :=
      match oldEpochStats with
      | Some old => bytes_Equal (dependendRoot old) dependentRoot
      | None => false
      end in
    if unchanged then None
    else
      let validators :=
        match oldEpochStats with
        | Some old => Validators old
        | None => mkEpochValidators Locked 0 0 ∅
        end in
      Some (set_epochStats
              (<[epoch := mkEpochStats dependentRoot Locked validators None]>
                 (epochStats st)) st,
            match oldEpochStats with Some _ => false | None => true end).

(** The two writes of [processHeadEpoch] through the pointer it got from
    [newEpochStats]:
    [epochStats.Assignments = a; epochStats.AssignmentsMutex.Unlock()]. *)
Definition publishAssignments (epoch : Z) (a : option EpochAssignments)
    (st : indexerState) : indexerState :=
  match epochStats st !! epoch with
  | Some stats =>
      set_epochStats
        (<[epoch := mkEpochStats (dependendRoot stats) Unlocked
                      (Validators stats) a]> (epochStats st)) st
  | None => st
  end.

(** [processHeadEpoch]. The boolean of the result tells whether
    [go indexer.loadEpochStats(epoch, epochStats)] was issued. The errors of
    [GetEpochAssignments] are logged and otherwise ignored: what counts is
    the pointer that comes back. *)
Definition processHeadEpoch (node : BeaconNode) (st : indexerState)
    (epoch : Z) (dependentRoot : GoBytes) : Outcome (indexerState * bool) :=
  let install (root : GoBytes) (fetched : option EpochAssignments) :=
    match newEpochStats st epoch root with
    | None => Returned (st, false)
    | Some (st1, loadStats) =>
        let epochAssignments :=
          match fetched with
          | Some a => Some a
          | None => answer (GetEpochAssignments node epoch)
          end in
        Returned (publishAssignments epoch epochAssignments st1, loadStats)
    end in
  match dependentRoot with
  | None =>
      match epochStats st !! epoch with
      | Some _ => Returned (st, false)
      | None =>
          match answer (GetEpochAssignments node epoch) with
          | None => Panic
          | Some a => install (DependendRoot a) (Some a)
          end
      end
  | Some _ => install dependentRoot None
  end.

(** ** Loading the validator set *)

(** One round of the loop over [epochValidators.Data]. *)
Definition addValidator (ev : EpochValidators) (validator : ValidatorEntry)
  : EpochValidators :=
  let balances :=
    <[Index validator := EffectiveBalance validator]> (ValidatorBalances ev) in
  if negb (String.eqb (Status validator) "active_ongoing") then
    mkEpochValidators (ValidatorsMutex ev) (ValidatorCount ev)
      (EligibleAmount ev) balances
  else
    mkEpochValidators (ValidatorsMutex ev) (wrap64 (ValidatorCount ev + 1))
      (wrap64 (EligibleAmount ev + EffectiveBalance validator)) balances.

Definition unlockValidators (ev : EpochValidators) : EpochValidators :=
  mkEpochValidators Unlocked (ValidatorCount ev) (EligibleAmount ev)
    (ValidatorBalances ev).

Definition set_Validators (ev : EpochValidators) (stats : EpochStats)
  : EpochStats :=
  mkEpochStats (dependendRoot stats) (AssignmentsMutex stats) ev
    (Assignments stats).

(** [loadEpochStats], run on the [EpochStats] it was started with. The
    result is that object afterwards, together with the value assigned to
    [indexer.state.headValidators], if any; [headValidatorsSlot] is the
    field of that name. Unlocking a [ValidatorsMutex] that is not locked is
    a fatal error of the runtime, recorded as [Panic] like the nil
    dereferences. The function is taken on its own here: its waiting for
    [cacheMutex] is the subject of [Latch]. *)
Definition loadEpochStats (node : BeaconNode) (headValidatorsSlot epoch : Z)
    (epochStats : EpochStats)
  : Outcome (EpochStats * option (list ValidatorEntry)) :=
  match Assignments epochStats with
  | None => Panic
  | Some assignments =>
      let r := GetStateValidators node (DependendState assignments) in
      let loaded : Outcome (EpochValidators * option (list ValidatorEntry)) :=
        if failed r then Returned (Validators epochStats, None)
        else
          match answer r with
          | None => Panic
          | Some data =>
              Returned
                (fold_left addValidator data (Validators epochStats),
                 if headValidatorsSlot <? epoch then Some data else None)
          end in
      andThen loaded (fun '(validators, headValidators) =>
        match ValidatorsMutex validators with
        | Unlocked => Panic
        | Locked =>
            Returned (set_Validators (unlockValidators validators) epochStats,
                      headValidators)
        end)
  end.

(** ** Polling the node *)

(** What the poll functions do besides changing the state, in order. *)
Inductive PollEvent : Type :=
| CallBackfill (slot : Z)     (* [indexer.pollBackfillBlock(slot)] *)
| StartLoader (epoch : Z).    (* [go indexer.loadEpochStats(epoch, ...)] *)

(** The slots [pollBackfillBlock] was called for, in order. *)
Definition backfilledSlots (events : list PollEvent) : list Z :=
  flat_map (fun e => match e with
                     | CallBackfill slot => [slot]
                     | StartLoader _ => []
                     end) events.

(** [indexer.processHeadEpoch(epoch, nil)] followed by
    [indexer.processHeadBlock(slot, header, block)], as [pollHeadBlock] and
    [pollBackfillBlock] end. *)
Definition processHead (fuel : nat) (node : BeaconNode) (st : indexerState)
    (epoch slot : Z) (header : BeaconHeader) (block : Body)
  : Outcome (indexerState * list PollEvent * option BlockRef) :=
  andThen (processHeadEpoch node st epoch None) (fun '(st1, loadStats) =>
    let events : list PollEvent :=
      if loadStats then [StartLoader epoch] else [] in
    match processHeadBlock fuel st1 slot header block with
    | None => Running
    | Some r => Returned (hrState r, events, hrBlock r)
    end).

(** [pollBackfillBlock]: the result pair is the [*BlockInfo] and whether the
    [error] is non-nil. *)
Definition pollBackfillBlock (fuel : nat) (cfg : ChainConfig)
    (node : BeaconNode) (st : indexerState) (slot : Z)
  : Outcome (indexerState * list PollEvent * (option BlockRef * bool)) :=
  let h := GetBlockHeaderBySlot node slot in
  if failed h then Returned (st, [], (None, true))
  else
    match answer h with
    | None => Returned (st, [], (None, false))
    | Some header =>
        let b := GetBlockBodyByBlockroot node (Root header) in
        if failed b then Returned (st, [], (None, true))
        else
          andThen
            (processHead fuel node st (EpochOfSlot cfg (Slot header)) slot
               header (answer b))
            (fun '(st1, events, blockInfo) =>
               Returned (st1, events, (blockInfo, false)))
    end.

(** [for backfillSlot < headSlot { pollBackfillBlock; backfillSlot++ }];
    what [pollBackfillBlock] returns is dropped. *)
Fixpoint backfillLoop (steps fuel : nat) (cfg : ChainConfig)
    (node : BeaconNode) (headSlot backfillSlot : Z) (st : indexerState)
  : Outcome (indexerState * list PollEvent) :=
  match steps with
  | O => Running
  | S steps' =>
      if backfillSlot <? headSlot then
        andThen (pollBackfillBlock fuel cfg node st backfillSlot)
          (fun '(st1, events, _) =>
             andThen
               (backfillLoop steps' fuel cfg node headSlot
                  (wrap64 (backfillSlot + 1)) st1)
               (fun '(st2, events') =>
                  Returned (st2,
                            CallBackfill backfillSlot :: events ++ events')))
      else Returned (st, [])
  end.

(** [if indexer.state.lastHeadBlock < headSlot-1 { ... }], shared by
    [pollHeadBlock] and [pollStreamedBlock]. *)
Definition backfill (steps fuel : nat) (cfg : ChainConfig)
    (node : BeaconNode) (headSlot : Z) (st : indexerState)
  : Outcome (indexerState * list PollEvent) :=
  if lastHeadBlock st <? wrap64 (headSlot - 1) then
    backfillLoop steps fuel cfg node headSlot
      (wrap64 (lastHeadBlock st + 1)) st
  else Returned (st, []).

(** [pollStreamedBlock]. A nil header that comes without an error is
    dereferenced. *)
Definition pollStreamedBlock (steps fuel : nat) (cfg : ChainConfig)
    (node : BeaconNode) (st : indexerState) (root : GoBytes)
  : Outcome (indexerState * list PollEvent * (option BlockRef * bool)) :=
  let h := GetBlockHeaderByBlockroot node root in
  if failed h then Returned (st, [], (None, true))
  else
    match answer h with
    | None => Panic
    | Some header =>
        let b := GetBlockBodyByBlockroot node (Root header) in
        if failed b then Returned (st, [], (None, true))
        else
          let slot := Slot header in
          andThen (backfill steps fuel cfg node slot st)
            (fun '(st1, events) =>
               match processHeadBlock fuel st1 slot header (answer b) with
               | None => Running
               | Some r => Returned (hrState r, events, (hrBlock r, false))
               end)
    end.

(** [pollHeadBlock]: the boolean of the result tells whether the [error] is
    non-nil. *)
Definition pollHeadBlock (steps fuel : nat) (cfg : ChainConfig)
    (node : BeaconNode) (st : indexerState)
  : Outcome (indexerState * list PollEvent * bool) :=
  let h := GetLatestBlockHead node in
  if failed h then Returned (st, [], true)
  else
    match answer h with
    | None => Panic
    | Some header =>
        if bytes_Equal (Root header) (lastHeadRoot st)
        then Returned (st, [], false)
        else
          let b := GetBlockBodyByBlockroot node (Root header) in
          if failed b then Returned (st, [], true)
          else
            let headSlot := Slot header in
            andThen (backfill steps fuel cfg node headSlot st)
              (fun '(st1, events) =>
                 andThen
                   (processHead fuel node st1 (EpochOfSlot cfg headSlot)
                      headSlot header (answer b))
                   (fun '(st2, events', _) =>
                      Returned (st2, events ++ events', false)))
    end.

(** ** What the reorg passes leave alone *)

(** The headers cached under each slot. *)
Definition headersOf (m : gmap Z (list BlockInfo))
  : gmap Z (list BeaconHeader) :=
  map Header <$> m.

(** Two states that differ at most in [Orphaned] flags. *)
Definition sameSkeleton st st' : Prop :=
  headersOf (cachedBlocks st') = headersOf (cachedBlocks st)
  /\ lowestCachedSlot st' = lowestCachedSlot st
  /\ lastHeadBlock st' = lastHeadBlock st
  /\ lastHeadRoot st' = lastHeadRoot st
  /\ epochStats st' = epochStats st
  /\ lastProcessedEpoch st' = lastProcessedEpoch st.

(** Every block the cache holds, whatever its slot. *)
Definition allBlocks (m : gmap Z (list BlockInfo)) : list BlockInfo :=
  flat_map snd (map_to_list m).

(** No cached block can serve as reorg base for a head with this root and
    parent root: each one is the head itself or has another root than the
    parent. *)
Definition noBaseFor (root parent : GoBytes) (m : gmap Z (list BlockInfo))
  : bool :=
  forallb (fun b => bytes_Equal (blockRoot b) root
                    || negb (bytes_Equal (blockRoot b) parent))
    (allBlocks m).

(** No cached block is the parent of [cur]. *)
Definition noParentFor (cur : BlockRef) (m : gmap Z (list BlockInfo)) : bool :=
  forallb (fun b => negb (bytes_Equal (blockRoot b)
                            (ParentRoot (refHeader cur))))
    (allBlocks m).

(** ** The statements of the specification, as predicates *)

(** The epoch target in the words of the specification: walk the slots
    [firstSlot..lastSlot], take the first non-orphaned block. *)
Definition spec_epochBlocks (m : gmap Z (list BlockInfo))
    (firstSlot lastSlot : Z) : list (Z * BlockInfo) :=
  flat_map (fun slot => map (pair slot) (default [] (m !! slot)))
    (seqZ firstSlot (lastSlot - firstSlot + 1)).

Definition spec_firstCanonical (m : gmap Z (list BlockInfo))
    (firstSlot lastSlot : Z) : option (Z * BlockInfo) :=
  List.find (fun sb => negb (Orphaned (snd sb)))
    (spec_epochBlocks m firstSlot lastSlot).

(** "If [b.slot == firstSlot], [epochTarget = b.root]; otherwise
    [epochTarget = b.parentRoot]." *)
Definition spec_targetOf (firstSlot slot : Z) (b : BlockInfo) : GoBytes :=
  if slot =? firstSlot then blockRoot b else blockParent b.

(** The epoch target of the specification: nil when the epoch has no
    non-orphaned block. *)
Definition spec_epochTarget (m : gmap Z (list BlockInfo))
    (firstSlot lastSlot : Z) : GoBytes :=
  match spec_firstCanonical m firstSlot lastSlot with
  | Some (slot, b) => spec_targetOf firstSlot slot b
  | None => None
  end.

(** Every cached block sits under the slot its header names. *)
Definition slotsConsistent (st : indexerState) : Prop :=
  forall slot blocks b,
    cachedBlocks st !! slot = Some blocks -> In b blocks ->
    Slot (Header b) = slot.

(** The epoch reached the end of [processEpoch]. *)
Definition epochSucceeded (epoch : Z) (events : list Event) : Prop :=
  In (LogEpochSummary epoch) events.

(** "[lastProcessedEpoch] is advanced only when processing the epoch
    succeeds", for one call of [processIndexing]. *)
Definition advancesOnlyOnSuccess (fuel : nat) (cfg : ChainConfig)
    (icfg : IndexerConfig) (db : DbEnv) (st : indexerState) : Prop :=
  forall st' events,
    processIndexing fuel cfg icfg db st = Returned (st', events) ->
    lastProcessedEpoch st' <> lastProcessedEpoch st ->
    epochSucceeded (frontierEpoch cfg icfg st) events.

(** "After a cache-cleanup pass: every cached slot key is at or above the
    threshold, so is [lowestCachedSlot], [GetCachedBlocks] returns nil below
    [lowestCachedSlot], and the [EpochStats] of the dropped epoch is evicted
    with its assignments handed back", for one call of
    [processCacheCleanup]. *)
Definition cleanupPostcondition (cfg : ChainConfig) (icfg : IndexerConfig)
    (st st' : indexerState) (events : list Event) : Prop :=
  (forall slot, is_Some (cachedBlocks st' !! slot) ->
                cleanThreshold cfg icfg st <= slot)
  /\ cleanThreshold cfg icfg st <= lowestCachedSlot st'
  /\ (forall slot, slot < lowestCachedSlot st' ->
                   GetCachedBlocks st' slot = None)
  /\ epochStats st' !! cleanEpochOf cfg icfg st = None
  /\ (forall stats, epochStats st !! cleanEpochOf cfg icfg st = Some stats ->
        In (AddCachedEpochAssignments (cleanEpochOf cfg icfg st)
              (Assignments stats)) events).

End Indexer.

(** ** The fork-gated duty getters of the beacon client *)

Module Rpc.
Section Getters.

(** Payloads and transport errors come from the HTTP client library. *)
Context {ProposerDuties SyncCommittee StateRef Cause : Type}.

(** The [error] values the two getters build. *)
Inductive RpcError : Type :=
| ErrRetrievingProposerDuties (cause : Cause)
| ErrBeforeAltair (epoch : Z)
| ErrSyncCommitteesNotSupported
| ErrProvider (cause : Cause).

(** A Go result pair: a pointer to the payload and an [error]. *)
Definition GoResult (T : Type) : Type := (option T * option RpcError)%type.

(** The "not applicable" sentinel: nil result, nil error. *)
Definition sentinel {T : Type} : GoResult T := (None, None).

Definition isError {T : Type} (r : GoResult T) : bool :=
  match snd r with Some _ => true | None => false end.

(** [GetProposerDuties]; [getJson] is the HTTP round trip for the epoch. *)
Definition GetProposerDuties (cfg : ChainConfig)
    (getJson : Z -> Cause + ProposerDuties) (epoch : Z)
  : GoResult ProposerDuties :=
  let whisk :=
    match WhiskForkEpoch cfg with
    | Some w => w <=? epoch
    | None => false
    end in
  if whisk then (None, None)
  else
    match getJson epoch with
    | inl err => (None, Some (ErrRetrievingProposerDuties err))
    | inr duties => (Some duties, None)
    end.

(** [GetSyncCommitteeDuties]; [provider] is [None] when the client service
    does not implement [SyncCommitteesProvider]. [SyncCommitteeAtEpoch]
    hands back a pointer to a [v1.SyncCommittee] and an [error], either of
    which may be nil. Only the error is looked at: with a nil error the
    pointer is handed on as it came. *)
Definition GetSyncCommitteeDuties (cfg : ChainConfig)
    (provider : option (StateRef -> Z -> option SyncCommittee * option Cause))
    (stateRef : StateRef) (epoch : Z) : GoResult SyncCommittee :=
  if epoch <? AltairForkEpoch cfg then (None, Some (ErrBeforeAltair epoch))
  else
    match provider with
    | None => (None, Some ErrSyncCommitteesNotSupported)
    | Some syncCommitteeAtEpoch =>
        let '(result, err) := syncCommitteeAtEpoch stateRef epoch in
        match err with
        | Some cause => (None, Some (ErrProvider cause))
        | None => (result, None)
        end
    end.

(** "Queried outside its fork range, each getter yields the sentinel", for
    one epoch. *)
Definition outsideForkRangeYieldsSentinel (cfg : ChainConfig)
    (getJson : Z -> Cause + ProposerDuties)
    (provider : option (StateRef -> Z -> option SyncCommittee * option Cause))
    (stateRef : StateRef) (epoch : Z) : Prop :=
  (forall whisk, WhiskForkEpoch cfg = Some whisk -> whisk <= epoch ->
     GetProposerDuties cfg getJson epoch = sentinel)
  /\ (epoch < AltairForkEpoch cfg ->
      GetSyncCommitteeDuties cfg provider stateRef epoch = sentinel).

End Getters.
End Rpc.

(** * The validator slots page ([handlers/validator_slots.go]) *)

(** [dbtypes.Block], with the fields the page reads; the type of
    [SyncParticipation] is [float32]. *)
Module dbtypes.

Record Block (Float32 : Type) : Type := mkBlock {
  Root : GoBytes;
  Orphaned : Z;
  Graffiti : GoBytes;
  AttestationCount : Z;
  DepositCount : Z;
  ExitCount : Z;
  AttesterSlashingCount : Z;
  ProposerSlashingCount : Z;
  EthTransactionCount : Z;
  EthBlockNumber : option Z;
  SyncParticipation : Float32
}.

Arguments mkBlock {Float32}.
Arguments Root {Float32} _.
Arguments Orphaned {Float32} _.
Arguments Graffiti {Float32} _.
Arguments AttestationCount {Float32} _.
Arguments DepositCount {Float32} _.
Arguments ExitCount {Float32} _.
Arguments AttesterSlashingCount {Float32} _.
Arguments ProposerSlashingCount {Float32} _.
Arguments EthTransactionCount {Float32} _.
Arguments EthBlockNumber {Float32} _.
Arguments SyncParticipation {Float32} _.

End dbtypes.

(** The page model of [types/models]: [time.Time] and [float64] come from
    outside. *)
Module models.

Record ValidatorSlotsPageDataSlot (Time Float64 : Type) : Type :=
  mkValidatorSlotsPageDataSlot {
  Slot : Z;
  Epoch : Z;
  Ts : Time;
  Finalized : bool;
  Status : Z;
  Proposer : Z;
  ProposerName : string;
  AttestationCount : Z;
  DepositCount : Z;
  ExitCount : Z;
  ProposerSlashingCount : Z;
  AttesterSlashingCount : Z;
  SyncParticipation : Float64;
  EthTransactionCount : Z;
  Graffiti : GoBytes;
  BlockRoot : GoBytes;
  WithEthBlock : bool;
  EthBlockNumber : Z
}.

Arguments mkValidatorSlotsPageDataSlot {Time Float64}.
Arguments Slot {Time Float64} _.
Arguments Epoch {Time Float64} _.
Arguments Ts {Time Float64} _.
Arguments Finalized {Time Float64} _.
Arguments Status {Time Float64} _.
Arguments Proposer {Time Float64} _.
Arguments ProposerName {Time Float64} _.
Arguments AttestationCount {Time Float64} _.
Arguments DepositCount {Time Float64} _.
Arguments ExitCount {Time Float64} _.
Arguments ProposerSlashingCount {Time Float64} _.
Arguments AttesterSlashingCount {Time Float64} _.
Arguments SyncParticipation {Time Float64} _.
Arguments EthTransactionCount {Time Float64} _.
Arguments Graffiti {Time Float64} _.
Arguments BlockRoot {Time Float64} _.
Arguments WithEthBlock {Time Float64} _.
Arguments EthBlockNumber {Time Float64} _.

Record ValidatorSlotsPageData (Time Float64 : Type) : Type :=
  mkValidatorSlotsPageData {
  Index : Z;
  Name : string;
  IsDefaultPage : bool;
  PageSize : Z;
  TotalPages : Z;
  CurrentPageIndex : Z;
  CurrentPageSlot : Z;
  PrevPageIndex : Z;
  PrevPageSlot : Z;
  NextPageIndex : Z;
  NextPageSlot : Z;
  LastPageSlot : Z;
  Slots : list (ValidatorSlotsPageDataSlot Time Float64);
  SlotCount : Z;
  FirstSlot : Z;
  LastSlot : Z
}.

Arguments mkValidatorSlotsPageData {Time Float64}.
Arguments Index {Time Float64} _.
Arguments Name {Time Float64} _.
Arguments IsDefaultPage {Time Float64} _.
Arguments PageSize {Time Float64} _.
Arguments TotalPages {Time Float64} _.
Arguments CurrentPageIndex {Time Float64} _.
Arguments CurrentPageSlot {Time Float64} _.
Arguments PrevPageIndex {Time Float64} _.
Arguments PrevPageSlot {Time Float64} _.
Arguments NextPageIndex {Time Float64} _.
Arguments NextPageSlot {Time Float64} _.
Arguments LastPageSlot {Time Float64} _.
Arguments Slots {Time Float64} _.
Arguments SlotCount {Time Float64} _.
Arguments FirstSlot {Time Float64} _.
Arguments LastSlot {Time Float64} _.

End models.

Module handlers.

(** [int64(x)] of a [uint64]. *)
Definition toInt64 (z : Z) : Z := if z <? 2 ^ 63 then z else z - 2 ^ 64.

(** A row of [GetDbBlocksByFilter]: a slot of the proposer, with the block
    proposed in it, if any. *)
Record AssignedBlock (Float32 : Type) : Type := mkAssignedBlock {
  Slot : Z;
  Block : option (dbtypes.Block Float32)
}.

Arguments mkAssignedBlock {Float32}.
Arguments Slot {Float32} _.
Arguments Block {Float32} _.

(** What the page asks of [services.GlobalBeaconService]: the name of a
    validator, the finalized epoch (an [int64]), and the rows for a
    proposer, a page index and a page size. *)
Record BeaconService (Float32 : Type) : Type := mkBeaconService {
  GetValidatorName : Z -> string;
  GetFinalizedEpoch : Z;
  GetDbBlocksByFilter : Z -> Z -> Z -> list (AssignedBlock Float32)
}.

Arguments mkBeaconService {Float32}.
Arguments GetValidatorName {Float32} _.
Arguments GetFinalizedEpoch {Float32} _.
Arguments GetDbBlocksByFilter {Float32} _.

Section Page.

(** [SlotToTime] is [utils.SlotToTime]; [toPercent] is [float64(x) * 100]
    and [zeroFloat] the zero value of [float64]. *)
Context {Time Float32 Float64 : Type}.
Context (SlotToTime : Z -> Time) (toPercent : Float32 -> Float64)
        (zeroFloat : Float64).

(** One round of the loop over [dbBlocks], past the [haveMore] check. *)
Definition slotData (cfg : ChainConfig) (finalizedEpoch validator : Z)
    (name : string) (blockAssignment : AssignedBlock Float32)
  : models.ValidatorSlotsPageDataSlot Time Float64 :=
  let slot := Slot blockAssignment in
  let finalized := toInt64 (EpochOfSlot cfg slot) <=? finalizedEpoch in
  match Block blockAssignment with
  | None =>
      models.mkValidatorSlotsPageDataSlot slot (EpochOfSlot cfg slot)
        (SlotToTime slot) finalized 0 validator name
        0 0 0 0 0 zeroFloat 0 None None false 0
  | Some dbBlock =>
      models.mkValidatorSlotsPageDataSlot slot (EpochOfSlot cfg slot)
        (SlotToTime slot) finalized
        (if dbtypes.Orphaned dbBlock =? 1 then 2 else 1)
        validator name
        (dbtypes.AttestationCount dbBlock)
        (dbtypes.DepositCount dbBlock)
        (dbtypes.ExitCount dbBlock)
        (dbtypes.ProposerSlashingCount dbBlock)
        (dbtypes.AttesterSlashingCount dbBlock)
        (toPercent (dbtypes.SyncParticipation dbBlock))
        (dbtypes.EthTransactionCount dbBlock)
        (dbtypes.Graffiti dbBlock)
        (dbtypes.Root dbBlock)
        (match dbtypes.EthBlockNumber dbBlock with
         | Some _ => true
         | None => false
         end)
        (match dbtypes.EthBlockNumber dbBlock with
         | Some number => number
         | None => 0
         end)
  end.

(** [for idx, blockAssignment := range dbBlocks]: the slots appended and
    [haveMore]. *)
Fixpoint slotLoop (cfg : ChainConfig) (finalizedEpoch validator : Z)
    (name : string) (pageSize : Z) (idx : nat)
    (dbBlocks : list (AssignedBlock Float32))
  : list (models.ValidatorSlotsPageDataSlot Time Float64) * bool :=
  match dbBlocks with
  | [] => ([], false)
  | blockAssignment :: rest =>
      if pageSize <=? Z.of_nat idx then ([], true)
      else
        let '(slots, haveMore) :=
          slotLoop cfg finalizedEpoch validator name pageSize (S idx) rest in
        (slotData cfg finalizedEpoch validator name blockAssignment :: slots,
         haveMore)
  end.

(** [buildValidatorSlotsPageData]; the cache timeout it also returns is the
    constant [5 * time.Minute]. *)
Definition buildValidatorSlotsPageData (cfg : ChainConfig)
    (service : BeaconService Float32) (validator pageIdx pageSize : Z)
  : models.ValidatorSlotsPageData Time Float64 :=
  let name := GetValidatorName service validator in
  let pageSize := if 100 <? pageSize then 100 else pageSize in
  let '(slots, haveMore) :=
    slotLoop cfg (GetFinalizedEpoch service) validator name pageSize 0
      (GetDbBlocksByFilter service validator pageIdx pageSize) in
  {| models.Index := validator;
     models.Name := name;
     models.IsDefaultPage := pageIdx =? 0;
     models.PageSize := pageSize;
     models.TotalPages :=
       if haveMore then wrap64 (wrap64 (pageIdx + 1) + 1)
       else wrap64 (pageIdx + 1);
     models.CurrentPageIndex := wrap64 (pageIdx + 1);
     models.CurrentPageSlot := pageIdx;
     models.PrevPageIndex := if 1 <=? pageIdx then pageIdx else 0;
     models.PrevPageSlot := if 1 <=? pageIdx then pageIdx - 1 else 0;
     models.NextPageIndex := if haveMore then wrap64 (pageIdx + 1) else 0;
     models.NextPageSlot := if haveMore then wrap64 (pageIdx + 1) else 0;
     models.LastPageSlot := 0;
     models.Slots := slots;
     models.SlotCount := Z.of_nat (length slots);
     models.FirstSlot :=
       match slots with
       | first :: _ => models.Slot first
       | [] => 0
       end;
     models.LastSlot :=
       match last slots with
       | Some final => models.Slot final
       | None => 0
       end |}.

End Page.
End handlers.

(** ** The validators-ready latch between [loadEpochStats] and [processEpoch]

    The two goroutines are reduced to what they do to the two locks they
    share: [cacheMutex] (a [sync.RWMutex]) and the [ValidatorsMutex] of the
    epoch being loaded, which [newEpochStats] locked before the loader was
    started. *)

Module Latch.

Inductive Action : Type :=
| CacheRLock | CacheRUnlock
| CacheLock | CacheUnlock
| LatchLock | LatchUnlock
| Fetch      (* GetStateValidators *)
| Work.      (* statements that touch no lock *)

#[global] Instance Action_eq_dec : EqDecision Action.
Proof. solve_decision. Defined.

Record Locks : Type := mkLocks {
  cacheReaders : nat;
  cacheWriter : bool;
  latchLocked : bool
}.

#[global] Instance Locks_eq_dec : EqDecision Locks.
Proof. solve_decision. Defined.

(** [loadEpochStats]: the latch release is deferred first, so it runs last;
    on success the cache write lock is taken, and released by the second
    deferred call. *)
Definition loadEpochStats (fetchOk : bool) : list Action :=
  let deferredLatch := [LatchUnlock] in
  if fetchOk then [Fetch; CacheLock; Work] ++ [CacheUnlock] ++ deferredLatch
  else [Fetch; Work] ++ deferredLatch.

(** [processEpoch]: read lock for the whole call, then the wait on the
    latch ([Lock] immediately followed by [Unlock]), then the rest. *)
Definition processEpoch : list Action :=
  [CacheRLock; LatchLock; LatchUnlock; Work] ++ [CacheRUnlock].

(** Can the action go ahead, or does the goroutine wait? (Go also makes
    new readers wait behind a waiting writer; that only adds waiting and is
    left out.) *)
Definition enabled (l : Locks) (a : Action) : bool :=
  match a with
  | CacheRLock => negb (cacheWriter l)
  | CacheLock => negb (cacheWriter l) && Nat.eqb (cacheReaders l) 0
  | LatchLock => negb (latchLocked l)
  | _ => true
  end.

Definition perform (l : Locks) (a : Action) : Locks :=
  match a with
  | CacheRLock => mkLocks (S (cacheReaders l)) (cacheWriter l) (latchLocked l)
  | CacheRUnlock =>
      mkLocks (Nat.pred (cacheReaders l)) (cacheWriter l) (latchLocked l)
  | CacheLock => mkLocks (cacheReaders l) true (latchLocked l)
  | CacheUnlock => mkLocks (cacheReaders l) false (latchLocked l)
  | LatchLock => mkLocks (cacheReaders l) (cacheWriter l) true
  | LatchUnlock => mkLocks (cacheReaders l) (cacheWriter l) false
  | Fetch | Work => l
  end.

Inductive Goroutine : Type := Loader | Aggregator.

Record System : Type := mkSystem {
  locks : Locks;
  loader : list Action;        (* what [loadEpochStats] still has to do *)
  aggregator : list Action;    (* what [processEpoch] still has to do *)
  releases : nat               (* latch releases done by the loader *)
}.

#[global] Instance System_eq_dec : EqDecision System.
Proof. solve_decision. Defined.

(** The moment [processEpoch] is called for an epoch whose validator set is
    being fetched. *)
Definition start (fetchOk : bool) : System :=
  mkSystem (mkLocks 0 false true) (loadEpochStats fetchOk) processEpoch 0.

Definition canStep (s : System) (g : Goroutine) : bool :=
  match g with
  | Loader =>
      match loader s with a :: _ => enabled (locks s) a | [] => false end
  | Aggregator =>
      match aggregator s with a :: _ => enabled (locks s) a | [] => false end
  end.

(** One scheduling decision: the chosen goroutine runs its next action if it
    can, and otherwise keeps waiting. *)
Definition step (g : Goroutine) (s : System) : System :=
  if canStep s g then
    match g with
    | Loader =>
        match loader s with
        | a :: rest =>
            mkSystem (perform (locks s) a) rest (aggregator s)
              (match a with LatchUnlock => S (releases s) | _ => releases s end)
        | [] => s
        end
    | Aggregator =>
        match aggregator s with
        | a :: rest =>
            mkSystem (perform (locks s) a) (loader s) rest (releases s)
        | [] => s
        end
    end
  else s.

Fixpoint run (schedule : list Goroutine) (s : System) : System :=
  match schedule with
  | [] => s
  | g :: rest => run rest (step g s)
  end.

Definition finished (s : System) : bool :=
  match loader s, aggregator s with [], [] => true | _, _ => false end.

(** Nobody can move although somebody still has work to do. *)
Definition deadlocked (s : System) : bool :=
  negb (finished s) && negb (canStep s Loader) && negb (canStep s Aggregator).

(** The states of an exhaustive exploration from [frontier]. *)
Fixpoint explore (depth : nat) (frontier seen : list System) : list System :=
  match depth with
  | O => seen
  | S depth' =>
      let next :=
        flat_map (fun s => [step Loader s; step Aggregator s]) frontier in
      let fresh :=
        List.filter (fun s => negb (bool_decide (s ∈ seen))) next in
      match fresh with
      | [] => seen
      | _ => explore depth' (remove_dups fresh) (seen ++ remove_dups fresh)
      end
  end.

Definition reachable (fetchOk : bool) : list System :=
  explore 20 [start fetchOk] [start fetchOk].

(** A schedule that gives each goroutine ten turns. *)
Definition roundRobin : list Goroutine :=
  concat (repeat [Loader; Aggregator] 10).

End Latch.

(** ** Literal scenarios *)

Module Scenario.

(** Bodies and assignments play no part in the scenarios. *)
Abbreviation State := (@indexerState unit unit).

Definition root (n : Z) : GoBytes := Some [n].

Definition header (r slot parent : Z) : BeaconHeader :=
  mkHeader (root r) slot (root parent).

(** Hand one block to [processHeadBlock] under the slot its header names,
    as [pollHeadBlock] and [pollStreamedBlock] do. *)
Definition feed (fuel : nat) (o : option State) (h : BeaconHeader)
  : option State :=
  match o with
  | Some st =>
      match processHeadBlock fuel st (Slot h) h tt with
      | Some r => Some (hrState r)
      | None => None
      end
  | None => None
  end.

Definition feedAll (fuel : nat) (o : option State) (hs : list BeaconHeader)
  : option State :=
  fold_left (feed fuel) hs o.

(** A chain without gaps: the block at slot [i] has root [100 + i] and
    parent root [100 + i - 1]. *)
Definition linearChain (first : Z) (count : Z) : list BeaconHeader :=
  map (fun i => header (100 + i) i (100 + i - 1)) (seqZ first count).

(** A fresh indexer fed the chain from slot [first] through slot 9. *)
Definition chainThrough9 (first : Z) : option State :=
  feedAll 64 (Some NewIndexer_state) (linearChain first (10 - first)).

(** The [(root, Orphaned)] pairs cached under a slot. *)
Definition flags (o : option State) (slot : Z)
  : option (list (GoBytes * bool)) :=
  match o with
  | Some st =>
      Some (map (fun b => (blockRoot b, Orphaned b))
              (default [] (cachedBlocks st !! slot)))
  | None => None
  end.

(** S3 and S4. *)
Definition blockA : BeaconHeader := header 1 10 109.
Definition blockB : BeaconHeader := header 2 10 109.
Definition blockC : BeaconHeader := header 3 11 2.
Definition blockD : BeaconHeader := header 4 12 1.

(** The chain from slot 0 through slot 9 with [blockA] on top. *)
Definition withA : State :=
  default NewIndexer_state (feed 64 (chainThrough9 0) blockA).

Definition afterS3 (first : Z) : option State :=
  feedAll 64 (chainThrough9 first) [blockA; blockB; blockC].

Definition afterS4 (first : Z) : option State :=
  feed 64 (afterS3 first) blockD.

(** A branch of depth two ([deepA1] at slot 10, [deepA2] on top of it at
    slot 11) is orphaned by [deepB] (slot 12, built on the slot-9 block) and
    then made canonical again by [deepD] (slot 13, built on [deepA2]). *)
Definition deepA1 : BeaconHeader := header 1 10 109.
Definition deepA2 : BeaconHeader := header 2 11 1.
Definition deepB : BeaconHeader := header 3 12 109.
Definition deepD : BeaconHeader := header 4 13 2.

Definition deepOrphaned : option State :=
  feedAll 64 (chainThrough9 0) [deepA1; deepA2; deepB].

Definition deepRecanonicalized : option State :=
  feed 64 deepOrphaned deepD.

(** Small chain parameters for the frontier and cleanup scenarios. *)
Definition chain4 : ChainConfig := mkChainConfig 4 0 None.
Definition mainnet : ChainConfig := mkChainConfig 32 74240 None.

Definition readyStats : @EpochStats unit :=
  mkEpochStats None Unlocked (mkEpochValidators Unlocked 0 0 ∅) (Some tt).

Definition dbOk : DbEnv := mkDbEnv true true true true.
Definition dbCommitFails : DbEnv := mkDbEnv true true true false.

(** Head in epoch 2, epoch 1 not yet processed, and no block of epoch 1 in
    the cache. *)
Definition emptyEpoch : State :=
  {| lastHeadBlock := 64; lastHeadRoot := root 164;
     cachedBlocks := {[ 64 := [mkBlockInfo (header 164 64 163) tt false] ]};
     epochStats := {[ 1 := readyStats ]};
     lowestCachedSlot := 64; lastProcessedEpoch := 0 |}.

(** The same with a canonical block at the first slot of epoch 1. *)
Definition fullEpoch : State :=
  {| lastHeadBlock := 64; lastHeadRoot := root 164;
     cachedBlocks :=
       {[ 32 := [mkBlockInfo (header 132 32 131) tt false];
          64 := [mkBlockInfo (header 164 64 163) tt false] ]};
     epochStats := {[ 1 := readyStats ]};
     lowestCachedSlot := 32; lastProcessedEpoch := 0 |}.

Definition delayOne (db : bool) : IndexerConfig := mkIndexerConfig db 2 1 false.

(** Head in epoch 3 with one epoch kept in memory: the cleanup threshold is
    slot 96. The cache already starts there, and the stats of epoch 2 are
    still held. *)
Definition staleStats : State :=
  {| lastHeadBlock := 100; lastHeadRoot := root 200;
     cachedBlocks := {[ 100 := [mkBlockInfo (header 200 100 199) tt false] ]};
     epochStats := {[ 2 := readyStats; 3 := readyStats ]};
     lowestCachedSlot := 96; lastProcessedEpoch := 2 |}.

Definition keepOne : IndexerConfig := mkIndexerConfig false 1 1 false.

(** The same head with the cache reaching back into epoch 2. *)
Definition dueForCleanup : State :=
  {| lastHeadBlock := 100; lastHeadRoot := root 200;
     cachedBlocks :=
       {[ 70 := [mkBlockInfo (header 170 70 169) tt false];
          100 := [mkBlockInfo (header 200 100 199) tt false] ]};
     epochStats := {[ 2 := readyStats; 3 := readyStats ]};
     lowestCachedSlot := 70; lastProcessedEpoch := 2 |}.

(** A fresh indexer that followed the chain from genesis (slot 0) through
    slot 13, four slots to the epoch. *)
Definition fromGenesis : State :=
  default NewIndexer_state
    (feedAll 64 (Some NewIndexer_state) (linearChain 0 14)).

(** Two competing blocks at slot 0 of a fresh indexer: the watermark is
    still 0. *)
Definition genesisFork : State :=
  {| lastHeadBlock := 0; lastHeadRoot := root 100;
     cachedBlocks :=
       {[ 0 := [mkBlockInfo (header 100 0 99) tt false;
                mkBlockInfo (header 7 0 8) tt false] ]};
     epochStats := ∅;
     lowestCachedSlot := 0; lastProcessedEpoch := 0 |}.


Definition delayTwo : IndexerConfig := mkIndexerConfig false 3 2 false.

(** Epoch 1 after a reorg at its first slot: the block under slot 32 is
    orphaned, the first canonical block sits under slot 33. *)
Definition reorgedEpoch : State :=
  {| lastHeadBlock := 64; lastHeadRoot := root 164;
     cachedBlocks :=
       {[ 32 := [mkBlockInfo (header 132 32 131) tt true];
          33 := [mkBlockInfo (header 133 33 131) tt false];
          64 := [mkBlockInfo (header 164 64 163) tt false] ]};
     epochStats := {[ 1 := readyStats ]};
     lowestCachedSlot := 32; lastProcessedEpoch := 0 |}.

(** The last epoch a [uint64] slot can belong to, 2^59 - 1 with 32 slots
    to the epoch: its last slot is 2^64 - 1. The only cached block sits
    under slot 5. *)
Definition lastEpoch : Z := 2 ^ 59 - 1.

Definition atLastEpoch : State :=
  {| lastHeadBlock := 5; lastHeadRoot := root 105;
     cachedBlocks := {[ 5 := [mkBlockInfo (header 105 5 104) tt false] ]};
     epochStats := {[ lastEpoch := readyStats ]};
     lowestCachedSlot := 5; lastProcessedEpoch := 0 |}.

(** A cache that starts at slot 20, misses the block of slot 22 and then
    sees its child at slot 23: no reorg base is in the window, so the blocks
    of slots 20 and 21 are marked orphaned. [returning] then builds on the
    block of slot 21. *)
Definition missedParent : State :=
  default NewIndexer_state
    (feedAll 64 (Some NewIndexer_state)
       [header 120 20 119; header 121 21 120; header 123 23 122]).

Definition returning : BeaconHeader := header 124 24 121.

(** The cache after the first round of the loop on
    [orphanedBlock.Orphaned] for [returning]: the base (slot 21) has been
    cleared, and [orphanedBlock] now points to the orphaned block of slot
    20, whose parent is not cached. *)
Definition spinning : State :=
  {| lastHeadBlock := 23; lastHeadRoot := root 123;
     cachedBlocks :=
       {[ 20 := [mkBlockInfo (header 120 20 119) tt true];
          21 := [mkBlockInfo (header 121 21 120) tt false];
          23 := [mkBlockInfo (header 123 23 122) tt true];
          24 := [mkBlockInfo returning tt false] ]};
     epochStats := ∅;
     lowestCachedSlot := 20; lastProcessedEpoch := 0 |}.

Definition spinningOn : BlockRef := mkRef 20 0 (header 120 20 119).

(** The cache when the reorg-base search for [returning] has found the
    block of slot 21: every block but [returning] is orphaned. *)
Definition searched : State :=
  {| lastHeadBlock := 23; lastHeadRoot := root 123;
     cachedBlocks :=
       {[ 20 := [mkBlockInfo (header 120 20 119) tt true];
          21 := [mkBlockInfo (header 121 21 120) tt true];
          23 := [mkBlockInfo (header 123 23 122) tt true];
          24 := [mkBlockInfo returning tt false] ]};
     epochStats := ∅;
     lowestCachedSlot := 20; lastProcessedEpoch := 0 |}.

Definition searchedBase : BlockRef := mkRef 21 0 (header 121 21 120).

(** The chain through slot 9, before any fork. *)
Definition upTo9 : State := default NewIndexer_state (chainThrough9 0).

(** A head at slot 12 whose parent was never seen. *)
Definition strayHead : BeaconHeader := header 50 12 999.

(** The beacon node of the scenarios: it serves the chain without gaps by
    slot, answers every request by root and for the head with the block of
    slot 12, has assignments for every epoch, and knows four validator
    entries, two of them for index 0. *)
Abbreviation Node := (@BeaconNode unit unit).

Definition validators : list ValidatorEntry :=
  [mkValidatorEntry 0 "active_ongoing" 32;
   mkValidatorEntry 1 "exited_unslashed" 32;
   mkValidatorEntry 2 "active_ongoing" 31;
   mkValidatorEntry 0 "active_ongoing" 30].

Definition node : Node :=
  {| GetEpochAssignments := fun _ => mkAnswer (Some tt) false;
     GetLatestBlockHead := mkAnswer (Some (header 112 12 111)) false;
     GetBlockHeaderBySlot :=
       fun slot => mkAnswer (Some (header (100 + slot) slot (100 + slot - 1)))
                     false;
     GetBlockHeaderByBlockroot :=
       fun _ => mkAnswer (Some (header 112 12 111)) false;
     GetBlockBodyByBlockroot := fun _ => mkAnswer tt false;
     GetStateValidators := fun _ => mkAnswer (Some validators) false |}.

(** The same node with the validators endpoint failing. *)
Definition nodeWithoutValidators : Node :=
  {| GetEpochAssignments := GetEpochAssignments node;
     GetLatestBlockHead := GetLatestBlockHead node;
     GetBlockHeaderBySlot := GetBlockHeaderBySlot node;
     GetBlockHeaderByBlockroot := GetBlockHeaderByBlockroot node;
     GetBlockBodyByBlockroot := GetBlockBodyByBlockroot node;
     GetStateValidators := fun _ => mkAnswer None true |}.

Definition assignmentsRoot (_ : unit) : GoBytes := root 500.
Definition assignmentsState (_ : unit) : string := "head".

(** The stats [processHeadEpoch] creates with that node. *)
Definition freshStats : @EpochStats unit :=
  mkEpochStats (root 500) Unlocked (mkEpochValidators Locked 0 0 ∅) (Some tt).

(** The rows of a proposer: a missed slot, a canonical block with an
    execution block, and an orphaned block. *)
Definition proposedBlock (orphaned : Z) (number : option Z)
  : dbtypes.Block unit :=
  dbtypes.mkBlock (root 7) orphaned None 3 0 0 0 0 5 number tt.

Definition rows : list (handlers.AssignedBlock unit) :=
  [handlers.mkAssignedBlock 40 None;
   handlers.mkAssignedBlock 37 (Some (proposedBlock 0 (Some 1000)));
   handlers.mkAssignedBlock 33 (Some (proposedBlock 1 None))].

Definition service : handlers.BeaconService unit :=
  handlers.mkBeaconService (fun _ => "validator") 1 (fun _ _ _ => rows).

End Scenario.

(** * Properties *)

(** ** Machine integers and byte slices *)

Lemma wrap64_range z : is_uint64 (wrap64 z).
Proof.
  unfold is_uint64, wrap64, uint64_modulus.
  apply Z.mod_pos_bound. lia.
Qed.

Lemma wrap64_small z : is_uint64 z -> wrap64 z = z.
Proof.
  unfold is_uint64, wrap64, uint64_modulus. intros H.
  apply Z.mod_small. exact H.
Qed.

Lemma wrap64_below z :
  - uint64_modulus <= z < 0 -> wrap64 z = z + uint64_modulus.
Proof.
  unfold wrap64, uint64_modulus. intros H.
  symmetry. apply Z.mod_unique_pos with (q := -1); lia.
Qed.

Lemma list_Z_eqb_refl l : list_Z_eqb l l = true.
Proof.
  induction l as [|x l IH]; simpl; [reflexivity|].
  rewrite Z.eqb_refl, IH. reflexivity.
Qed.

Lemma bytes_Equal_refl b : bytes_Equal b b = true.
Proof. apply list_Z_eqb_refl. Qed.

Section IndexerFacts.

Context {Body : Type} {EpochAssignments : Type}.

Implicit Types (st : @indexerState Body EpochAssignments).
Implicit Types (blocks : list (@BlockInfo Body)).

(** ** Reorg passes only flip [Orphaned]

    Every pass of the reorg engine rewrites cache entries in place: the
    headers stored under each slot, and every other field of the state, are
    left as they were. *)

Lemma sameSkeleton_refl st : sameSkeleton st st.
Proof. unfold sameSkeleton. tauto. Qed.

Lemma sameSkeleton_trans st1 st2 st3 :
  sameSkeleton st1 st2 -> sameSkeleton st2 st3 -> sameSkeleton st1 st3.
Proof.
  unfold sameSkeleton.
  intros (H1 & H2 & H3 & H4 & H5 & H6) (K1 & K2 & K3 & K4 & K5 & K6).
  repeat split; congruence.
Qed.

Lemma headersOf_insert_same (m : gmap Z (list BlockInfo)) slot blocks blocks' :
  m !! slot = Some blocks ->
  map Header blocks' = map Header blocks ->
  headersOf (<[slot := blocks']> m) = headersOf m.
Proof.
  intros Hm Hh. unfold headersOf.
  rewrite fmap_insert, Hh.
  apply insert_id. rewrite lookup_fmap, Hm. reflexivity.
Qed.

Lemma sameSkeleton_rewrite st slot blocks blocks' :
  cachedBlocks st !! slot = Some blocks ->
  map Header blocks' = map Header blocks ->
  sameSkeleton st
    (set_cachedBlocks (<[slot := blocks']> (cachedBlocks st)) st).
Proof.
  intros Hm Hh. unfold sameSkeleton; simpl.
  repeat split; try reflexivity.
  eapply headersOf_insert_same; eassumption.
Qed.

Lemma searchSlot_headers root parent bidx blocks base :
  map Header (fst (searchSlot root parent bidx blocks base))
  = map Header blocks.
Proof.
  revert bidx base.
  induction blocks as [|b rest IH]; intros bidx base; simpl; [reflexivity|].
  destruct (bytes_Equal (blockRoot b) root).
  - specialize (IH (S bidx) base).
    destruct (searchSlot root parent (S bidx) rest base); simpl in *.
    congruence.
  - destruct (bytes_Equal (blockRoot b) parent).
    + specialize (IH (S bidx) (Some (bidx, b))).
      destruct (searchSlot root parent (S bidx) rest (Some (bidx, b)));
        simpl in *.
      congruence.
    + specialize (IH (S bidx) base).
      destruct (searchSlot root parent (S bidx) rest base); simpl in *.
      congruence.
Qed.

Lemma fixSlot_headers sidx bidx blocks cur found :
  map Header (fst (fst (fixSlot sidx bidx blocks cur found)))
  = map Header blocks.
Proof.
  revert bidx cur found.
  induction blocks as [|b rest IH]; intros bidx cur found; simpl;
    [reflexivity|].
  destruct (bytes_Equal (blockRoot b) (ParentRoot (refHeader cur))).
  - match goal with
    | |- context [fixSlot sidx (S bidx) rest ?c ?f] =>
        specialize (IH (S bidx) c f);
        destruct (fixSlot sidx (S bidx) rest c f) as [[? ?] ?]
    end.
    simpl in *. congruence.
  - specialize (IH (S bidx) cur found).
    destruct (fixSlot sidx (S bidx) rest cur found) as [[? ?] ?].
    simpl in *. congruence.
Qed.

Lemma reorgBaseSearch_skeleton fuel root parent sidx st st' base :
  reorgBaseSearch fuel root parent sidx st = Some (st', base) ->
  sameSkeleton st st'.
Proof.
  revert sidx st.
  induction fuel as [|fuel IH]; intros sidx st; simpl; [discriminate|].
  destruct (sidx <? lowestCachedSlot st).
  { intros [= <- <-]. apply sameSkeleton_refl. }
  destruct (cachedBlocks st !! sidx) as [blocks|] eqn:Hm; [|apply IH].
  pose proof (searchSlot_headers root parent 0 blocks None) as Hh.
  destruct (searchSlot root parent 0 blocks None) as [blocks' found].
  simpl in Hh.
  pose proof (sameSkeleton_rewrite st sidx blocks blocks' Hm Hh) as Hs.
  destruct found as [[bidx b]|].
  - intros [= <- <-]. exact Hs.
  - intros H. eapply sameSkeleton_trans; [exact Hs|]. eapply IH, H.
Qed.

Lemma fixWalk_skeleton fuel sidx cur st st' cur' found :
  fixWalk fuel sidx cur st = Some (st', cur', found) ->
  sameSkeleton st st'.
Proof.
  revert sidx cur st.
  induction fuel as [|fuel IH]; intros sidx cur st; simpl; [discriminate|].
  destruct (sidx <? lowestCachedSlot st).
  { intros [= <- <- <-]. apply sameSkeleton_refl. }
  destruct (cachedBlocks st !! sidx) as [blocks|] eqn:Hm; [|apply IH].
  pose proof (fixSlot_headers sidx 0 blocks cur false) as Hh.
  destruct (fixSlot sidx 0 blocks cur false) as [[blocks' cur1] found1].
  simpl in Hh.
  pose proof (sameSkeleton_rewrite st sidx blocks blocks' Hm Hh) as Hs.
  destruct found1.
  - intros [= <- <- <-]. exact Hs.
  - intros H. eapply sameSkeleton_trans; [exact Hs|]. eapply IH, H.
Qed.

Lemma writeOrphaned_skeleton o p st : sameSkeleton st (writeOrphaned o p st).
Proof.
  unfold writeOrphaned.
  destruct (cachedBlocks st !! refSlot p) as [blocks|] eqn:Hm;
    [|apply sameSkeleton_refl].
  destruct (blocks !! refIndex p) as [b|] eqn:Hb; [|apply sameSkeleton_refl].
  apply sameSkeleton_rewrite with (blocks := blocks); [exact Hm|].
  rewrite list_fmap_insert. simpl.
  apply list_insert_id. rewrite list_lookup_fmap, Hb. reflexivity.
Qed.

Lemma fixOrphaned_skeleton rounds fuel baseSlot cur resync st st' resync' :
  fixOrphaned rounds fuel baseSlot cur resync st = Some (st', resync') ->
  sameSkeleton st st'.
Proof.
  revert cur resync st.
  induction rounds as [|rounds IH]; intros cur resync st; simpl;
    [discriminate|].
  destruct (refOrphaned st cur).
  - destruct (fixWalk fuel (wrap64 (baseSlot - 1)) cur
                (writeOrphaned false cur st))
      as [[[st2 cur'] found]|] eqn:Hw; [|discriminate].
    intros H.
    eapply sameSkeleton_trans; [apply writeOrphaned_skeleton|].
    eapply sameSkeleton_trans; [eapply fixWalk_skeleton, Hw|].
    eapply IH, H.
  - intros [= <- <-]. apply sameSkeleton_refl.
Qed.

(** ** The re-canonicalization walk never clears a flag

    Inside the walk a block is either stepped over or marked orphaned. The
    only write of [false] is the one that opens a round of the enclosing
    loop, on the block [orphanedBlock] points to at that moment. *)

Lemma fixSlot_keeps_orphaned sidx bidx blocks cur found i b :
  blocks !! i = Some b ->
  exists b',
    fst (fst (fixSlot sidx bidx blocks cur found)) !! i = Some b'
    /\ Header b' = Header b
    /\ (Orphaned b = true -> Orphaned b' = true).
Proof.
  revert i bidx cur found.
  induction blocks as [|b0 rest IH]; intros i bidx cur found Hi;
    [discriminate|].
  simpl.
  destruct (bytes_Equal (blockRoot b0) (ParentRoot (refHeader cur))).
  - match goal with
    | |- context [fixSlot sidx (S bidx) rest ?c ?f] =>
        pose proof (fun j => IH j (S bidx) c f) as IH';
        destruct (fixSlot sidx (S bidx) rest c f) as [[rest' c'] f']
    end.
    destruct i as [|i]; simpl in *.
    + injection Hi as <-. exists b0. tauto.
    + apply IH', Hi.
  - pose proof (fun j => IH j (S bidx) cur found) as IH'.
    destruct (fixSlot sidx (S bidx) rest cur found) as [[rest' c'] f'].
    destruct i as [|i]; simpl in *.
    + injection Hi as <-. exists (setOrphaned true b0). simpl. tauto.
    + apply IH', Hi.
Qed.

Lemma fixWalk_keeps_orphaned fuel sidx cur st st' cur' found slot blocks i b :
  fixWalk fuel sidx cur st = Some (st', cur', found) ->
  cachedBlocks st !! slot = Some blocks -> blocks !! i = Some b ->
  Orphaned b = true ->
  exists blocks' b',
    cachedBlocks st' !! slot = Some blocks' /\ blocks' !! i = Some b'
    /\ Header b' = Header b /\ Orphaned b' = true.
Proof.
  revert sidx cur st blocks b.
  induction fuel as [|fuel IH]; intros sidx cur st blocks b; simpl;
    [discriminate|].
  intros Hw Hm Hi Ho.
  destruct (sidx <? lowestCachedSlot st).
  { injection Hw as <- <- <-. exists blocks, b. tauto. }
  destruct (cachedBlocks st !! sidx) as [here|] eqn:Hhere;
    [|eapply IH; eassumption].
  assert (Hnext : exists blocks1 b1,
            <[sidx := fst (fst (fixSlot sidx 0 here cur false))]>
              (cachedBlocks st) !! slot = Some blocks1
            /\ blocks1 !! i = Some b1
            /\ Header b1 = Header b /\ Orphaned b1 = true).
  { destruct (decide (sidx = slot)) as [->|Hne].
    - rewrite Hm in Hhere. injection Hhere as <-.
      destruct (fixSlot_keeps_orphaned slot 0 blocks cur false i b Hi)
        as (b1 & H1 & H2 & H3).
      eexists _, b1. rewrite lookup_insert_eq. split; [reflexivity|].
      split; [exact H1|]. split; [exact H2|apply H3, Ho].
    - exists blocks, b. rewrite lookup_insert_ne by exact Hne. tauto. }
  destruct (fixSlot sidx 0 here cur false) as [[here' cur1] found1].
  simpl in Hnext. destruct Hnext as (blocks1 & b1 & Hm1 & Hi1 & Hh1 & Ho1).
  destruct found1.
  - injection Hw as <- <- <-. simpl. exists blocks1, b1. tauto.
  - destruct (IH _ _ _ blocks1 b1 Hw Hm1 Hi1 Ho1)
      as (blocks' & b' & K1 & K2 & K3 & K4).
    exists blocks', b'. split; [exact K1|]. split; [exact K2|].
    split; [congruence|exact K4].
Qed.

(** ** Duplicate blocks *)

Lemma findDuplicate_headers root bidx blocks blocks' :
  map Header blocks' = map Header blocks ->
  findDuplicate root bidx blocks' = findDuplicate root bidx blocks.
Proof.
  revert bidx blocks'.
  induction blocks as [|b rest IH]; intros bidx [|b' rest']; simpl;
    try discriminate; [reflexivity|].
  intros [= Hb Hrest]. unfold blockRoot. rewrite Hb.
  destruct (bytes_Equal (Root (Header b)) root); [reflexivity|].
  apply IH, Hrest.
Qed.

Lemma findDuplicate_last root bidx blocks b :
  blockRoot b = root ->
  is_Some (findDuplicate root bidx (blocks ++ [b])).
Proof.
  intros Hb. revert bidx.
  induction blocks as [|b0 rest IH]; intros bidx; simpl.
  - rewrite Hb, bytes_Equal_refl. eauto.
  - destruct (bytes_Equal (blockRoot b0) root); [eauto|apply IH].
Qed.

Lemma reconcileHead_headers fuel st slot header idx r :
  reconcileHead fuel st slot header idx = Some r ->
  headersOf (cachedBlocks (hrState r)) = headersOf (cachedBlocks st).
Proof.
  unfold reconcileHead.
  set (st2 := if (lowestCachedSlot st =? 0) || (slot <? lowestCachedSlot st)
              then set_lowestCachedSlot slot st else st).
  assert (H2 : cachedBlocks st2 = cachedBlocks st).
  { subst st2. destruct (_ || _); reflexivity. }
  destruct (negb (is_nil (lastHeadRoot st2)) && _).
  - destruct (reorgBaseSearch fuel (Root header) (ParentRoot header) slot st2)
      as [[st3 [base|]]|] eqn:Hs; [| |discriminate].
    + destruct (fixOrphaned fuel fuel (refSlot base) base false st3)
        as [[st4 resync]|] eqn:Hf; [|discriminate].
      intros [= <-]. simpl.
      apply reorgBaseSearch_skeleton in Hs. destruct Hs as [Hs _].
      apply fixOrphaned_skeleton in Hf. destruct Hf as [Hf _].
      congruence.
    + intros [= <-]. simpl.
      apply reorgBaseSearch_skeleton in Hs. destruct Hs as [Hs _].
      congruence.
  - intros [= <-]. simpl. congruence.
Qed.

Lemma headersOf_lookup (m m' : gmap Z (list (@BlockInfo Body))) slot blocks :
  headersOf m' = headersOf m ->
  m !! slot = Some blocks ->
  exists blocks', m' !! slot = Some blocks'
                  /\ map Header blocks' = map Header blocks.
Proof.
  intros Hh Hm.
  assert (H : headersOf m' !! slot = headersOf m !! slot)
    by (rewrite Hh; reflexivity).
  unfold headersOf in H. rewrite !lookup_fmap, Hm in H. simpl in H.
  destruct (m' !! slot) as [blocks'|]; simpl in H; [|discriminate].
  exists blocks'. split; [reflexivity|congruence].
Qed.

(** Once [processHeadBlock] has returned, the block it was given is cached
    under its slot, whether it was stored by this call or found there. *)
Lemma processHeadBlock_cached fuel st slot header (body : Body) r :
  processHeadBlock fuel st slot header body = Some r ->
  exists blocks, cachedBlocks (hrState r) !! slot = Some blocks
                 /\ is_Some (findDuplicate (Root header) 0 blocks).
Proof.
  unfold processHeadBlock.
  set (blockInfo := mkBlockInfo header body false).
  assert (Hstored : forall blocks0 idx,
    is_Some (findDuplicate (Root header) 0 blocks0) ->
    reconcileHead fuel
      (set_cachedBlocks (<[slot := blocks0]> (cachedBlocks st)) st)
      slot header idx = Some r ->
    exists blocks, cachedBlocks (hrState r) !! slot = Some blocks
                   /\ is_Some (findDuplicate (Root header) 0 blocks)).
  { intros blocks0 idx Hdup Hr.
    apply reconcileHead_headers in Hr. simpl in Hr.
    destruct (headersOf_lookup _ _ slot blocks0 Hr) as (blocks' & Hl & Hh).
    { apply lookup_insert_eq. }
    exists blocks'. split; [exact Hl|].
    rewrite (findDuplicate_headers _ _ _ _ Hh). exact Hdup. }
  destruct (cachedBlocks st !! slot) as [blocks|] eqn:Hm.
  - destruct (findDuplicate (Root header) 0 blocks) as [bidx|] eqn:Hdup.
    + intros [= <-]. simpl. exists blocks. rewrite Hdup. eauto.
    + apply Hstored. apply findDuplicate_last. reflexivity.
  - apply Hstored.
    apply (findDuplicate_last (Root header) 0%nat [] blockInfo). reflexivity.
Qed.

(** C4. Handing [processHeadBlock] the same (slot, root, header, body) a
    second time changes nothing: whenever the first call returns, the second
    call, run on the state the first one left, finds an entry with that root
    among the blocks cached under the slot, appends no entry, returns nil and
    leaves every field of the state as it was. The second call does not
    reach any loop of the reorg engine, so it returns for every fuel. *)
Theorem processHeadBlock_idempotent fuel st slot header (body : Body) r :
  processHeadBlock fuel st slot header body = Some r ->
  forall fuel',
    processHeadBlock fuel' (hrState r) slot header body
    = Some (mkHeadResult (hrState r) None false).
Proof.
  intros Hr fuel'.
  destruct (processHeadBlock_cached _ _ _ _ _ _ Hr) as (blocks & Hm & [i Hi]).
  unfold processHeadBlock. rewrite Hm, Hi. reflexivity.
Qed.

(** ** The backward walks *)

(** A property of headers that holds for all cached blocks holds for the
    headers under every slot, and keeps holding when flags are flipped. *)
Lemma allBlocks_headers (P : BeaconHeader -> bool)
    (m : gmap Z (list (@BlockInfo Body))) :
  forallb (fun b => P (Header b)) (allBlocks m) = true ->
  forall slot hs, headersOf m !! slot = Some hs -> forallb P hs = true.
Proof.
  intros Hall slot hs Hl.
  unfold headersOf in Hl. rewrite lookup_fmap in Hl.
  destruct (m !! slot) as [blocks|] eqn:Hm; simpl in Hl; [|discriminate].
  injection Hl as <-.
  rewrite forallb_forall in Hall. apply forallb_forall.
  intros h Hh. apply in_map_iff in Hh. destruct Hh as (b & <- & Hb).
  apply Hall. unfold allBlocks. apply in_flat_map.
  exists (slot, blocks). split; [|exact Hb].
  apply list_elem_of_In, elem_of_map_to_list. exact Hm.
Qed.

Lemma searchSlot_no_base root parent bidx blocks base :
  forallb (fun h => bytes_Equal (Root h) root
                    || negb (bytes_Equal (Root h) parent))
    (map Header blocks) = true ->
  snd (searchSlot root parent bidx blocks base) = base.
Proof.
  revert bidx.
  induction blocks as [|b rest IH]; intros bidx; simpl; [reflexivity|].
  intros H. apply andb_true_iff in H. destruct H as [Hb Hrest].
  unfold blockRoot.
  destruct (bytes_Equal (Root (Header b)) root) eqn:Er.
  - specialize (IH (S bidx) Hrest).
    destruct (searchSlot root parent (S bidx) rest base). exact IH.
  - simpl in Hb. apply negb_true_iff in Hb. rewrite Hb.
    specialize (IH (S bidx) Hrest).
    destruct (searchSlot root parent (S bidx) rest base). exact IH.
Qed.

Lemma fixSlot_no_parent sidx bidx blocks cur found :
  forallb (fun h => negb (bytes_Equal (Root h) (ParentRoot (refHeader cur))))
    (map Header blocks) = true ->
  snd (fst (fixSlot sidx bidx blocks cur found)) = cur
  /\ snd (fixSlot sidx bidx blocks cur found) = found.
Proof.
  revert bidx.
  induction blocks as [|b rest IH]; intros bidx; simpl; [tauto|].
  intros H. apply andb_true_iff in H. destruct H as [Hb Hrest].
  apply negb_true_iff in Hb. unfold blockRoot. rewrite Hb.
  specialize (IH (S bidx) Hrest).
  destruct (fixSlot sidx (S bidx) rest cur found) as [[? ?] ?]. exact IH.
Qed.

Lemma reorgBaseSearch_terminates fuel root parent sidx st :
  1 <= lowestCachedSlot st -> is_uint64 sidx ->
  (Z.to_nat (sidx - lowestCachedSlot st + 1) < fuel)%nat ->
  is_Some (reorgBaseSearch fuel root parent sidx st).
Proof.
  intros Hlow. revert sidx st Hlow.
  induction fuel as [|fuel IH]; intros sidx st Hlow Hs Hf; [lia|].
  simpl.
  destruct (Z.ltb_spec sidx (lowestCachedSlot st)) as [Hlt|Hge]; [eauto|].
  assert (Hw : wrap64 (sidx - 1) = sidx - 1).
  { apply wrap64_small. unfold is_uint64 in *. lia. }
  rewrite Hw.
  assert (Hs' : is_uint64 (sidx - 1)) by (unfold is_uint64 in *; lia).
  destruct (cachedBlocks st !! sidx) as [blocks|].
  - destruct (searchSlot root parent 0 blocks None) as [blocks' [[bidx b]|]];
      [eauto|].
    apply IH; simpl; [exact Hlow|exact Hs'|lia].
  - apply IH; [exact Hlow|exact Hs'|lia].
Qed.

Lemma fixWalk_terminates fuel sidx cur st :
  1 <= lowestCachedSlot st -> is_uint64 sidx ->
  (Z.to_nat (sidx - lowestCachedSlot st + 1) < fuel)%nat ->
  is_Some (fixWalk fuel sidx cur st).
Proof.
  intros Hlow. revert sidx cur st Hlow.
  induction fuel as [|fuel IH]; intros sidx cur st Hlow Hs Hf; [lia|].
  simpl.
  destruct (Z.ltb_spec sidx (lowestCachedSlot st)) as [Hlt|Hge]; [eauto|].
  assert (Hw : wrap64 (sidx - 1) = sidx - 1).
  { apply wrap64_small. unfold is_uint64 in *. lia. }
  rewrite Hw.
  assert (Hs' : is_uint64 (sidx - 1)) by (unfold is_uint64 in *; lia).
  destruct (cachedBlocks st !! sidx) as [blocks|].
  - destruct (fixSlot sidx 0 blocks cur false) as [[blocks' cur'] [|]];
      [eauto|].
    apply IH; simpl; [exact Hlow|exact Hs'|lia].
  - apply IH; [exact Hlow|exact Hs'|lia].
Qed.

Lemma reorgBaseSearch_spins fuel root parent sidx st :
  lowestCachedSlot st = 0 -> is_uint64 sidx ->
  (forall slot hs, headersOf (cachedBlocks st) !! slot = Some hs ->
     forallb (fun h => bytes_Equal (Root h) root
                       || negb (bytes_Equal (Root h) parent)) hs = true) ->
  reorgBaseSearch fuel root parent sidx st = None.
Proof.
  revert sidx st.
  induction fuel as [|fuel IH]; intros sidx st Hlow Hs Hno; [reflexivity|].
  simpl. rewrite Hlow.
  destruct (Z.ltb_spec sidx 0) as [Hlt|_]; [unfold is_uint64 in Hs; lia|].
  destruct (cachedBlocks st !! sidx) as [blocks|] eqn:Hm.
  - pose proof (searchSlot_headers root parent 0 blocks None) as Hh.
    pose proof (searchSlot_no_base root parent 0 blocks None) as Hb.
    destruct (searchSlot root parent 0 blocks None) as [blocks' base].
    simpl in Hh, Hb. rewrite Hb.
    + apply IH; simpl; [exact Hlow|apply wrap64_range|].
      rewrite (headersOf_insert_same _ _ _ _ Hm Hh). exact Hno.
    + apply (Hno sidx). unfold headersOf. rewrite lookup_fmap, Hm.
      reflexivity.
  - apply IH; [exact Hlow|apply wrap64_range|exact Hno].
Qed.

Lemma fixWalk_spins fuel sidx cur st :
  lowestCachedSlot st = 0 -> is_uint64 sidx ->
  (forall slot hs, headersOf (cachedBlocks st) !! slot = Some hs ->
     forallb (fun h => negb (bytes_Equal (Root h)
                               (ParentRoot (refHeader cur)))) hs = true) ->
  fixWalk fuel sidx cur st = None.
Proof.
  revert sidx st.
  induction fuel as [|fuel IH]; intros sidx st Hlow Hs Hno; [reflexivity|].
  simpl. rewrite Hlow.
  destruct (Z.ltb_spec sidx 0) as [Hlt|_]; [unfold is_uint64 in Hs; lia|].
  destruct (cachedBlocks st !! sidx) as [blocks|] eqn:Hm.
  - pose proof (fixSlot_headers sidx 0 blocks cur false) as Hh.
    pose proof (fixSlot_no_parent sidx 0 blocks cur false) as Hb.
    destruct (fixSlot sidx 0 blocks cur false) as [[blocks' cur'] found].
    simpl in Hh, Hb.
    destruct Hb as [-> ->].
    + apply (Hno sidx). unfold headersOf. rewrite lookup_fmap, Hm.
      reflexivity.
    + apply IH; simpl; [exact Hlow|apply wrap64_range|].
      rewrite (headersOf_insert_same _ _ _ _ Hm Hh). exact Hno.
  - apply IH; [exact Hlow|apply wrap64_range|exact Hno].
Qed.

(** With a watermark of 0 the loop condition holds for every [uint64]:
    the walks can only be left through their [break]. *)
Lemma reorgBaseSearch_leaves_by_break fuel root parent sidx st st' base :
  lowestCachedSlot st = 0 -> is_uint64 sidx ->
  reorgBaseSearch fuel root parent sidx st = Some (st', base) ->
  is_Some base.
Proof.
  revert sidx st.
  induction fuel as [|fuel IH]; intros sidx st Hlow Hs; simpl; [discriminate|].
  rewrite Hlow.
  destruct (Z.ltb_spec sidx 0) as [Hlt|_]; [unfold is_uint64 in Hs; lia|].
  destruct (cachedBlocks st !! sidx) as [blocks|].
  - destruct (searchSlot root parent 0 blocks None) as [blocks' [[bidx b]|]].
    + intros [= _ <-]. eauto.
    + apply IH; [exact Hlow|apply wrap64_range].
  - apply IH; [exact Hlow|apply wrap64_range].
Qed.

Lemma fixWalk_leaves_by_break fuel sidx cur st st' cur' found :
  lowestCachedSlot st = 0 -> is_uint64 sidx ->
  fixWalk fuel sidx cur st = Some (st', cur', found) ->
  found = true.
Proof.
  revert sidx cur st.
  induction fuel as [|fuel IH]; intros sidx cur st Hlow Hs; simpl;
    [discriminate|].
  rewrite Hlow.
  destruct (Z.ltb_spec sidx 0) as [Hlt|_]; [unfold is_uint64 in Hs; lia|].
  destruct (cachedBlocks st !! sidx) as [blocks|].
  - destruct (fixSlot sidx 0 blocks cur false) as [[blocks' cur1] [|]].
    + intros [= _ _ <-]. reflexivity.
    + apply IH; [exact Hlow|apply wrap64_range].
  - apply IH; [exact Hlow|apply wrap64_range].
Qed.

(** C9. Both backward walks of [processHeadBlock] count a [uint64] slot
    index down while [sidx >= lowestCachedSlot]. With
    [lowestCachedSlot >= 1] each of them returns, for every cache state and
    every start slot, once it is given more steps than there are slots
    between the start and the watermark. With [lowestCachedSlot = 0] the
    index wraps from 0 to 2^64 - 1 instead of falling below the bound, so
    the loop condition never fails: a walk that returns has left through its
    [break] (a reorg base was found, [foundReorgBase] was set), and when the
    cache holds no block to stop at (no reorg base for the search, no parent
    of [orphanedBlock] for the re-canonicalization walk) the walk is still
    running after any number of steps. *)
Theorem backward_walks_termination :
  (forall root parent sidx st,
     1 <= lowestCachedSlot st -> is_uint64 sidx ->
     forall fuel, (Z.to_nat (sidx - lowestCachedSlot st + 1) < fuel)%nat ->
     is_Some (reorgBaseSearch fuel root parent sidx st))
  /\ (forall sidx cur st,
        1 <= lowestCachedSlot st -> is_uint64 sidx ->
        forall fuel, (Z.to_nat (sidx - lowestCachedSlot st + 1) < fuel)%nat ->
        is_Some (fixWalk fuel sidx cur st))
  /\ wrap64 (0 - 1) = uint64_max
  /\ (forall root parent sidx st,
        lowestCachedSlot st = 0 -> is_uint64 sidx ->
        forall fuel st' base,
          reorgBaseSearch fuel root parent sidx st = Some (st', base) ->
          is_Some base)
  /\ (forall sidx cur st,
        lowestCachedSlot st = 0 -> is_uint64 sidx ->
        forall fuel st' cur' found,
          fixWalk fuel sidx cur st = Some (st', cur', found) ->
          found = true)
  /\ (forall root parent sidx st,
        lowestCachedSlot st = 0 -> is_uint64 sidx ->
        noBaseFor root parent (cachedBlocks st) = true ->
        forall fuel, reorgBaseSearch fuel root parent sidx st = None)
  /\ (forall sidx cur st,
        lowestCachedSlot st = 0 -> is_uint64 sidx ->
        noParentFor cur (cachedBlocks st) = true ->
        forall fuel, fixWalk fuel sidx cur st = None).
Proof.
  split; [|split; [|split; [|split; [|split; [|split]]]]].
  - intros. apply reorgBaseSearch_terminates; assumption.
  - intros. apply fixWalk_terminates; assumption.
  - reflexivity.
  - intros root parent sidx st Hlow Hs fuel st' base Hr.
    eapply reorgBaseSearch_leaves_by_break; eassumption.
  - intros sidx cur st Hlow Hs fuel st' cur' found Hr.
    eapply fixWalk_leaves_by_break; eassumption.
  - intros root parent sidx st Hlow Hs Hno fuel.
    apply reorgBaseSearch_spins; [exact Hlow|exact Hs|].
    apply (allBlocks_headers
             (fun h => bytes_Equal (Root h) root
                       || negb (bytes_Equal (Root h) parent))).
    exact Hno.
  - intros sidx cur st Hlow Hs Hno fuel.
    apply fixWalk_spins; [exact Hlow|exact Hs|].
    apply (allBlocks_headers
             (fun h => negb (bytes_Equal (Root h)
                               (ParentRoot (refHeader cur))))).
    exact Hno.
Qed.

(** ** The processing frontier *)

Lemma frontierEpoch_set_lastProcessedEpoch cfg icfg e st :
  frontierEpoch cfg icfg (set_lastProcessedEpoch e st)
  = frontierEpoch cfg icfg st.
Proof. reflexivity. Qed.

(** [processIndexing] has nothing to tell a successful [processEpoch] from
    a failed one. *)
Lemma processIndexing_after_processEpoch fuel cfg icfg db st events :
  lastProcessedEpoch st < frontierEpoch cfg icfg st ->
  processEpoch fuel cfg icfg db st (frontierEpoch cfg icfg st)
  = Returned events ->
  processIndexing fuel cfg icfg db st
  = Returned (set_lastProcessedEpoch (frontierEpoch cfg icfg st) st, events).
Proof.
  intros Hlt He. unfold processIndexing.
  destruct (Z.ltb_spec (lastProcessedEpoch st) (frontierEpoch cfg icfg st));
    [|lia].
  rewrite He. reflexivity.
Qed.

Lemma processIndexing_idle fuel cfg icfg db st :
  frontierEpoch cfg icfg st <= lastProcessedEpoch st ->
  processIndexing fuel cfg icfg db st = Returned (st, []).
Proof.
  intros Hle. unfold processIndexing.
  destruct (Z.ltb_spec (lastProcessedEpoch st) (frontierEpoch cfg icfg st));
    [lia|reflexivity].
Qed.

(** C1, as the code has it. [processEpoch] writes no field of the state and
    reports nothing; [processIndexing] sets [lastProcessedEpoch] to the
    frontier epoch after every call of [processEpoch] that returns, whatever
    that call did (no canonical block found, transaction not started or not
    committed, or success). On the state so obtained, with the head where it
    was, [processIndexing] does not call [processEpoch] again: it returns
    the state unchanged with an empty trace. *)
Theorem processIndexing_advances_whatever_happened fuel cfg icfg db st events :
  lastProcessedEpoch st < frontierEpoch cfg icfg st ->
  processEpoch fuel cfg icfg db st (frontierEpoch cfg icfg st)
  = Returned events ->
  let st' := set_lastProcessedEpoch (frontierEpoch cfg icfg st) st in
  processIndexing fuel cfg icfg db st = Returned (st', events)
  /\ lastProcessedEpoch st' = frontierEpoch cfg icfg st
  /\ forall fuel' db',
       processIndexing fuel' cfg icfg db' st' = Returned (st', []).
Proof.
  intros Hlt He st'. split; [|split].
  - apply processIndexing_after_processEpoch; assumption.
  - reflexivity.
  - intros fuel' db'. apply processIndexing_idle.
    subst st'. rewrite frontierEpoch_set_lastProcessedEpoch. simpl. lia.
Qed.

(** X24. Without [EpochStats] for the frontier epoch, [processEpoch]
    dereferences a nil pointer, and so does [processIndexing]. *)
Lemma processIndexing_without_stats fuel cfg icfg db st :
  lastProcessedEpoch st < frontierEpoch cfg icfg st ->
  epochStats st !! frontierEpoch cfg icfg st = None ->
  processIndexing fuel cfg icfg db st = Panic.
Proof.
  intros Hlt Hs. unfold processIndexing, processEpoch.
  destruct (Z.ltb_spec (lastProcessedEpoch st) (frontierEpoch cfg icfg st));
    [|lia].
  rewrite Hs. reflexivity.
Qed.

Lemma bootstrap_lastProcessedEpoch cfg icfg currentEpoch st :
  lastProcessedEpoch (bootstrap cfg icfg currentEpoch st)
  = if epochProcessingDelay icfg <? currentEpoch
    then wrap64 (currentEpoch - epochProcessingDelay icfg)
    else lastProcessedEpoch st.
Proof.
  unfold bootstrap.
  destruct (epochProcessingDelay icfg <? currentEpoch);
    destruct (inMemoryEpochs icfg <? currentEpoch); reflexivity.
Qed.

Lemma bootstrap_lastHeadBlock cfg icfg currentEpoch st :
  lastHeadBlock (bootstrap cfg icfg currentEpoch st)
  = if inMemoryEpochs icfg <? currentEpoch
    then wrap64 (wrap64 ((currentEpoch - inMemoryEpochs icfg + 1)
                         * SlotsPerEpoch cfg) - 1)
    else lastHeadBlock st.
Proof.
  unfold bootstrap.
  destruct (epochProcessingDelay icfg <? currentEpoch);
    destruct (inMemoryEpochs icfg <? currentEpoch); reflexivity.
Qed.


(** ** Cache cleanup *)

Lemma cleanThreshold_range cfg icfg st : is_uint64 (cleanThreshold cfg icfg st).
Proof. apply wrap64_range. Qed.

(** The drop loop deletes exactly the keys from the old watermark up to the
    threshold, and stops with the watermark on the threshold. *)
Lemma dropLoop_spec fuel threshold st :
  is_uint64 (lowestCachedSlot st) -> is_uint64 threshold ->
  (Z.to_nat (threshold - lowestCachedSlot st) < fuel)%nat ->
  exists st',
    dropLoop fuel threshold st = Some st'
    /\ lowestCachedSlot st' = Z.max (lowestCachedSlot st) threshold
    /\ (forall slot, lowestCachedSlot st <= slot < threshold ->
                     cachedBlocks st' !! slot = None)
    /\ (forall slot, ~ lowestCachedSlot st <= slot < threshold ->
                     cachedBlocks st' !! slot = cachedBlocks st !! slot)
    /\ epochStats st' = epochStats st.
Proof.
  revert st.
  induction fuel as [|fuel IH]; intros st Hlow Hthr Hfuel; [lia|].
  simpl.
  destruct (Z.ltb_spec (lowestCachedSlot st) threshold) as [Hlt|Hge].
  - set (low := lowestCachedSlot st) in *.
    set (st1 := match cachedBlocks st !! low with
                | Some _ => set_cachedBlocks (delete low (cachedBlocks st)) st
                | None => st
                end).
    assert (H1 : forall slot, cachedBlocks st1 !! slot
                 = if decide (slot = low) then None
                   else cachedBlocks st !! slot).
    { intros slot. subst st1.
      destruct (cachedBlocks st !! low) eqn:Hl; simpl.
      - destruct (decide (slot = low)) as [->|Hne].
        + apply lookup_delete_eq.
        + apply lookup_delete_ne. congruence.
      - destruct (decide (slot = low)) as [->|Hne]; [exact Hl|reflexivity]. }
    assert (E1 : epochStats st1 = epochStats st).
    { subst st1. destruct (cachedBlocks st !! low); reflexivity. }
    assert (Hw : wrap64 (low + 1) = low + 1).
    { apply wrap64_small. unfold is_uint64 in *. lia. }
    rewrite Hw.
    destruct (IH (set_lowestCachedSlot (low + 1) st1))
      as (st' & Hrun & Hl' & Hdel & Hkeep & Hstats); simpl.
    { unfold is_uint64 in *. lia. }
    { exact Hthr. }
    { lia. }
    simpl in *. exists st'. split; [exact Hrun|].
    split; [lia|]. split; [|split].
    + intros slot Hs.
      destruct (decide (slot = low)) as [->|Hne].
      * destruct (decide (low + 1 <= low < threshold)); [lia|].
        rewrite Hkeep by lia. rewrite H1.
        destruct (decide (low = low)); [reflexivity|congruence].
      * apply Hdel. lia.
    + intros slot Hs. rewrite Hkeep by lia. rewrite H1.
      destruct (decide (slot = low)) as [->|Hne]; [lia|reflexivity].
    + congruence.
  - exists st. split; [reflexivity|]. split; [lia|].
    split; [intros; lia|]. split; reflexivity.
Qed.

(** C6, as the code has it. A cleanup pass returns once it is given more
    steps than there are slots between the watermark and the threshold
    [(cleanEpoch + 1) * SlotsPerEpoch]. Afterwards [lowestCachedSlot] is at
    or above the threshold; every cached key that was at or above the old
    watermark is at or above the threshold; [GetCachedBlocks] returns nil
    below [lowestCachedSlot], hence below the threshold. If the old
    watermark was below the threshold, the [EpochStats] of [cleanEpoch] is
    gone from the map, its assignments having been handed to
    [AddCachedEpochAssignments] if it was there, and no other epoch is
    touched; if it was not, the pass changes nothing and hands back
    nothing. *)
Theorem processCacheCleanup_effect fuel cfg icfg st :
  is_uint64 (lowestCachedSlot st) ->
  (Z.to_nat (cleanThreshold cfg icfg st - lowestCachedSlot st) < fuel)%nat ->
  exists st' events,
    processCacheCleanup fuel cfg icfg st = Some (st', events)
    /\ cleanThreshold cfg icfg st <= lowestCachedSlot st'
    /\ (forall slot, lowestCachedSlot st <= slot ->
                     is_Some (cachedBlocks st' !! slot) ->
                     cleanThreshold cfg icfg st <= slot)
    /\ (forall slot, slot < lowestCachedSlot st' ->
                     GetCachedBlocks st' slot = None)
    /\ (forall slot, slot < cleanThreshold cfg icfg st ->
                     GetCachedBlocks st' slot = None)
    /\ (lowestCachedSlot st < cleanThreshold cfg icfg st ->
        epochStats st' !! cleanEpochOf cfg icfg st = None
        /\ (forall epoch, epoch <> cleanEpochOf cfg icfg st ->
              epochStats st' !! epoch = epochStats st !! epoch)
        /\ events
           = match epochStats st !! cleanEpochOf cfg icfg st with
             | Some stats =>
                 [AddCachedEpochAssignments (cleanEpochOf cfg icfg st)
                    (Assignments stats)]
             | None => []
             end)
    /\ (cleanThreshold cfg icfg st <= lowestCachedSlot st ->
        st' = st /\ events = []).
Proof.
  intros Hlow Hfuel.
  assert (Hget : forall st' : @indexerState Body EpochAssignments,
            forall slot, slot < lowestCachedSlot st' ->
                         GetCachedBlocks st' slot = None).
  { intros st' slot Hs. unfold GetCachedBlocks.
    destruct (Z.ltb_spec slot (lowestCachedSlot st')); [reflexivity|lia]. }
  unfold processCacheCleanup.
  set (threshold := cleanThreshold cfg icfg st) in *.
  set (cleanEpoch := cleanEpochOf cfg icfg st) in *.
  destruct (Z.ltb_spec (lowestCachedSlot st) threshold) as [Hlt|Hge].
  - destruct (dropLoop_spec fuel threshold st Hlow
                (cleanThreshold_range cfg icfg st) Hfuel)
      as (st1 & Hrun & Hl1 & Hdel & Hkeep & Hstats).
    rewrite Hrun. cbv beta iota. rewrite Hstats.
    assert (Hkeys : forall slot, lowestCachedSlot st <= slot ->
              is_Some (cachedBlocks st1 !! slot) -> threshold <= slot).
    { intros slot Hs [blocks Hb].
      destruct (Z.le_gt_cases threshold slot) as [|Hbelow]; [assumption|].
      rewrite Hdel in Hb by lia. discriminate. }
    destruct (epochStats st !! cleanEpoch) as [stats|] eqn:Hs.
    + eexists _, _. split; [reflexivity|]. simpl.
      split; [lia|]. split; [exact Hkeys|].
      split; [apply (Hget (set_epochStats _ st1))|].
      split; [intros slot Hb;
              apply (Hget (set_epochStats _ st1)); simpl; lia|].
      split; [|intros; lia].
      intros _. split; [apply lookup_delete_eq|].
      split; [|reflexivity].
      intros epoch Hne. rewrite lookup_delete_ne by congruence.
      reflexivity.
    + eexists _, _. split; [reflexivity|].
      split; [lia|]. split; [exact Hkeys|].
      split; [apply Hget|].
      split; [intros slot Hb; apply Hget; lia|].
      split; [|intros; lia].
      intros _. rewrite Hstats. split; [exact Hs|].
      split; [reflexivity|reflexivity].
  - exists st, []. split; [reflexivity|].
    split; [exact Hge|]. split; [intros; lia|].
    split; [apply Hget|].
    split; [intros slot Hb; apply Hget; lia|].
    split; [intros; lia|]. intros _. split; reflexivity.
Qed.

(** ** The epoch target *)

Lemma find_app_first {A : Type} (f : A -> bool) (l1 l2 : list A) :
  List.find f (l1 ++ l2)
  = match List.find f l1 with
    | Some x => Some x
    | None => List.find f l2
    end.
Proof.
  induction l1 as [|x l1 IH]; simpl; [reflexivity|].
  destruct (f x); [reflexivity|exact IH].
Qed.

Lemma find_canonical_in_slot (slot : Z) blocks :
  List.find (fun sb : Z * @BlockInfo Body => negb (Orphaned (snd sb)))
    (map (pair slot) blocks)
  = option_map (pair slot) (firstCanonical blocks).
Proof.
  induction blocks as [|b rest IH]; simpl; [reflexivity|].
  destruct (Orphaned b); simpl; [exact IH|reflexivity].
Qed.

(** Unfolding the specification's walk by one slot. *)
Lemma spec_firstCanonical_step (m : gmap Z (list (@BlockInfo Body)))
    slot lastSlot :
  slot <= lastSlot ->
  spec_firstCanonical m slot lastSlot
  = match option_map (pair slot) (firstCanonical (default [] (m !! slot))) with
    | Some sb => Some sb
    | None => spec_firstCanonical m (slot + 1) lastSlot
    end.
Proof.
  intros Hle. unfold spec_firstCanonical, spec_epochBlocks.
  rewrite seqZ_cons by lia. simpl.
  rewrite find_app_first, find_canonical_in_slot.
  replace (Z.succ slot) with (slot + 1) by lia.
  replace (Z.pred (lastSlot - slot + 1)) with (lastSlot - (slot + 1) + 1)
    by lia.
  reflexivity.
Qed.

Lemma spec_firstCanonical_empty (m : gmap Z (list (@BlockInfo Body)))
    slot lastSlot :
  lastSlot < slot -> spec_firstCanonical m slot lastSlot = None.
Proof.
  intros Hlt. unfold spec_firstCanonical, spec_epochBlocks.
  rewrite seqZ_nil by lia. reflexivity.
Qed.

(** The block the specification picks is cached under the slot it is
    reported with. *)
Lemma spec_firstCanonical_cached (m : gmap Z (list (@BlockInfo Body)))
    firstSlot lastSlot slot b :
  spec_firstCanonical m firstSlot lastSlot = Some (slot, b) ->
  exists blocks, m !! slot = Some blocks /\ In b blocks /\ Orphaned b = false.
Proof.
  unfold spec_firstCanonical, spec_epochBlocks. intros H.
  apply find_some in H. destruct H as [Hin Hflag].
  apply in_flat_map in Hin. destruct Hin as (slot' & _ & Hin).
  apply in_map_iff in Hin. destruct Hin as (b' & [= -> ->] & Hb).
  destruct (m !! slot) as [blocks|]; simpl in Hb; [|contradiction].
  exists blocks. split; [reflexivity|]. split; [exact Hb|].
  simpl in Hflag. apply negb_true_iff in Hflag. exact Hflag.
Qed.

(** The walk of [processEpoch], started anywhere in the epoch, ends with
    the target of the first non-orphaned block from there on; the slot the
    block is compared by is the slot the walk found it under. *)
Lemma epochTargetLoop_spec fuel firstSlot lastSlot slot
    (m : gmap Z (list (@BlockInfo Body))) :
  0 <= slot -> lastSlot < uint64_max ->
  (Z.to_nat (lastSlot - slot + 1) < fuel)%nat ->
  epochTargetLoop fuel firstSlot lastSlot slot m
  = Some match spec_firstCanonical m slot lastSlot with
         | Some (s, b) => spec_targetOf firstSlot s b
         | None => None
         end.
Proof.
  revert slot.
  induction fuel as [|fuel IH]; intros slot Hs Hlast Hfuel; [lia|].
  simpl.
  destruct (Z.ltb_spec lastSlot slot) as [Hlt|Hle].
  { rewrite spec_firstCanonical_empty by lia. reflexivity. }
  rewrite spec_firstCanonical_step by lia.
  assert (Hw : wrap64 (slot + 1) = slot + 1).
  { apply wrap64_small.
    unfold is_uint64, uint64_max, uint64_modulus in *. lia. }
  rewrite Hw.
  destruct (m !! slot) as [blocks|]; simpl.
  - destruct (firstCanonical blocks) as [b|]; simpl; [reflexivity|].
    apply IH; lia.
  - apply IH; lia.
Qed.

Lemma firstBlockLoop_spec fuel lastSlot slot
    (m : gmap Z (list (@BlockInfo Body))) :
  0 <= slot -> lastSlot < uint64_max ->
  (Z.to_nat (lastSlot - slot + 1) < fuel)%nat ->
  firstBlockLoop fuel lastSlot slot m
  = Some (option_map snd (spec_firstCanonical m slot lastSlot)).
Proof.
  revert slot.
  induction fuel as [|fuel IH]; intros slot Hs Hlast Hfuel; [lia|].
  simpl.
  destruct (Z.ltb_spec lastSlot slot) as [Hlt|Hle].
  { rewrite spec_firstCanonical_empty by lia. reflexivity. }
  rewrite spec_firstCanonical_step by lia.
  assert (Hw : wrap64 (slot + 1) = slot + 1).
  { apply wrap64_small.
    unfold is_uint64, uint64_max, uint64_modulus in *. lia. }
  rewrite Hw.
  destruct (m !! slot) as [blocks|]; simpl.
  - destruct (firstCanonical blocks) as [b|]; simpl; [reflexivity|].
    apply IH; lia.
  - apply IH; lia.
Qed.

Lemma firstSlotOf_nonneg cfg epoch : 0 <= firstSlotOf cfg epoch.
Proof. apply (wrap64_range (epoch * SlotsPerEpoch cfg)). Qed.

(** The closing loop of [processEpoch] ends within one step per slot that
    is left, when the last slot is not the largest [uint64]. *)
Lemma orphanedLogLoop_ends fuel lastSlot slot :
  0 <= slot -> lastSlot < uint64_max ->
  (Z.to_nat (lastSlot - slot + 1) < fuel)%nat ->
  orphanedLogLoop fuel lastSlot slot = true.
Proof.
  revert slot.
  induction fuel as [|fuel IH]; intros slot Hs Hlast Hfuel; [lia|].
  simpl.
  destruct (Z.ltb_spec lastSlot slot) as [Hlt|Hle]; [reflexivity|].
  assert (Hw : wrap64 (slot + 1) = slot + 1).
  { apply wrap64_small.
    unfold is_uint64, uint64_max, uint64_modulus in *. lia. }
  rewrite Hw. apply IH; lia.
Qed.

(** When the last slot is the largest [uint64], [slot <= lastSlot] holds of
    every counter value and the closing loop has no end. *)
Lemma orphanedLogLoop_endless fuel slot :
  is_uint64 slot -> orphanedLogLoop fuel uint64_max slot = false.
Proof.
  revert slot. induction fuel as [|fuel IH]; intros slot Hs; [reflexivity|].
  simpl.
  destruct (Z.ltb_spec uint64_max slot) as [Hlt|Hle].
  { unfold is_uint64, uint64_max, uint64_modulus in *. lia. }
  apply IH. apply wrap64_range.
Qed.

(** The closing loop of [processEpoch] comes after the summary line: the
    runs that get to it are the ones that logged the summary. *)
Lemma reachesSummary_logged icfg db epoch target :
  reachesSummary icfg db = true
  <-> In (LogEpochSummary epoch)
         (aggregateAndPersist icfg db epoch target
          : list (@Event EpochAssignments)).
Proof.
  unfold reachesSummary, aggregateAndPersist, persistEpoch.
  destruct (writeDb icfg), (beginOk db), (synchronizerRunning icfg),
    (commitOk db); simpl; split; intros H;
    try discriminate; try reflexivity;
    intuition (try discriminate; try congruence).
Qed.

(** At the one epoch whose last slot is 2^64 - 1 the closing loop of
    [processEpoch] has no end: a run that aggregated and got to the final
    logging does not return. *)
Lemma processEpoch_last_epoch fuel cfg icfg db st epoch events :
  lastSlotOf cfg epoch = uint64_max ->
  reachesSummary icfg db = true ->
  processEpoch fuel cfg icfg db st epoch = Returned events ->
  epochTargetLoop fuel (firstSlotOf cfg epoch) (lastSlotOf cfg epoch)
    (firstSlotOf cfg epoch) (cachedBlocks st) = Some None
  /\ events = [LogNoTarget epoch].
Proof.
  intros Hlast Hreach. unfold processEpoch.
  destruct (epochStats st !! epoch) as [stats|]; [|discriminate].
  destruct (ValidatorsMutex (Validators stats)); [|discriminate].
  destruct (epochTargetLoop _ _ _ _ _) as [[target|]|]; [| |discriminate].
  - cbv zeta. rewrite Hreach, Hlast.
    rewrite orphanedLogLoop_endless by apply wrap64_range.
    discriminate.
  - intros [= <-]. split; reflexivity.
Qed.

(** C5. For an epoch whose last slot is below 2^64 - 1 (every epoch but
    the last one a [uint64] slot can belong to), and given more steps than
    the epoch has slots:
    - [processEpoch], once the epoch's stats are there and the validators
      latch is free, returns. The value it holds in [epochTarget] is the one
      the specification describes: walking [firstSlot..lastSlot], the first
      non-orphaned block decides, by its root if it was found under
      [firstSlot] and by its parent root otherwise. When the epoch has no
      non-orphaned block the function logs the error and returns without
      aggregating; the same happens when the deciding root is nil;
      otherwise votes are aggregated against that target.
    - [BuildLiveEpoch], when the epoch's stats are there, returns nil when
      the epoch has no non-orphaned block and otherwise aggregates against
      the same block's root or parent root, chosen by the slot in the
      block's header; on a cache where every block sits under the slot of
      its header this is the target of [processEpoch]. *)
Theorem epoch_target_first_canonical fuel cfg icfg db st epoch stats :
  lastSlotOf cfg epoch < uint64_max ->
  (Z.to_nat (lastSlotOf cfg epoch - firstSlotOf cfg epoch + 1) < fuel)%nat ->
  epochStats st !! epoch = Some stats ->
  let firstSlot := firstSlotOf cfg epoch in
  let lastSlot := lastSlotOf cfg epoch in
  let found := spec_firstCanonical (cachedBlocks st) firstSlot lastSlot in
  epochTargetLoop fuel firstSlot lastSlot firstSlot (cachedBlocks st)
  = Some (spec_epochTarget (cachedBlocks st) firstSlot lastSlot)
  /\ (ValidatorsMutex (Validators stats) = Unlocked ->
      processEpoch fuel cfg icfg db st epoch
      = Returned
          match spec_epochTarget (cachedBlocks st) firstSlot lastSlot with
          | Some target => aggregateAndPersist icfg db epoch (Some target)
          | None => [LogNoTarget epoch]
          end)
  /\ (found = None ->
      spec_epochTarget (cachedBlocks st) firstSlot lastSlot = None)
  /\ BuildLiveEpoch fuel cfg st epoch
     = Returned
         match found with
         | Some (slot, b) => Some (spec_targetOf firstSlot (Slot (Header b)) b)
         | None => None
         end
  /\ (slotsConsistent st ->
      BuildLiveEpoch fuel cfg st epoch
      = Returned
          match found with
          | Some _ =>
              Some (spec_epochTarget (cachedBlocks st) firstSlot lastSlot)
          | None => None
          end).
Proof.
  intros Hlast Hfuel Hstats firstSlot lastSlot found.
  pose proof (firstSlotOf_nonneg cfg epoch) as Hfirst.
  assert (Hloop :
    epochTargetLoop fuel firstSlot lastSlot firstSlot (cachedBlocks st)
    = Some (spec_epochTarget (cachedBlocks st) firstSlot lastSlot)).
  { apply epochTargetLoop_spec; assumption. }
  assert (Hlive : BuildLiveEpoch fuel cfg st epoch
     = Returned
         match found with
         | Some (slot, b) => Some (spec_targetOf firstSlot (Slot (Header b)) b)
         | None => None
         end).
  { unfold BuildLiveEpoch. rewrite Hstats.
    fold firstSlot lastSlot.
    rewrite firstBlockLoop_spec by assumption.
    fold found. destruct found as [[slot b]|]; reflexivity. }
  split; [exact Hloop|]. split; [|split; [|split]].
  - intros Hlatch. unfold processEpoch. rewrite Hstats, Hlatch.
    fold firstSlot lastSlot. rewrite Hloop.
    rewrite orphanedLogLoop_ends by assumption.
    destruct (spec_epochTarget (cachedBlocks st) firstSlot lastSlot);
      [|reflexivity].
    simpl. destruct (reachesSummary icfg db); reflexivity.
  - intros Hnone. unfold spec_epochTarget. fold found. rewrite Hnone.
    reflexivity.
  - exact Hlive.
  - intros Hcons. rewrite Hlive. unfold spec_epochTarget. fold found.
    destruct found as [[slot b]|] eqn:Hfound; [|reflexivity].
    destruct (spec_firstCanonical_cached _ _ _ _ _ Hfound)
      as (blocks & Hm & Hin & _).
    rewrite (Hcons slot blocks b Hm Hin). reflexivity.
Qed.

End IndexerFacts.

(** * Further properties of the indexer *)

Section IndexerMore.

Context {Body : Type} {EpochAssignments : Type}.

Implicit Types (st : @indexerState Body EpochAssignments).
Implicit Types (blocks : list (@BlockInfo Body)).

(** ** What a call of [processHeadBlock] leaves behind *)

Lemma reconcileHead_fields fuel st slot header idx r :
  reconcileHead fuel st slot header idx = Some r ->
  headersOf (cachedBlocks (hrState r)) = headersOf (cachedBlocks st)
  /\ epochStats (hrState r) = epochStats st
  /\ lastProcessedEpoch (hrState r) = lastProcessedEpoch st
  /\ lastHeadBlock (hrState r) = slot
  /\ lastHeadRoot (hrState r) = Root header
  /\ hrBlock r = Some (mkRef slot idx header)
  /\ lowestCachedSlot (hrState r)
     = if (lowestCachedSlot st =? 0) || (slot <? lowestCachedSlot st)
       then slot else lowestCachedSlot st.
Proof.
  unfold reconcileHead.
  set (st2 := if (lowestCachedSlot st =? 0) || (slot <? lowestCachedSlot st)
              then set_lowestCachedSlot slot st else st).
  assert (H2 : sameSkeleton st2 (set_lowestCachedSlot (lowestCachedSlot st2) st)).
  { subst st2. destruct (_ || _); unfold sameSkeleton; simpl; tauto. }
  assert (Hl : lowestCachedSlot st2
               = if (lowestCachedSlot st =? 0) || (slot <? lowestCachedSlot st)
                 then slot else lowestCachedSlot st).
  { subst st2. destruct (_ || _); reflexivity. }
  assert (Hdone : forall st' resync,
    sameSkeleton st2 st' ->
    Some (mkHeadResult (set_head slot (Root header) st')
            (Some (mkRef slot idx header)) resync) = Some r ->
    headersOf (cachedBlocks (hrState r)) = headersOf (cachedBlocks st)
    /\ epochStats (hrState r) = epochStats st
    /\ lastProcessedEpoch (hrState r) = lastProcessedEpoch st
    /\ lastHeadBlock (hrState r) = slot
    /\ lastHeadRoot (hrState r) = Root header
    /\ hrBlock r = Some (mkRef slot idx header)
    /\ lowestCachedSlot (hrState r)
       = if (lowestCachedSlot st =? 0) || (slot <? lowestCachedSlot st)
         then slot else lowestCachedSlot st).
  { intros st' resync Hs [= <-]. simpl.
    destruct Hs as (K1 & K2 & _ & _ & K5 & K6).
    destruct H2 as (L1 & _ & _ & _ & L5 & L6). simpl in *.
    repeat split; congruence. }
  destruct (negb (is_nil (lastHeadRoot st2)) && _).
  - destruct (reorgBaseSearch fuel (Root header) (ParentRoot header) slot st2)
      as [[st3 [base|]]|] eqn:Hs; [| |discriminate].
    + destruct (fixOrphaned fuel fuel (refSlot base) base false st3)
        as [[st4 resync]|] eqn:Hf; [|discriminate].
      apply Hdone.
      eapply sameSkeleton_trans;
        [eapply reorgBaseSearch_skeleton, Hs|eapply fixOrphaned_skeleton, Hf].
    + apply Hdone. eapply reorgBaseSearch_skeleton, Hs.
  - apply Hdone, sameSkeleton_refl.
Qed.

(** The two ways [processHeadBlock] can return: the block was a duplicate
    and nothing was stored, or it was stored at the end of the list under
    its slot. *)
Lemma processHeadBlock_cases fuel st slot header (body : Body) r :
  processHeadBlock fuel st slot header body = Some r ->
  (r = mkHeadResult st None false
   /\ exists blocks, cachedBlocks st !! slot = Some blocks
                     /\ is_Some (findDuplicate (Root header) 0 blocks))
  \/ (let old := default [] (cachedBlocks st !! slot) in
      (forall blocks, cachedBlocks st !! slot = Some blocks ->
                      findDuplicate (Root header) 0 blocks = None)
      /\ reconcileHead fuel
           (set_cachedBlocks
              (<[slot := old ++ [mkBlockInfo header body false]]>
                 (cachedBlocks st)) st)
           slot header (length old) = Some r).
Proof.
  unfold processHeadBlock.
  destruct (cachedBlocks st !! slot) as [blocks|] eqn:Hm.
  - destruct (findDuplicate (Root header) 0 blocks) as [i|] eqn:Hd.
    + intros [= <-]. left. split; [reflexivity|].
      exists blocks. rewrite Hd. eauto.
    + intros Hr. right. simpl. split; [|exact Hr].
      intros blocks0 [= <-]. exact Hd.
  - intros Hr. right. simpl. split; [discriminate|exact Hr].
Qed.

(** X1. [processHeadBlock] never removes, replaces or reorders a cached
    block, and touches neither the epoch stats nor [lastProcessedEpoch]. A
    call that finds a duplicate returns the state as it was; a call that
    stores its block appends the header to the headers under its slot,
    leaves the headers under every other slot as they were, and moves the
    head to the new block. *)
Theorem processHeadBlock_keeps_cache fuel st slot header (body : Body) r :
  processHeadBlock fuel st slot header body = Some r ->
  epochStats (hrState r) = epochStats st
  /\ lastProcessedEpoch (hrState r) = lastProcessedEpoch st
  /\ match hrBlock r with
     | None => hrState r = st
     | Some ref =>
         let old := default [] (headersOf (cachedBlocks st) !! slot) in
         ref = mkRef slot (length old) header
         /\ headersOf (cachedBlocks (hrState r)) !! slot
            = Some (old ++ [header])
         /\ (forall other, other <> slot ->
               headersOf (cachedBlocks (hrState r)) !! other
               = headersOf (cachedBlocks st) !! other)
         /\ lastHeadBlock (hrState r) = slot
         /\ lastHeadRoot (hrState r) = Root header
     end.
Proof.
  intros Hr.
  destruct (processHeadBlock_cases _ _ _ _ _ _ Hr) as [[-> _]|[_ Hrec]].
  { simpl. tauto. }
  simpl in Hrec.
  destruct (reconcileHead_fields _ _ _ _ _ _ Hrec)
    as (Hh & Hs & Hp & Hb & Hroot & Href & _).
  simpl in Hh, Hs, Hp.
  split; [exact Hs|]. split; [exact Hp|]. rewrite Href.
  assert (Hold : default [] (headersOf (cachedBlocks st) !! slot)
                 = map Header (default [] (cachedBlocks st !! slot))).
  { unfold headersOf. rewrite lookup_fmap.
    destruct (cachedBlocks st !! slot); reflexivity. }
  cbv zeta. rewrite Hold, length_map.
  split; [reflexivity|].
  rewrite Hh. unfold headersOf. rewrite fmap_insert.
  split; [|split; [|split; [exact Hb|exact Hroot]]].
  - rewrite lookup_insert_eq, map_app. reflexivity.
  - intros other Hne. rewrite lookup_insert_ne by congruence. reflexivity.
Qed.

(** X2. A block that [processHeadBlock] stores can be read back: after the
    call [lowestCachedSlot] is at or below the block's slot, so
    [GetCachedBlocks] returns the list under that slot, one entry longer
    than before, and the entry at the returned index carries the header that
    was handed in. *)
Theorem processHeadBlock_then_GetCachedBlocks fuel st slot header
    (body : Body) r ref :
  processHeadBlock fuel st slot header body = Some r ->
  hrBlock r = Some ref ->
  lowestCachedSlot (hrState r) <= slot
  /\ exists blocks b,
       GetCachedBlocks (hrState r) slot = Some blocks
       /\ blocks !! refIndex ref = Some b
       /\ Header b = header
       /\ length blocks
          = S (length (default [] (cachedBlocks st !! slot))).
Proof.
  intros Hr Href.
  destruct (processHeadBlock_cases _ _ _ _ _ _ Hr) as [[-> _]|[_ Hrec]];
    [discriminate|].
  simpl in Hrec.
  destruct (reconcileHead_fields _ _ _ _ _ _ Hrec)
    as (Hh & _ & _ & _ & _ & Href' & Hlow).
  simpl in Hh, Hlow.
  rewrite Href' in Href. injection Href as <-. simpl.
  assert (Hle : lowestCachedSlot (hrState r) <= slot).
  { rewrite Hlow.
    destruct (Z.eqb_spec (lowestCachedSlot st) 0);
      destruct (Z.ltb_spec slot (lowestCachedSlot st)); simpl; lia. }
  split; [exact Hle|].
  set (old := default [] (cachedBlocks st !! slot)) in *.
  destruct (headersOf_lookup _ _ slot
              (old ++ [mkBlockInfo header body false]) Hh)
    as (blocks & Hm & Hmap).
  { apply lookup_insert_eq. }
  assert (Hlen : length blocks = S (length old)).
  { rewrite <- (length_map Header blocks), Hmap, length_map, length_app.
    simpl. lia. }
  assert (Hi : map Header blocks !! length old = Some header).
  { rewrite Hmap, map_app, lookup_app_r by (rewrite length_map; lia).
    rewrite length_map, Nat.sub_diag. reflexivity. }
  rewrite list_lookup_fmap in Hi.
  destruct (blocks !! length old) as [b|] eqn:Hb; [|discriminate].
  exists blocks, b. unfold GetCachedBlocks.
  destruct (Z.ltb_spec slot (lowestCachedSlot (hrState r))); [lia|].
  split; [exact Hm|]. split; [exact Hb|].
  split; [simpl in Hi; congruence|exact Hlen].
Qed.

(** X3. A block that extends the head (its parent root is [lastHeadRoot],
    or there is no head yet) is stored without any reorg pass: the call
    returns without using fuel, does not raise "resync needed", and the
    cache afterwards is the old cache with the new entry appended under its
    slot, every [Orphaned] flag as it was. *)
Theorem processHeadBlock_extends_head fuel st slot header (body : Body) :
  is_nil (lastHeadRoot st) = true
  \/ bytes_Equal (lastHeadRoot st) (ParentRoot header) = true ->
  (forall blocks, cachedBlocks st !! slot = Some blocks ->
                  findDuplicate (Root header) 0 blocks = None) ->
  exists r,
    processHeadBlock fuel st slot header body = Some r
    /\ hrResync r = false
    /\ cachedBlocks (hrState r)
       = <[slot := default [] (cachedBlocks st !! slot)
                   ++ [mkBlockInfo header body false]]> (cachedBlocks st)
    /\ lastHeadRoot (hrState r) = Root header.
Proof.
  intros Hhead Hnew.
  assert (Hrec : forall (stored : @indexerState Body EpochAssignments) idx,
    lastHeadRoot stored = lastHeadRoot st ->
    exists r,
      reconcileHead fuel stored slot header idx = Some r
      /\ hrResync r = false
      /\ cachedBlocks (hrState r) = cachedBlocks stored
      /\ lastHeadRoot (hrState r) = Root header).
  { intros stored idx Hroot. unfold reconcileHead.
    set (st2 := if _ || _ then set_lowestCachedSlot slot stored else stored).
    assert (H2 : lastHeadRoot st2 = lastHeadRoot st
                 /\ cachedBlocks st2 = cachedBlocks stored).
    { subst st2. destruct (_ || _); simpl; tauto. }
    destruct H2 as [H2 H2'].
    assert (Hno : negb (is_nil (lastHeadRoot st2))
                  && negb (bytes_Equal (lastHeadRoot st2) (ParentRoot header))
                  = false).
    { rewrite H2. destruct Hhead as [-> | ->]; simpl;
        [reflexivity|apply andb_false_r]. }
    rewrite Hno. eexists. split; [reflexivity|]. simpl. tauto. }
  unfold processHeadBlock.
  destruct (cachedBlocks st !! slot) as [blocks|] eqn:Hm; simpl.
  - rewrite (Hnew blocks eq_refl). apply Hrec. reflexivity.
  - apply Hrec. reflexivity.
Qed.

(** ** What the reorg-base search marks *)

(** One slot of the search: an entry with the head's root or the parent
    root is left as it is, every other entry comes out orphaned; headers and
    bodies stay. *)
Lemma searchSlot_entry root parent bidx blocks base i b' :
  fst (searchSlot root parent bidx blocks base) !! i = Some b' ->
  exists b,
    blocks !! i = Some b /\ Header b' = Header b /\ Block b' = Block b
    /\ (bytes_Equal (blockRoot b) root = true
        \/ bytes_Equal (blockRoot b) parent = true -> b' = b)
    /\ (bytes_Equal (blockRoot b) root = false ->
        bytes_Equal (blockRoot b) parent = false -> Orphaned b' = true).
Proof.
  revert bidx base i.
  induction blocks as [|b0 rest IH]; intros bidx base i; simpl;
    [discriminate|].
  destruct (bytes_Equal (blockRoot b0) root) eqn:Er.
  - pose proof (fun j => IH (S bidx) base j) as IH'.
    destruct (searchSlot root parent (S bidx) rest base) as [rest' base'].
    destruct i as [|i]; simpl in *.
    + intros [= <-]. exists b0. repeat split; congruence.
    + apply IH'.
  - destruct (bytes_Equal (blockRoot b0) parent) eqn:Ep.
    + pose proof (fun j => IH (S bidx) (Some (bidx, b0)) j) as IH'.
      destruct (searchSlot root parent (S bidx) rest (Some (bidx, b0)))
        as [rest' base'].
      destruct i as [|i]; simpl in *.
      * intros [= <-]. exists b0. repeat split; congruence.
      * apply IH'.
    + pose proof (fun j => IH (S bidx) base j) as IH'.
      destruct (searchSlot root parent (S bidx) rest base) as [rest' base'].
      destruct i as [|i]; simpl in *.
      * intros [= <-]. exists b0. simpl.
        split; [reflexivity|]. split; [reflexivity|]. split; [reflexivity|].
        split; [intros [H|H]; congruence|intros _ _; reflexivity].
      * apply IH'.
Qed.

(** The base a slot yields is one of its entries, with the parent root and
    not the head's root. *)
Lemma searchSlot_base root parent bidx blocks base j b :
  snd (searchSlot root parent bidx blocks base) = Some (j, b) ->
  base = Some (j, b)
  \/ ((bidx <= j)%nat /\ blocks !! (j - bidx)%nat = Some b
      /\ bytes_Equal (blockRoot b) parent = true
      /\ bytes_Equal (blockRoot b) root = false).
Proof.
  revert bidx base.
  induction blocks as [|b0 rest IH]; intros bidx base; simpl; [tauto|].
  destruct (bytes_Equal (blockRoot b0) root) eqn:Er.
  - specialize (IH (S bidx) base).
    destruct (searchSlot root parent (S bidx) rest base) as [rest' base'].
    simpl in *. intros H. destruct (IH H) as [-> | (Hle & Hl & Hp & Hr)];
      [tauto|].
    right. split; [lia|].
    replace (j - bidx)%nat with (S (j - S bidx)) by lia. simpl. tauto.
  - destruct (bytes_Equal (blockRoot b0) parent) eqn:Ep.
    + specialize (IH (S bidx) (Some (bidx, b0))).
      destruct (searchSlot root parent (S bidx) rest (Some (bidx, b0)))
        as [rest' base'].
      simpl in *. intros H.
      destruct (IH H) as [[= <- <-] | (Hle & Hl & Hp & Hr)].
      * right. rewrite Nat.sub_diag. simpl.
        split; [lia|]. split; [reflexivity|]. split; assumption.
      * right. split; [lia|].
        replace (j - bidx)%nat with (S (j - S bidx)) by lia. simpl. tauto.
    + specialize (IH (S bidx) base).
      destruct (searchSlot root parent (S bidx) rest base) as [rest' base'].
      simpl in *. intros H. destruct (IH H) as [-> | (Hle & Hl & Hp & Hr)];
        [tauto|].
      right. split; [lia|].
      replace (j - bidx)%nat with (S (j - S bidx)) by lia. simpl. tauto.
Qed.

(** Once a base is recorded, the rest of the slot cannot lose it. *)
Lemma searchSlot_base_stays root parent bidx blocks c :
  is_Some (snd (searchSlot root parent bidx blocks (Some c))).
Proof.
  revert bidx c.
  induction blocks as [|b0 rest IH]; intros bidx c; simpl; [eauto|].
  destruct (bytes_Equal (blockRoot b0) root).
  - specialize (IH (S bidx) c).
    destruct (searchSlot root parent (S bidx) rest (Some c)). exact IH.
  - destruct (bytes_Equal (blockRoot b0) parent).
    + specialize (IH (S bidx) (bidx, b0)).
      destruct (searchSlot root parent (S bidx) rest (Some (bidx, b0))).
      exact IH.
    + specialize (IH (S bidx) c).
      destruct (searchSlot root parent (S bidx) rest (Some c)). exact IH.
Qed.

(** A slot without base holds no entry that could be one. *)
Lemma searchSlot_none root parent bidx blocks b :
  snd (searchSlot root parent bidx blocks None) = None ->
  In b blocks ->
  bytes_Equal (blockRoot b) root = true
  \/ bytes_Equal (blockRoot b) parent = false.
Proof.
  revert bidx.
  induction blocks as [|b0 rest IH]; intros bidx; simpl; [tauto|].
  destruct (bytes_Equal (blockRoot b0) root) eqn:Er.
  - specialize (IH (S bidx)).
    destruct (searchSlot root parent (S bidx) rest None) as [rest' base'].
    simpl in *. intros H [<- | Hin]; [tauto|apply IH; assumption].
  - destruct (bytes_Equal (blockRoot b0) parent) eqn:Ep.
    + pose proof (searchSlot_base_stays root parent (S bidx) rest (bidx, b0))
        as [x Hx].
      destruct (searchSlot root parent (S bidx) rest (Some (bidx, b0)))
        as [rest' base'].
      simpl in *. congruence.
    + specialize (IH (S bidx)).
      destruct (searchSlot root parent (S bidx) rest None) as [rest' base'].
      simpl in *. intros H [<- | Hin]; [tauto|apply IH; assumption].
Qed.

Lemma searchSlot_member root parent bidx blocks base b' :
  In b' (fst (searchSlot root parent bidx blocks base)) ->
  exists b,
    In b blocks /\ Header b' = Header b
    /\ (bytes_Equal (blockRoot b) root = false ->
        bytes_Equal (blockRoot b) parent = false -> Orphaned b' = true).
Proof.
  intros Hin. apply list_elem_of_In, list_elem_of_lookup in Hin.
  destruct Hin as [i Hi].
  destruct (searchSlot_entry _ _ _ _ _ _ _ Hi) as (b & Hb & Hh & _ & _ & Ho).
  exists b. split; [|tauto].
  apply list_elem_of_In, list_elem_of_lookup. eauto.
Qed.

Lemma searchSlot_base_entry root parent blocks j b :
  snd (searchSlot root parent 0 blocks None) = Some (j, b) ->
  blocks !! j = Some b
  /\ fst (searchSlot root parent 0 blocks None) !! j = Some b
  /\ bytes_Equal (blockRoot b) parent = true
  /\ bytes_Equal (blockRoot b) root = false.
Proof.
  intros Hb.
  destruct (searchSlot_base _ _ _ _ _ _ _ Hb) as [|(_ & Hl & Hp & Hr)];
    [discriminate|].
  rewrite Nat.sub_0_r in Hl.
  split; [exact Hl|]. split; [|tauto].
  pose proof (searchSlot_headers root parent 0 blocks None) as Hh.
  assert (Hj : map Header (fst (searchSlot root parent 0 blocks None)) !! j
               = Some (Header b)).
  { rewrite Hh, list_lookup_fmap, Hl. reflexivity. }
  rewrite list_lookup_fmap in Hj.
  destruct (fst (searchSlot root parent 0 blocks None) !! j) as [b'|] eqn:Hb';
    [|discriminate].
  destruct (searchSlot_entry _ _ _ _ _ _ _ Hb') as (b0 & H0 & _ & _ & Hsame & _).
  rewrite Hl in H0. injection H0 as <-.
  rewrite (Hsame (or_intror Hp)). reflexivity.
Qed.

(** The invariant of the reorg-base search, by induction on the slots it
    walks. *)
Lemma reorgBaseSearch_effect fuel root parent sidx st st' base :
  1 <= lowestCachedSlot st -> is_uint64 sidx ->
  reorgBaseSearch fuel root parent sidx st = Some (st', base) ->
  let stop := match base with
              | Some p => refSlot p
              | None => lowestCachedSlot st
              end in
  (forall s blocks' b',
     stop <= s <= sidx -> cachedBlocks st' !! s = Some blocks' ->
     In b' blocks' ->
     bytes_Equal (blockRoot b') root = false ->
     bytes_Equal (blockRoot b') parent = false -> Orphaned b' = true)
  /\ (forall s blocks' b',
        stop < s <= sidx -> cachedBlocks st' !! s = Some blocks' ->
        In b' blocks' ->
        bytes_Equal (blockRoot b') parent = true ->
        bytes_Equal (blockRoot b') root = true)
  /\ (forall s, s < stop \/ sidx < s ->
                cachedBlocks st' !! s = cachedBlocks st !! s)
  /\ match base with
     | Some p =>
         lowestCachedSlot st <= refSlot p <= sidx
         /\ bytes_Equal (Root (refHeader p)) parent = true
         /\ bytes_Equal (Root (refHeader p)) root = false
         /\ exists blocks0 blocks b,
              cachedBlocks st !! refSlot p = Some blocks0
              /\ blocks0 !! refIndex p = Some b
              /\ cachedBlocks st' !! refSlot p = Some blocks
              /\ blocks !! refIndex p = Some b
              /\ Header b = refHeader p
     | None => True
     end.
Proof.
  intros Hlow. revert sidx st st' base Hlow.
  induction fuel as [|fuel IH]; intros sidx st st' base Hlow Hs;
    simpl; [discriminate|].
  destruct (Z.ltb_spec sidx (lowestCachedSlot st)) as [Hlt|Hge].
  { intros [= <- <-]. simpl.
    split; [intros; lia|]. split; [intros; lia|]. split; [reflexivity|exact I]. }
  assert (Hw : wrap64 (sidx - 1) = sidx - 1).
  { apply wrap64_small. unfold is_uint64 in *. lia. }
  assert (Hs' : is_uint64 (sidx - 1)) by (unfold is_uint64 in *; lia).
  rewrite Hw.
  destruct (cachedBlocks st !! sidx) as [blocks|] eqn:Hm.
  - pose proof (searchSlot_member root parent 0 blocks None) as Hmem.
    pose proof (searchSlot_none root parent 0 blocks) as Hnone.
    pose proof (searchSlot_base_entry root parent blocks) as Hbase.
    destruct (searchSlot root parent 0 blocks None) as [blocks1 base1].
    simpl in Hmem, Hnone, Hbase.
    set (st1 := set_cachedBlocks (<[sidx := blocks1]> (cachedBlocks st)) st).
    assert (Hmark : forall b', In b' blocks1 ->
              bytes_Equal (blockRoot b') root = false ->
              bytes_Equal (blockRoot b') parent = false -> Orphaned b' = true).
    { intros b' Hin Hr Hp.
      destruct (Hmem b' Hin) as (b & _ & Hh & Ho).
      unfold blockRoot in *. rewrite Hh in Hr, Hp. apply Ho; assumption. }
    destruct base1 as [[bidx b]|].
    + intros [= <- <-]. simpl.
      destruct (Hbase bidx b eq_refl) as (H0 & H1 & Hp & Hr).
      split; [|split; [|split; [|split; [|split; [|split]]]]].
      * intros s blocks' b' Hrange Hl. assert (s = sidx) as -> by lia.
        rewrite lookup_insert_eq in Hl. injection Hl as <-. apply Hmark.
      * intros; lia.
      * intros s Hout. apply lookup_insert_ne. lia.
      * lia.
      * exact Hp.
      * exact Hr.
      * exists blocks, blocks1, b. rewrite lookup_insert_eq. tauto.
    + intros Hrec.
      destruct (IH (sidx - 1) st1 st' base Hlow Hs' Hrec)
        as (I1 & I2 & I3 & I4).
      simpl in I1, I2, I3, I4.
      assert (Hhere : cachedBlocks st' !! sidx = Some blocks1).
      { rewrite I3 by (destruct base; lia). apply lookup_insert_eq. }
      assert (Hstop : match base with
                      | Some p => refSlot p
                      | None => lowestCachedSlot st
                      end <= sidx - 1 \/ base = None).
      { destruct base as [p|]; [left; lia|right; reflexivity]. }
      split; [|split; [|split]].
      * intros s blocks' b' Hrange Hl.
        destruct (decide (s = sidx)) as [->|Hne].
        -- rewrite Hhere in Hl. injection Hl as <-. apply Hmark.
        -- apply (I1 s blocks' b'); [lia|exact Hl].
      * intros s blocks' b' Hrange Hl Hin Hp.
        destruct (decide (s = sidx)) as [->|Hne].
        -- rewrite Hhere in Hl. injection Hl as <-.
           destruct (Hmem b' Hin) as (b & Hb & Hh & _).
           unfold blockRoot in *. rewrite Hh in *.
           destruct (Hnone b eq_refl Hb) as [Hr|Hr]; [exact Hr|congruence].
        -- apply (I2 s blocks' b'); [lia|exact Hl|exact Hin|exact Hp].
      * intros s Hout.
        assert (Hne : sidx <> s /\ (s < match base with
                                        | Some p => refSlot p
                                        | None => lowestCachedSlot st
                                        end \/ sidx - 1 < s)).
        { destruct base as [p|]; [destruct I4 as (Hr1 & _)|]; lia. }
        rewrite I3 by tauto. simpl. apply lookup_insert_ne. tauto.
      * destruct base as [p|]; [|exact I].
        destruct I4 as (Hr1 & Hr2 & Hr3 & blocks0 & blocksp & bp & K1 & K2 & K).
        split; [lia|]. split; [exact Hr2|]. split; [exact Hr3|].
        exists blocks0, blocksp, bp. split; [|tauto].
        simpl in K1. rewrite lookup_insert_ne in K1 by lia. exact K1.
  - intros Hrec.
    destruct (IH (sidx - 1) st st' base Hlow Hs' Hrec) as (I1 & I2 & I3 & I4).
    simpl in I1, I2, I3.
    assert (Hhere : cachedBlocks st' !! sidx = None).
    { rewrite I3 by (destruct base; lia). exact Hm. }
    split; [|split; [|split]].
    + intros s blocks' b' Hrange Hl.
      destruct (decide (s = sidx)) as [->|Hne]; [congruence|].
      apply (I1 s blocks' b'); [lia|exact Hl].
    + intros s blocks' b' Hrange Hl.
      destruct (decide (s = sidx)) as [->|Hne]; [congruence|].
      apply (I2 s blocks' b'); [lia|exact Hl].
    + intros s Hout. apply I3. destruct base; lia.
    + destruct base as [p|]; [|exact I].
      destruct I4 as (Hr1 & Hrest). split; [lia|exact Hrest].
Qed.

(** X4. What the reorg-base search leaves behind, with a watermark of at
    least 1. The search stops at the highest slot, from the start slot
    down, that holds a block with the new head's parent root (and another
    root than the head's); without such a block it stops at the watermark.
    From where it stopped up to the start slot, every cached block is
    orphaned unless its root is the head's or the parent's, and above the
    stop no block other than the head itself has the parent's root. Slots
    outside that range are not touched, and the base is returned with the
    flag it had. *)
Theorem reorgBaseSearch_marks fuel root parent sidx st st' base :
  1 <= lowestCachedSlot st -> is_uint64 sidx ->
  reorgBaseSearch fuel root parent sidx st = Some (st', base) ->
  let stop := match base with
              | Some p => refSlot p
              | None => lowestCachedSlot st
              end in
  (forall s blocks' b',
     stop <= s <= sidx -> cachedBlocks st' !! s = Some blocks' ->
     In b' blocks' ->
     bytes_Equal (blockRoot b') root = false ->
     bytes_Equal (blockRoot b') parent = false -> Orphaned b' = true)
  /\ (forall s blocks' b',
        stop < s <= sidx -> cachedBlocks st' !! s = Some blocks' ->
        In b' blocks' ->
        bytes_Equal (blockRoot b') parent = true ->
        bytes_Equal (blockRoot b') root = true)
  /\ (forall s, s < stop \/ sidx < s ->
                cachedBlocks st' !! s = cachedBlocks st !! s)
  /\ match base with
     | Some p =>
         lowestCachedSlot st <= refSlot p <= sidx
         /\ bytes_Equal (Root (refHeader p)) parent = true
         /\ bytes_Equal (Root (refHeader p)) root = false
         /\ exists blocks0 blocks b,
              cachedBlocks st !! refSlot p = Some blocks0
              /\ blocks0 !! refIndex p = Some b
              /\ cachedBlocks st' !! refSlot p = Some blocks
              /\ blocks !! refIndex p = Some b
              /\ Header b = refHeader p
     | None => True
     end.
Proof.
  intros Hlow Hs Hrun.
  exact (reorgBaseSearch_effect _ _ _ _ _ _ _ Hlow Hs Hrun).
Qed.

(** ** The new head after a reorg *)

Lemma searchSlot_head_entry root parent bidx blocks base i b :
  blocks !! i = Some b -> bytes_Equal (blockRoot b) root = true ->
  fst (searchSlot root parent bidx blocks base) !! i = Some b.
Proof.
  intros Hi Hr.
  pose proof (searchSlot_headers root parent bidx blocks base) as Hh.
  assert (Hj : map Header (fst (searchSlot root parent bidx blocks base)) !! i
               = Some (Header b)).
  { rewrite Hh, list_lookup_fmap, Hi. reflexivity. }
  rewrite list_lookup_fmap in Hj.
  destruct (fst (searchSlot root parent bidx blocks base) !! i) as [b'|] eqn:Hb';
    [|discriminate].
  destruct (searchSlot_entry _ _ _ _ _ _ _ Hb') as (b0 & H0 & _ & _ & Hsame & _).
  rewrite Hi in H0. injection H0 as <-.
  rewrite (Hsame (or_introl Hr)). reflexivity.
Qed.

(** The search never touches an entry that carries the head's root. *)
Lemma reorgBaseSearch_head_untouched fuel root parent sidx st st' base
    s blocks i b :
  reorgBaseSearch fuel root parent sidx st = Some (st', base) ->
  cachedBlocks st !! s = Some blocks -> blocks !! i = Some b ->
  bytes_Equal (blockRoot b) root = true ->
  exists blocks', cachedBlocks st' !! s = Some blocks'
                  /\ blocks' !! i = Some b.
Proof.
  revert sidx st blocks.
  induction fuel as [|fuel IH]; intros sidx st blocks; simpl; [discriminate|].
  intros Hrun Hm Hi Hr.
  destruct (sidx <? lowestCachedSlot st).
  { injection Hrun as <- <-. eauto. }
  destruct (cachedBlocks st !! sidx) as [here|] eqn:Hhere;
    [|eapply IH; eassumption].
  pose proof (fun j x => searchSlot_head_entry root parent 0 here None j x)
    as Hkeep.
  destruct (searchSlot root parent 0 here None) as [here' base1].
  simpl in Hkeep.
  assert (Hnext : exists blocks1,
            <[sidx := here']> (cachedBlocks st) !! s = Some blocks1
            /\ blocks1 !! i = Some b).
  { destruct (decide (sidx = s)) as [->|Hne].
    - rewrite Hm in Hhere. injection Hhere as <-.
      exists here'. rewrite lookup_insert_eq. split; [reflexivity|].
      apply Hkeep; assumption.
    - exists blocks. rewrite lookup_insert_ne by exact Hne. tauto. }
  destruct Hnext as (blocks1 & Hm1 & Hi1).
  destruct base1 as [[bidx b1]|].
  - injection Hrun as <- <-. simpl. eauto.
  - eapply IH; [exact Hrun|exact Hm1|exact Hi1|exact Hr].
Qed.

(** With a watermark of at least 1 the walk stays at and below its start
    slot. *)
Lemma fixWalk_frame fuel sidx cur st st' cur' found :
  1 <= lowestCachedSlot st -> is_uint64 sidx ->
  fixWalk fuel sidx cur st = Some (st', cur', found) ->
  forall s, sidx < s -> cachedBlocks st' !! s = cachedBlocks st !! s.
Proof.
  intros Hlow. revert sidx cur st Hlow.
  induction fuel as [|fuel IH]; intros sidx cur st Hlow Hs; simpl;
    [discriminate|].
  destruct (Z.ltb_spec sidx (lowestCachedSlot st)) as [Hlt|Hge].
  { intros [= <- <- <-] s _. reflexivity. }
  assert (Hw : wrap64 (sidx - 1) = sidx - 1).
  { apply wrap64_small. unfold is_uint64 in *. lia. }
  assert (Hs' : is_uint64 (sidx - 1)) by (unfold is_uint64 in *; lia).
  rewrite Hw.
  destruct (cachedBlocks st !! sidx) as [blocks|].
  - destruct (fixSlot sidx 0 blocks cur false) as [[blocks' cur1] [|]].
    + intros [= <- <- <-] s Hgt. simpl. apply lookup_insert_ne. lia.
    + intros Hrec s Hgt.
      refine (eq_trans (IH _ _ (set_cachedBlocks _ st) Hlow Hs' Hrec s _) _);
        [lia|].
      simpl. apply lookup_insert_ne. lia.
  - intros Hrec s Hgt. apply (IH _ _ _ Hlow Hs' Hrec s). lia.
Qed.

Lemma refOrphaned_lookup st st' p :
  cachedBlocks st' !! refSlot p = cachedBlocks st !! refSlot p ->
  refOrphaned st' p = refOrphaned st p.
Proof. unfold refOrphaned. intros ->. reflexivity. Qed.

(** Clearing a flag cannot set another one. *)
Lemma writeOrphaned_false_keeps st c p :
  refOrphaned st p = false -> refOrphaned (writeOrphaned false c st) p = false.
Proof.
  unfold writeOrphaned.
  destruct (cachedBlocks st !! refSlot c) as [blocks|] eqn:Hm; [|tauto].
  destruct (blocks !! refIndex c) as [b|] eqn:Hb; [|tauto].
  unfold refOrphaned. simpl.
  destruct (decide (refSlot c = refSlot p)) as [Heq|Hne].
  - rewrite Heq, lookup_insert_eq. rewrite Heq in Hm. rewrite Hm.
    destruct (decide (refIndex c = refIndex p)) as [Hi|Hi].
    + rewrite Hi, list_lookup_insert_eq; [reflexivity|].
      rewrite <- Hi. eapply lookup_lt_Some, Hb.
    + rewrite list_lookup_insert_ne by exact Hi. tauto.
  - rewrite lookup_insert_ne by exact Hne. tauto.
Qed.

(** The rounds of the re-canonicalization cannot orphan a block at or above
    the base. *)
Lemma fixOrphaned_keeps_above rounds fuel baseSlot cur resync st st' resync' p :
  1 <= lowestCachedSlot st -> 1 <= baseSlot -> is_uint64 baseSlot ->
  baseSlot <= refSlot p ->
  fixOrphaned rounds fuel baseSlot cur resync st = Some (st', resync') ->
  refOrphaned st p = false -> refOrphaned st' p = false.
Proof.
  intros Hlow Hb1 Hb2 Hp. revert cur resync st Hlow.
  assert (Hw : wrap64 (baseSlot - 1) = baseSlot - 1).
  { apply wrap64_small. unfold is_uint64 in *. lia. }
  assert (Hs : is_uint64 (baseSlot - 1)) by (unfold is_uint64 in *; lia).
  induction rounds as [|rounds IH]; intros cur resync st Hlow; simpl;
    [discriminate|].
  destruct (refOrphaned st cur).
  - destruct (fixWalk fuel (wrap64 (baseSlot - 1)) cur
                (writeOrphaned false cur st))
      as [[[st2 cur'] found]|] eqn:Hwalk; [|discriminate].
    intros Hrec Hfalse.
    pose proof (writeOrphaned_skeleton false cur st) as (_ & Hl1 & _).
    pose proof (fixWalk_skeleton _ _ _ _ _ _ _ Hwalk) as (_ & Hl2 & _).
    rewrite Hw in Hwalk.
    assert (Hlow2 : 1 <= lowestCachedSlot st2) by lia.
    apply (IH _ _ st2 Hlow2 Hrec).
    rewrite (refOrphaned_lookup (writeOrphaned false cur st) st2).
    + apply writeOrphaned_false_keeps, Hfalse.
    + assert (Hlow1 : 1 <= lowestCachedSlot (writeOrphaned false cur st))
        by lia.
      apply (fixWalk_frame _ _ _ _ _ _ _ Hlow1 Hs Hwalk). lia.
  - intros [= <- <-] Hfalse. exact Hfalse.
Qed.

(** X5. The block a call of [processHeadBlock] stores is canonical when
    the call returns: whatever reorg passes ran, they did not orphan the new
    head. (Slot 0 is left out: there the watermark is 0 and the walks
    wrap.) *)
Theorem processHeadBlock_head_canonical fuel st slot header (body : Body)
    r ref :
  1 <= slot -> is_uint64 slot -> 0 <= lowestCachedSlot st ->
  processHeadBlock fuel st slot header body = Some r ->
  hrBlock r = Some ref ->
  refOrphaned (hrState r) ref = false.
Proof.
  intros Hslot Hu Hlow Hr Href.
  destruct (processHeadBlock_cases _ _ _ _ _ _ Hr) as [[-> _]|[_ Hrec]];
    [discriminate|].
  simpl in Hrec.
  set (old := default [] (cachedBlocks st !! slot)) in *.
  set (new := mkBlockInfo header body false) in *.
  set (stored := set_cachedBlocks (<[slot := old ++ [new]]> (cachedBlocks st))
                   st) in *.
  destruct (reconcileHead_fields _ _ _ _ _ _ Hrec)
    as (_ & _ & _ & _ & _ & Href' & _).
  rewrite Href' in Href. injection Href as <-.
  assert (Hat : (old ++ [new]) !! length old = Some new).
  { rewrite lookup_app_r by lia. rewrite Nat.sub_diag. reflexivity. }
  unfold reconcileHead in Hrec.
  set (st2 := if (lowestCachedSlot stored =? 0)
                 || (slot <? lowestCachedSlot stored)
              then set_lowestCachedSlot slot stored else stored) in *.
  assert (H2 : cachedBlocks st2 = cachedBlocks stored
               /\ 1 <= lowestCachedSlot st2).
  { subst st2. simpl.
    destruct (Z.eqb_spec (lowestCachedSlot st) 0);
      destruct (Z.ltb_spec slot (lowestCachedSlot st)); simpl;
      split; try reflexivity; lia. }
  destruct H2 as [Hc2 Hl2].
  assert (Hm2 : cachedBlocks st2 !! slot = Some (old ++ [new])).
  { rewrite Hc2. apply lookup_insert_eq. }
  assert (Hdone : forall st' resync,
    refOrphaned st' (mkRef slot (length old) header) = false ->
    Some (mkHeadResult (set_head slot (Root header) st')
            (Some (mkRef slot (length old) header)) resync) = Some r ->
    refOrphaned (hrState r) (mkRef slot (length old) header) = false).
  { intros st' resync Hf [= <-]. exact Hf. }
  assert (Hstored : forall st',
    (exists blocks', cachedBlocks st' !! slot = Some blocks'
                     /\ blocks' !! length old = Some new) ->
    refOrphaned st' (mkRef slot (length old) header) = false).
  { intros st' (blocks' & Hm' & Hi'). unfold refOrphaned. simpl.
    rewrite Hm', Hi'. reflexivity. }
  revert Hrec.
  destruct (negb (is_nil (lastHeadRoot st2)) && _).
  - destruct (reorgBaseSearch fuel (Root header) (ParentRoot header) slot st2)
      as [[st3 [base|]]|] eqn:Hs; [| |discriminate].
    + destruct (fixOrphaned fuel fuel (refSlot base) base false st3)
        as [[st4 resync]|] eqn:Hf; [|discriminate].
      intros Hx; eapply Hdone; [|exact Hx].
      destruct (reorgBaseSearch_effect _ _ _ _ _ _ _ Hl2 Hu Hs)
        as (_ & _ & _ & Hrange & _).
      pose proof (reorgBaseSearch_skeleton _ _ _ _ _ _ _ Hs) as (_ & Hl3 & _).
      apply (fixOrphaned_keeps_above _ _ _ _ _ _ _ _
               (mkRef slot (length old) header)) with (5 := Hf); simpl;
        try lia.
      * unfold is_uint64 in *. lia.
      * apply Hstored.
        apply (reorgBaseSearch_head_untouched _ _ _ _ _ _ _ _ _ _ _
                 Hs Hm2 Hat).
        apply bytes_Equal_refl.
    + intros Hx; eapply Hdone; [|exact Hx]. apply Hstored.
      apply (reorgBaseSearch_head_untouched _ _ _ _ _ _ _ _ _ _ _ Hs Hm2 Hat).
      apply bytes_Equal_refl.
  - intros Hx; eapply Hdone; [|exact Hx]. apply Hstored.
    exists (old ++ [new]). tauto.
Qed.

(** ** A head whose parent is not cached *)

Lemma noBaseFor_entries root parent (m : gmap Z (list (@BlockInfo Body)))
    s blocks b :
  noBaseFor root parent m = true ->
  m !! s = Some blocks -> In b blocks ->
  bytes_Equal (blockRoot b) root = false ->
  bytes_Equal (blockRoot b) parent = false.
Proof.
  unfold noBaseFor. rewrite forallb_forall. intros Hall Hm Hb Hr.
  assert (Hin : In b (allBlocks m)).
  { unfold allBlocks. apply in_flat_map. exists (s, blocks).
    split; [|exact Hb]. apply list_elem_of_In, elem_of_map_to_list. exact Hm. }
  specialize (Hall b Hin). rewrite Hr in Hall. simpl in Hall.
  apply negb_true_iff in Hall. exact Hall.
Qed.

(** A block that is not a duplicate is stored at the end of the list under
    its slot, and the rest of the call works on that cache. *)
Lemma processHeadBlock_fresh fuel st slot header (body : Body) :
  (forall blocks, cachedBlocks st !! slot = Some blocks ->
                  findDuplicate (Root header) 0 blocks = None) ->
  processHeadBlock fuel st slot header body
  = reconcileHead fuel
      (set_cachedBlocks
         (<[slot := default [] (cachedBlocks st !! slot)
                    ++ [mkBlockInfo header body false]]> (cachedBlocks st)) st)
      slot header (length (default [] (cachedBlocks st !! slot))).
Proof.
  intros Hnew. unfold processHeadBlock.
  destruct (cachedBlocks st !! slot) as [blocks|] eqn:Hm; simpl.
  - rewrite (Hnew blocks eq_refl). reflexivity.
  - reflexivity.
Qed.

(** X6. A new head that is not the child of the last head, while no cached
    block has its parent's root: given fuel for the slots between the
    watermark and the head, the call returns, reports that a resync is
    needed, and has orphaned every cached block from the watermark up to the
    head's slot except the blocks with the head's own root. Slots outside
    that range are left as they were. *)
Theorem processHeadBlock_unknown_parent fuel st slot header (body : Body) :
  1 <= slot -> is_uint64 slot -> 0 <= lowestCachedSlot st ->
  is_nil (lastHeadRoot st) = false ->
  bytes_Equal (lastHeadRoot st) (ParentRoot header) = false ->
  (forall blocks, cachedBlocks st !! slot = Some blocks ->
                  findDuplicate (Root header) 0 blocks = None) ->
  noBaseFor (Root header) (ParentRoot header) (cachedBlocks st) = true ->
  let low := if (lowestCachedSlot st =? 0) || (slot <? lowestCachedSlot st)
             then slot else lowestCachedSlot st in
  (Z.to_nat (slot - low + 1) < fuel)%nat ->
  exists r,
    processHeadBlock fuel st slot header body = Some r
    /\ hrResync r = true
    /\ (forall s blocks b,
          low <= s <= slot -> cachedBlocks (hrState r) !! s = Some blocks ->
          In b blocks -> bytes_Equal (blockRoot b) (Root header) = false ->
          Orphaned b = true)
    /\ (forall s, s < low \/ slot < s ->
                  cachedBlocks (hrState r) !! s = cachedBlocks st !! s).
Proof.
  intros Hslot Hu Hlow Hnil Hpar Hnew Hnone low Hfuel.
  rewrite (processHeadBlock_fresh _ _ _ _ _ Hnew).
  set (old := default [] (cachedBlocks st !! slot)).
  set (new := mkBlockInfo header body false).
  set (stored := set_cachedBlocks (<[slot := old ++ [new]]> (cachedBlocks st))
                   st).
  unfold reconcileHead.
  set (st2 := if (lowestCachedSlot stored =? 0)
                 || (slot <? lowestCachedSlot stored)
              then set_lowestCachedSlot slot stored else stored).
  assert (H2 : cachedBlocks st2 = <[slot := old ++ [new]]> (cachedBlocks st)
               /\ lowestCachedSlot st2 = low
               /\ lastHeadRoot st2 = lastHeadRoot st
               /\ 1 <= low <= slot).
  { subst st2 low. simpl.
    destruct (Z.eqb_spec (lowestCachedSlot st) 0);
      destruct (Z.ltb_spec slot (lowestCachedSlot st)); simpl;
      repeat split; lia. }
  destruct H2 as (Hc2 & Hl2 & Hh2 & Hrange).
  rewrite Hh2, Hnil, Hpar. cbv beta iota. simpl negb. simpl andb.
  assert (Hno2 : forall s blocks b,
    cachedBlocks st2 !! s = Some blocks -> In b blocks ->
    bytes_Equal (blockRoot b) (Root header) = false ->
    bytes_Equal (blockRoot b) (ParentRoot header) = false).
  { intros s blocks b Hm Hb Hr. rewrite Hc2 in Hm.
    destruct (decide (slot = s)) as [<-|Hne].
    - rewrite lookup_insert_eq in Hm. injection Hm as <-.
      apply in_app_or in Hb. destruct Hb as [Hb|[<-|[]]].
      + subst old.
        destruct (cachedBlocks st !! slot) as [blocks|] eqn:Hm;
          [|destruct Hb].
        exact (noBaseFor_entries _ _ _ _ _ _ Hnone Hm Hb Hr).
      + unfold blockRoot in Hr. simpl in Hr.
        rewrite bytes_Equal_refl in Hr. discriminate.
    - rewrite lookup_insert_ne in Hm by exact Hne.
      exact (noBaseFor_entries _ _ _ _ _ _ Hnone Hm Hb Hr). }
  assert (Hlow2 : 1 <= lowestCachedSlot st2) by lia.
  assert (Hf2 : (Z.to_nat (slot - lowestCachedSlot st2 + 1) < fuel)%nat)
    by (rewrite Hl2; exact Hfuel).
  destruct (reorgBaseSearch_terminates fuel (Root header) (ParentRoot header)
              slot st2 Hlow2 Hu Hf2) as [[st3 base] Hs].
  rewrite Hs.
  destruct (reorgBaseSearch_effect _ _ _ _ _ _ _ Hlow2 Hu Hs)
    as (Hmark & _ & Hout & Hbase).
  pose proof (reorgBaseSearch_skeleton _ _ _ _ _ _ _ Hs) as (Hh3 & _).
  destruct base as [p|].
  { exfalso.
    destruct Hbase as (_ & Hp & Hr & blocks0 & _ & b & Hm0 & Hb0 & _ & _ & Hhd).
    assert (Hin : In b blocks0).
    { apply list_elem_of_In, list_elem_of_lookup. eauto. }
    pose proof (Hno2 _ _ _ Hm0 Hin) as Hcontra.
    unfold blockRoot in Hcontra. rewrite Hhd in Hcontra.
    rewrite Hp in Hcontra. specialize (Hcontra Hr). discriminate. }
  eexists. split; [reflexivity|]. simpl.
  split; [reflexivity|]. split.
  - intros s blocks b Hs' Hm Hb Hr.
    apply (Hmark s blocks b); [lia|exact Hm|exact Hb|exact Hr|].
    destruct (headersOf_lookup (cachedBlocks st3) (cachedBlocks st2) s blocks
                (eq_sym Hh3) Hm) as (blocks2 & Hm2 & Hhs).
    assert (Hin : In (Header b) (map Header blocks2)).
    { rewrite Hhs. apply in_map, Hb. }
    apply in_map_iff in Hin. destruct Hin as (b2 & Hhd & Hb2).
    pose proof (Hno2 _ _ _ Hm2 Hb2) as Hfalse.
    unfold blockRoot in *. rewrite Hhd in Hfalse. exact (Hfalse Hr).
  - intros s Hs'. rewrite (Hout s) by lia.
    rewrite Hc2. apply lookup_insert_ne. lia.
Qed.

(** ** Rounds of the re-canonicalization that cannot end *)

Lemma fixSlot_no_parent_marks sidx bidx blocks cur found b' :
  forallb (fun h => negb (bytes_Equal (Root h) (ParentRoot (refHeader cur))))
    (map Header blocks) = true ->
  In b' (fst (fst (fixSlot sidx bidx blocks cur found))) ->
  Orphaned b' = true.
Proof.
  revert bidx.
  induction blocks as [|b rest IH]; intros bidx; simpl; [tauto|].
  intros H. apply andb_true_iff in H. destruct H as [Hb Hrest].
  apply negb_true_iff in Hb. unfold blockRoot. rewrite Hb.
  specialize (IH (S bidx) Hrest).
  destruct (fixSlot sidx (S bidx) rest cur found) as [[rest' cur'] found'].
  simpl in *. intros [<-|Hin]; [reflexivity|exact (IH Hin)].
Qed.

(** A walk that meets no block with the parent root of [orphanedBlock] and
    runs into the watermark has orphaned every block it passed, and hands
    back the [orphanedBlock] it started with. *)
Lemma fixWalk_no_parent fuel sidx cur st st' cur' found :
  1 <= lowestCachedSlot st -> is_uint64 sidx ->
  (forall slot hs, headersOf (cachedBlocks st) !! slot = Some hs ->
     forallb (fun h => negb (bytes_Equal (Root h)
                               (ParentRoot (refHeader cur)))) hs = true) ->
  fixWalk fuel sidx cur st = Some (st', cur', found) ->
  cur' = cur /\ found = false
  /\ forall s blocks' b',
       lowestCachedSlot st <= s <= sidx ->
       cachedBlocks st' !! s = Some blocks' -> In b' blocks' ->
       Orphaned b' = true.
Proof.
  revert sidx st.
  induction fuel as [|fuel IH]; intros sidx st Hlow Hs Hno; simpl;
    [discriminate|].
  destruct (Z.ltb_spec sidx (lowestCachedSlot st)) as [Hlt|Hge].
  { intros [= <- <- <-]. split; [reflexivity|]. split; [reflexivity|].
    intros; lia. }
  assert (Hw : wrap64 (sidx - 1) = sidx - 1).
  { apply wrap64_small. unfold is_uint64 in *. lia. }
  assert (Hs' : is_uint64 (sidx - 1)) by (unfold is_uint64 in *; lia).
  rewrite Hw.
  destruct (cachedBlocks st !! sidx) as [blocks|] eqn:Hm.
  - assert (Hnp : forallb (fun h => negb (bytes_Equal (Root h)
                                            (ParentRoot (refHeader cur))))
                    (map Header blocks) = true).
    { apply (Hno sidx). unfold headersOf. rewrite lookup_fmap, Hm.
      reflexivity. }
    pose proof (fixSlot_headers sidx 0 blocks cur false) as Hh.
    pose proof (fixSlot_no_parent sidx 0 blocks cur false Hnp) as Hb.
    pose proof (fun b' => fixSlot_no_parent_marks sidx 0 blocks cur false b'
                            Hnp) as Hmarks.
    destruct (fixSlot sidx 0 blocks cur false) as [[blocks' cur1] found1].
    simpl in Hh, Hb, Hmarks. destruct Hb as [-> ->].
    set (st1 := set_cachedBlocks (<[sidx := blocks']> (cachedBlocks st)) st).
    intros Hrec.
    assert (Hlow1 : 1 <= lowestCachedSlot st1) by exact Hlow.
    assert (Hno1 : forall slot hs,
              headersOf (cachedBlocks st1) !! slot = Some hs ->
              forallb (fun h => negb (bytes_Equal (Root h)
                                        (ParentRoot (refHeader cur)))) hs
              = true).
    { subst st1. simpl.
      rewrite (headersOf_insert_same _ _ _ _ Hm Hh). exact Hno. }
    destruct (IH _ st1 Hlow1 Hs' Hno1 Hrec) as (-> & -> & Hall).
    split; [reflexivity|]. split; [reflexivity|].
    intros s blocks2 b' Hrange Hl Hin.
    destruct (decide (s = sidx)) as [->|Hne].
    + rewrite (fixWalk_frame _ _ _ _ _ _ _ Hlow1 Hs' Hrec sidx) in Hl by lia.
      subst st1. simpl in Hl. rewrite lookup_insert_eq in Hl.
      injection Hl as <-. exact (Hmarks b' Hin).
    + apply (Hall s blocks2 b'); [simpl; lia|exact Hl|exact Hin].
  - intros Hrec.
    destruct (IH _ st Hlow Hs' Hno Hrec) as (-> & -> & Hall).
    split; [reflexivity|]. split; [reflexivity|].
    intros s blocks2 b' Hrange Hl Hin.
    destruct (decide (s = sidx)) as [->|Hne].
    + rewrite (fixWalk_frame _ _ _ _ _ _ _ Hlow Hs' Hrec sidx) in Hl by lia.
      rewrite Hm in Hl. discriminate.
    + apply (Hall s blocks2 b'); [lia|exact Hl|exact Hin].
Qed.

(** X7. The loop [for orphanedBlock.Orphaned] cannot end once
    [orphanedBlock] is an orphaned block below the base whose parent is not
    cached: each round clears its flag, and the walk, restarted just below
    the base, finds no parent and orphans every block it passes, this block
    among them. However many rounds and steps are allowed, the loop is still
    running. *)
Theorem fixOrphaned_diverges rounds fuel baseSlot cur resync st :
  0 <= lowestCachedSlot st -> 1 <= baseSlot -> is_uint64 baseSlot ->
  lowestCachedSlot st <= refSlot cur < baseSlot ->
  refOrphaned st cur = true ->
  noParentFor cur (cachedBlocks st) = true ->
  fixOrphaned rounds fuel baseSlot cur resync st = None.
Proof.
  intros Hlow Hbase1 Hbase2 Hin Ho Hnone.
  assert (Hno : forall slot hs,
            headersOf (cachedBlocks st) !! slot = Some hs ->
            forallb (fun h => negb (bytes_Equal (Root h)
                                      (ParentRoot (refHeader cur)))) hs
            = true).
  { apply (allBlocks_headers
             (fun h => negb (bytes_Equal (Root h)
                               (ParentRoot (refHeader cur))))).
    exact Hnone. }
  clear Hnone.
  assert (Hw : wrap64 (baseSlot - 1) = baseSlot - 1).
  { apply wrap64_small. unfold is_uint64 in *. lia. }
  assert (Hs : is_uint64 (baseSlot - 1)) by (unfold is_uint64 in *; lia).
  revert resync st Hlow Hin Ho Hno.
  induction rounds as [|rounds IH]; intros resync st Hlow Hin Ho Hno;
    [reflexivity|].
  simpl. rewrite Ho, Hw.
  pose proof (writeOrphaned_skeleton false cur st) as (Hh1 & Hl1 & _).
  set (st1 := writeOrphaned false cur st) in *.
  assert (Hno1 : forall slot hs,
            headersOf (cachedBlocks st1) !! slot = Some hs ->
            forallb (fun h => negb (bytes_Equal (Root h)
                                      (ParentRoot (refHeader cur)))) hs
            = true).
  { rewrite Hh1. exact Hno. }
  destruct (fixWalk fuel (baseSlot - 1) cur st1)
    as [[[st2 cur'] found]|] eqn:Hwalk; [|reflexivity].
  destruct (Z.eq_dec (lowestCachedSlot st) 0) as [H0|H0].
  { rewrite (fixWalk_spins fuel (baseSlot - 1) cur st1) in Hwalk;
      [discriminate|lia|exact Hs|exact Hno1]. }
  assert (Hlow1 : 1 <= lowestCachedSlot st1) by lia.
  pose proof (fixWalk_skeleton _ _ _ _ _ _ _ Hwalk) as (Hh2 & Hl2 & _).
  destruct (fixWalk_no_parent _ _ _ _ _ _ _ Hlow1 Hs Hno1 Hwalk)
    as (-> & -> & Hall).
  apply IH.
  - lia.
  - lia.
  - unfold refOrphaned in Ho |- *.
    destruct (cachedBlocks st !! refSlot cur) as [blocks|] eqn:Hm;
      [|discriminate].
    destruct (blocks !! refIndex cur) as [b|] eqn:Hb; [|discriminate].
    destruct (headersOf_lookup (cachedBlocks st) (cachedBlocks st2)
                (refSlot cur) blocks) as (blocks2 & Hm2 & Hhs).
    { rewrite Hh2, Hh1. reflexivity. }
    { exact Hm. }
    rewrite Hm2.
    assert (Hj : map Header blocks2 !! refIndex cur = Some (Header b)).
    { rewrite Hhs, list_lookup_fmap, Hb. reflexivity. }
    rewrite list_lookup_fmap in Hj.
    destruct (blocks2 !! refIndex cur) as [b2|] eqn:Hlk2; [|discriminate].
    apply (Hall (refSlot cur) blocks2 b2); [lia|exact Hm2|].
    apply list_elem_of_In, list_elem_of_lookup. eauto.
  - rewrite Hh2. exact Hno1.
Qed.

(** ** What [processEpoch] and [processIndexing] do and leave alone *)

(** The two ways [processEpoch] returns: without a target, or after the
    votes were aggregated against one. *)
Lemma processEpoch_returned fuel cfg icfg db st epoch events :
  processEpoch fuel cfg icfg db st epoch = Returned events ->
  events = [LogNoTarget epoch]
  \/ exists target,
       events = aggregateAndPersist icfg db epoch (Some target).
Proof.
  unfold processEpoch.
  destruct (epochStats st !! epoch) as [stats|]; [|discriminate].
  destruct (ValidatorsMutex (Validators stats)); [|discriminate].
  destruct (epochTargetLoop _ _ _ _ _) as [[target|]|]; [| |discriminate].
  - cbv zeta. intros H. right. exists target.
    destruct (reachesSummary icfg db);
      [destruct (orphanedLogLoop _ _ _); [|discriminate]|];
      injection H as <-; reflexivity.
  - intros [= <-]. left. reflexivity.
Qed.

(** Every event of a [processEpoch] run is about the epoch it was called
    for. *)
Lemma processEpoch_events_epoch fuel cfg icfg db st epoch events :
  processEpoch fuel cfg icfg db st epoch = Returned events ->
  Forall (fun e => eventEpoch e = None \/ eventEpoch e = Some epoch) events.
Proof.
  intros H. apply processEpoch_returned in H.
  destruct H as [->|[target ->]].
  1: { apply Forall_cons_2; [simpl; tauto|apply Forall_nil_2]. }
  - unfold aggregateAndPersist, persistEpoch.
    destruct (writeDb icfg), (beginOk db), (synchronizerRunning icfg),
      (commitOk db); simpl;
      repeat (apply Forall_cons_2; [simpl; tauto|]); apply Forall_nil_2.
Qed.

(** X8. The database calls of [processEpoch]. Without [writeDb] there are
    none. A transaction that was begun is always ended by [Rollback], which
    is the last thing the function does; inside it the epoch is persisted,
    the commit is attempted whatever persisting returned, and the sync state
    is written unless the synchronizer is running. The epoch summary is
    logged only without [writeDb] or after a commit that went through. *)
Theorem processEpoch_transaction_discipline fuel cfg icfg db st epoch events :
  processEpoch fuel cfg icfg db st epoch = Returned events ->
  (writeDb icfg = false -> Forall (fun e => isDbEvent e = false) events)
  /\ (In DbBegin events ->
      last events = Some DbRollback
      /\ In (DbPersist epoch (persistOk db)) events
      /\ (In DbCommit events <-> commitOk db = true)
      /\ (In DbCommitFailed events <-> commitOk db = false)
      /\ (In (DbSetSyncState epoch (setStateOk db)) events
          <-> synchronizerRunning icfg = false))
  /\ (In DbCommit events \/ In DbCommitFailed events
      \/ In DbRollback events -> In DbBegin events)
  /\ (In (LogEpochSummary epoch) events ->
      writeDb icfg = false \/ In DbCommit events).
Proof.
  intros H. apply processEpoch_returned in H.
  destruct H as [->|[target ->]].
  1: { simpl.
    split; [intros; apply Forall_cons_2; [reflexivity|apply Forall_nil_2]|].
    split; [intros [Hin|[]]; discriminate|].
    split; intros Hin; intuition (try discriminate). }
  - unfold aggregateAndPersist, persistEpoch.
    destruct (writeDb icfg), (beginOk db), (synchronizerRunning icfg),
      (commitOk db); simpl;
      (split; [intros; try discriminate;
               repeat (apply Forall_cons_2; [reflexivity|]);
               apply Forall_nil_2|]);
      (split; [intros Hin; repeat split; try reflexivity; simpl;
               intuition (try discriminate; try congruence)|]);
      (split; intros Hin; simpl in *;
       intuition (try discriminate; try congruence)).
Qed.

(** X9. One call of [processIndexing] handles at most one epoch, the
    frontier [EpochOfSlot(lastHeadBlock) - epochProcessingDelay]: when it
    returns, [lastProcessedEpoch] is the larger of its old value and the
    frontier, every event of the trace is about the frontier epoch (the
    epochs between the old [lastProcessedEpoch] and the frontier are not
    processed), and no other field of the state has changed. *)
Theorem processIndexing_one_epoch fuel cfg icfg db st st' events :
  processIndexing fuel cfg icfg db st = Returned (st', events) ->
  lastProcessedEpoch st'
  = Z.max (lastProcessedEpoch st) (frontierEpoch cfg icfg st)
  /\ Forall (fun e => eventEpoch e = None
                      \/ eventEpoch e = Some (frontierEpoch cfg icfg st))
       events
  /\ cachedBlocks st' = cachedBlocks st
  /\ epochStats st' = epochStats st
  /\ lowestCachedSlot st' = lowestCachedSlot st
  /\ lastHeadBlock st' = lastHeadBlock st
  /\ lastHeadRoot st' = lastHeadRoot st.
Proof.
  unfold processIndexing.
  destruct (Z.ltb_spec (lastProcessedEpoch st) (frontierEpoch cfg icfg st))
    as [Hlt|Hge].
  - destruct (processEpoch fuel cfg icfg db st (frontierEpoch cfg icfg st))
      as [evs| | |] eqn:He; try discriminate.
    intros [= <- <-]. simpl.
    split; [lia|].
    split; [exact (processEpoch_events_epoch _ _ _ _ _ _ _ He)|].
    repeat split.
  - intros [= <- <-]. split; [lia|]. split; [apply Forall_nil_2|].
    repeat split.
Qed.

(** ** A second cleanup pass *)

(** The drop loop, when it returns: the watermark has reached the threshold,
    the keys below the old watermark and from the threshold on are as they
    were, and nothing but the cache and the watermark has changed. *)
Lemma dropLoop_returns fuel threshold st st' :
  is_uint64 (lowestCachedSlot st) -> is_uint64 threshold ->
  dropLoop fuel threshold st = Some st' ->
  threshold <= lowestCachedSlot st'
  /\ lowestCachedSlot st <= lowestCachedSlot st'
  /\ (forall slot, slot < lowestCachedSlot st \/ threshold <= slot ->
                   cachedBlocks st' !! slot = cachedBlocks st !! slot)
  /\ epochStats st' = epochStats st
  /\ lastHeadBlock st' = lastHeadBlock st
  /\ lastHeadRoot st' = lastHeadRoot st
  /\ lastProcessedEpoch st' = lastProcessedEpoch st.
Proof.
  revert st.
  induction fuel as [|fuel IH]; intros st Hlow Hthr; simpl; [discriminate|].
  destruct (Z.ltb_spec (lowestCachedSlot st) threshold) as [Hlt|Hge].
  - set (low := lowestCachedSlot st) in *.
    set (st1 := match cachedBlocks st !! low with
                | Some _ => set_cachedBlocks (delete low (cachedBlocks st)) st
                | None => st
                end).
    assert (H1 : (forall slot, slot <> low ->
                    cachedBlocks st1 !! slot = cachedBlocks st !! slot)
                 /\ epochStats st1 = epochStats st
                 /\ lastHeadBlock st1 = lastHeadBlock st
                 /\ lastHeadRoot st1 = lastHeadRoot st
                 /\ lastProcessedEpoch st1 = lastProcessedEpoch st).
    { subst st1. destruct (cachedBlocks st !! low); simpl;
        repeat split; try reflexivity.
      intros slot Hne. apply lookup_delete_ne. congruence. }
    destruct H1 as (Hk1 & He1 & Hb1 & Hr1 & Hp1).
    assert (Hw : wrap64 (low + 1) = low + 1).
    { apply wrap64_small. unfold is_uint64 in *. lia. }
    rewrite Hw. intros Hrun.
    destruct (IH (set_lowestCachedSlot (low + 1) st1)) as
      (Ht & Hl & Hk & He & Hb & Hr & Hp); simpl;
      [unfold is_uint64 in *; lia|exact Hthr|exact Hrun|].
    simpl in *.
    split; [exact Ht|]. split; [lia|].
    split; [|repeat split; congruence].
    intros slot Hs. rewrite Hk by lia. apply Hk1. lia.
  - intros [= <-]. split; [lia|]. split; [lia|]. repeat split.
Qed.

(** X10. A cleanup pass that returns leaves every cached block from the
    threshold on (and any key below the old watermark) as it was, never
    lowers the watermark, and touches neither the head nor
    [lastProcessedEpoch]. With the head where it was, a second pass has
    nothing left to do: it returns the state unchanged and hands nothing to
    [AddCachedEpochAssignments]. *)
Theorem processCacheCleanup_keeps_and_settles fuel cfg icfg st st' events :
  is_uint64 (lowestCachedSlot st) ->
  processCacheCleanup fuel cfg icfg st = Some (st', events) ->
  (forall slot, slot < lowestCachedSlot st
                \/ cleanThreshold cfg icfg st <= slot ->
                cachedBlocks st' !! slot = cachedBlocks st !! slot)
  /\ lowestCachedSlot st <= lowestCachedSlot st'
  /\ lastHeadBlock st' = lastHeadBlock st
  /\ lastHeadRoot st' = lastHeadRoot st
  /\ lastProcessedEpoch st' = lastProcessedEpoch st
  /\ forall fuel', processCacheCleanup fuel' cfg icfg st' = Some (st', []).
Proof.
  intros Hlow. unfold processCacheCleanup at 1.
  destruct (Z.ltb_spec (lowestCachedSlot st) (cleanThreshold cfg icfg st))
    as [Hlt|Hge].
  - destruct (dropLoop fuel (cleanThreshold cfg icfg st) st) as [st1|] eqn:Hd;
      [|discriminate].
    destruct (dropLoop_returns _ _ _ _ Hlow (cleanThreshold_range cfg icfg st)
                Hd) as (Ht & Hl & Hk & He & Hb & Hr & Hp).
    assert (Hsettled : forall st2 : @indexerState Body EpochAssignments,
              lowestCachedSlot st2 = lowestCachedSlot st1 ->
              lastHeadBlock st2 = lastHeadBlock st1 ->
              forall fuel', processCacheCleanup fuel' cfg icfg st2
                            = Some (st2, [])).
    { intros st2 Hl2 Hb2 fuel'. unfold processCacheCleanup.
      assert (Hthr : cleanThreshold cfg icfg st2 = cleanThreshold cfg icfg st).
      { unfold cleanThreshold, cleanEpochOf. rewrite Hb2, Hb. reflexivity. }
      rewrite Hthr, Hl2.
      destruct (Z.ltb_spec (lowestCachedSlot st1) (cleanThreshold cfg icfg st));
        [lia|reflexivity]. }
    destruct (epochStats st1 !! cleanEpochOf cfg icfg st) as [stats|].
    + intros [= <- <-]. simpl.
      split; [exact Hk|]. split; [exact Hl|].
      split; [exact Hb|]. split; [exact Hr|]. split; [exact Hp|].
      apply Hsettled; reflexivity.
    + intros [= <- <-].
      split; [exact Hk|]. split; [exact Hl|].
      split; [exact Hb|]. split; [exact Hr|]. split; [exact Hp|].
      apply Hsettled; reflexivity.
  - intros [= <- <-].
    split; [reflexivity|]. split; [lia|]. repeat split.
    intros fuel'. unfold processCacheCleanup.
    destruct (Z.ltb_spec (lowestCachedSlot st) (cleanThreshold cfg icfg st));
      [lia|reflexivity].
Qed.

(** ** The first pass after the bootstrap *)

(** X11. The start of [runIndexer] puts the head at the last slot of epoch
    [currentEpoch - inMemoryEpochs] and [lastProcessedEpoch] at
    [currentEpoch - epochProcessingDelay]. If the head is not moved before
    [processIndexing] runs, that pass is idle when the delay fits into the
    head's epoch; when it does not, the frontier wraps around, lies above
    [lastProcessedEpoch], and [processEpoch] is called for an epoch near
    2^64 that has no stats: the nil pointer is dereferenced. *)
Theorem bootstrap_then_processIndexing fuel cfg icfg db currentEpoch st :
  0 < SlotsPerEpoch cfg ->
  is_uint16 (inMemoryEpochs icfg) -> is_uint16 (epochProcessingDelay icfg) ->
  inMemoryEpochs icfg < currentEpoch ->
  epochProcessingDelay icfg < currentEpoch ->
  (currentEpoch + 1) * SlotsPerEpoch cfg < uint64_modulus ->
  let st0 := bootstrap cfg icfg currentEpoch st in
  EpochOfSlot cfg (lastHeadBlock st0) = currentEpoch - inMemoryEpochs icfg
  /\ lastProcessedEpoch st0 = currentEpoch - epochProcessingDelay icfg
  /\ (epochProcessingDelay icfg <= currentEpoch - inMemoryEpochs icfg ->
      processIndexing fuel cfg icfg db st0 = Returned (st0, []))
  /\ (currentEpoch - inMemoryEpochs icfg < epochProcessingDelay icfg ->
      epochStats st = ∅ ->
      processIndexing fuel cfg icfg db st0 = Panic).
Proof.
  intros Hspe Hmem Hdelay Hm Hd Hfit st0.
  unfold is_uint16 in *. unfold uint64_modulus in *.
  set (k := currentEpoch - inMemoryEpochs icfg) in *.
  assert (Hk : 0 < k) by (subst k; lia).
  assert (Hprod : 0 < (k + 1) * SlotsPerEpoch cfg < 2 ^ 64).
  { split; [nia|]. subst k. nia. }
  assert (Hhead : lastHeadBlock st0 = (k + 1) * SlotsPerEpoch cfg - 1).
  { subst st0. rewrite bootstrap_lastHeadBlock.
    destruct (Z.ltb_spec (inMemoryEpochs icfg) currentEpoch); [|lia].
    fold k.
    rewrite (wrap64_small ((k + 1) * SlotsPerEpoch cfg))
      by (unfold is_uint64, uint64_modulus; lia).
    apply wrap64_small. unfold is_uint64, uint64_modulus. lia. }
  assert (Hepoch : EpochOfSlot cfg (lastHeadBlock st0) = k).
  { unfold EpochOfSlot. rewrite Hhead.
    symmetry. apply (Z.div_unique _ _ k (SlotsPerEpoch cfg - 1)); lia. }
  assert (Hlast : lastProcessedEpoch st0
                  = currentEpoch - epochProcessingDelay icfg).
  { subst st0. rewrite bootstrap_lastProcessedEpoch.
    destruct (Z.ltb_spec (epochProcessingDelay icfg) currentEpoch); [|lia].
    apply wrap64_small. unfold is_uint64, uint64_modulus. nia. }
  assert (Hstats : epochStats st0 = epochStats st).
  { subst st0. unfold bootstrap.
    destruct (inMemoryEpochs icfg <? currentEpoch);
      destruct (epochProcessingDelay icfg <? currentEpoch); reflexivity. }
  split; [exact Hepoch|]. split; [exact Hlast|]. split.
  - intros Hle. apply processIndexing_idle.
    unfold frontierEpoch. rewrite Hepoch, Hlast.
    rewrite wrap64_small by (unfold is_uint64, uint64_modulus; nia).
    subst k. lia.
  - intros Hlt Hempty.
    assert (Hfront : frontierEpoch cfg icfg st0
                     = k - epochProcessingDelay icfg + uint64_modulus).
    { unfold frontierEpoch. rewrite Hepoch.
      apply wrap64_below. unfold uint64_modulus. lia. }
    unfold processIndexing, processEpoch.
    rewrite Hfront, Hlast, Hstats, Hempty, lookup_empty.
    destruct (Z.ltb_spec (currentEpoch - epochProcessingDelay icfg)
                (k - epochProcessingDelay icfg + uint64_modulus))
      as [_|Hge]; [reflexivity|].
    unfold uint64_modulus in Hge. subst k. lia.
Qed.

End IndexerMore.

(** * The indexer and the beacon node *)

Section NodeFacts.

Context {Body : Type} {EpochAssignments : Type}.
Context (DependendRoot : EpochAssignments -> GoBytes).

Implicit Types (st : @indexerState Body EpochAssignments).
Implicit Types (node : @BeaconNode Body EpochAssignments).

(** ** Epoch stats of the head epoch *)

(** What [newEpochStats] installs. *)
Lemma newEpochStats_installs st epoch root st1 loadStats :
  newEpochStats st epoch root = Some (st1, loadStats) ->
  lastProcessedEpoch st <= epoch
  /\ loadStats = match epochStats st !! epoch with Some _ => false | None => true end
  /\ st1 = set_epochStats
             (<[epoch := mkEpochStats root Locked
                           (match epochStats st !! epoch with
                            | Some old => Validators old
                            | None => mkEpochValidators Locked 0 0 ∅
                            end) None]> (epochStats st)) st
  /\ (forall old, epochStats st !! epoch = Some old ->
                  bytes_Equal (dependendRoot old) root = false).
Proof.
  unfold newEpochStats.
  destruct (Z.ltb_spec epoch (lastProcessedEpoch st)) as [|Hge];
    [discriminate|].
  destruct (epochStats st !! epoch) as [old|].
  - destruct (bytes_Equal (dependendRoot old) root) eqn:Heq; [discriminate|].
    intros [= <- <-]. split; [exact Hge|]. split; [reflexivity|].
    split; [reflexivity|]. intros ? [= <-]. exact Heq.
  - intros [= <- <-]. split; [exact Hge|]. split; [reflexivity|].
    split; [reflexivity|]. intros ? [=].
Qed.

Lemma newEpochStats_refuses st epoch root :
  newEpochStats st epoch root = None <->
  epoch < lastProcessedEpoch st
  \/ exists old, epochStats st !! epoch = Some old
                 /\ bytes_Equal (dependendRoot old) root = true.
Proof.
  unfold newEpochStats.
  destruct (Z.ltb_spec epoch (lastProcessedEpoch st)) as [Hlt|Hge].
  { split; [intros _; left; exact Hlt|reflexivity]. }
  destruct (epochStats st !! epoch) as [old|].
  - destruct (bytes_Equal (dependendRoot old) root) eqn:Heq.
    + split; [intros _; right; eauto|reflexivity].
    + split; [discriminate|].
      intros [Hlt|(old' & [= <-] & Heq')]; [lia|congruence].
  - split; [discriminate|].
    intros [Hlt|(old' & [=] & _)]. lia.
Qed.

(** The part of [processHeadEpoch] that follows the choice of the dependent
    root. *)
Lemma processHeadEpoch_install node st epoch root fetched st' loadStats :
  match newEpochStats st epoch root with
  | None => Returned (st, false)
  | Some (st1, loadStats) =>
      Returned (publishAssignments epoch
                  (match fetched with
                   | Some a => Some a
                   | None => answer (GetEpochAssignments node epoch)
                   end) st1, loadStats)
  end = Returned (st', loadStats) ->
  (st' = st /\ loadStats = false /\ newEpochStats st epoch root = None)
  \/ (lastProcessedEpoch st <= epoch
      /\ loadStats = match epochStats st !! epoch with Some _ => false | None => true end
      /\ (forall old, epochStats st !! epoch = Some old ->
                      bytes_Equal (dependendRoot old) root = false)
      /\ st' = set_epochStats
                 (<[epoch := mkEpochStats root Unlocked
                               (match epochStats st !! epoch with
                                | Some old => Validators old
                                | None => mkEpochValidators Locked 0 0 ∅
                                end)
                               (match fetched with
                                | Some a => Some a
                                | None =>
                                    answer (GetEpochAssignments node epoch)
                                end)]> (epochStats st)) st).
Proof.
  destruct (newEpochStats st epoch root) as [[st1 ls]|] eqn:Hnew.
  - intros [= <- <-]. right.
    destruct (newEpochStats_installs _ _ _ _ _ Hnew) as (Hge & Hls & -> & Hold).
    split; [exact Hge|]. split; [exact Hls|]. split; [exact Hold|].
    unfold publishAssignments. simpl. rewrite lookup_insert_eq. simpl.
    unfold set_epochStats. simpl. f_equal. apply insert_insert_eq.
  - intros [= <- <-]. left. tauto.
Qed.

(** The ways [processHeadEpoch] can return. *)
Lemma processHeadEpoch_cases node st epoch dependentRoot st' loadStats :
  processHeadEpoch DependendRoot node st epoch dependentRoot
  = Returned (st', loadStats) ->
  (st' = st /\ loadStats = false)
  \/ exists root assignments,
       lastProcessedEpoch st <= epoch
       /\ loadStats = match epochStats st !! epoch with Some _ => false | None => true end
       /\ (forall old, epochStats st !! epoch = Some old ->
                       bytes_Equal (dependendRoot old) root = false)
       /\ (is_nil dependentRoot = false -> root = dependentRoot)
       /\ (is_nil dependentRoot = true \/ epochStats st !! epoch = None ->
           assignments = answer (GetEpochAssignments node epoch))
       /\ st' = set_epochStats
                  (<[epoch := mkEpochStats root Unlocked
                                (match epochStats st !! epoch with
                                 | Some old => Validators old
                                 | None => mkEpochValidators Locked 0 0 ∅
                                 end) assignments]> (epochStats st)) st.
Proof.
  unfold processHeadEpoch.
  destruct dependentRoot as [bytes|].
  - intros H.
    apply (processHeadEpoch_install node st epoch (Some bytes) None) in H.
    destruct H as [(-> & -> & _)|(Hge & Hls & Hold & ->)]; [left; tauto|].
    right. exists (Some bytes), (answer (GetEpochAssignments node epoch)).
    repeat split; try assumption; reflexivity.
  - destruct (epochStats st !! epoch) as [old|] eqn:Hm.
    { intros [= <- <-]. left. tauto. }
    destruct (answer (GetEpochAssignments node epoch)) as [a|] eqn:Ha;
      [|discriminate].
    intros H.
    apply (processHeadEpoch_install node st epoch (DependendRoot a) (Some a))
      in H.
    rewrite Hm in H.
    destruct H as [(-> & -> & _)|(Hge & Hls & Hold & ->)]; [left; tauto|].
    right. exists (DependendRoot a), (Some a).
    split; [exact Hge|]. split; [exact Hls|].
    split; [intros ? [=]|]. split; [discriminate|].
    split; [reflexivity|reflexivity].
Qed.

(** X12. What a call of [processHeadEpoch] that returns has done. It
    touches nothing but the stats entry of its epoch. The loader is started
    exactly when the epoch had no stats and is not behind
    [lastProcessedEpoch]; the entry then has the assignments latch released
    and the validators latch held, with empty counters. An entry that was
    there is either left alone or replaced by one for another dependent
    root, which takes over the validator set of the old one and holds the
    assignments just fetched. *)
Theorem processHeadEpoch_effect node st epoch dependentRoot st' loadStats :
  processHeadEpoch DependendRoot node st epoch dependentRoot
  = Returned (st', loadStats) ->
  cachedBlocks st' = cachedBlocks st
  /\ lastHeadBlock st' = lastHeadBlock st
  /\ lastHeadRoot st' = lastHeadRoot st
  /\ lowestCachedSlot st' = lowestCachedSlot st
  /\ lastProcessedEpoch st' = lastProcessedEpoch st
  /\ (forall other, other <> epoch ->
        epochStats st' !! other = epochStats st !! other)
  /\ (loadStats = true <->
      epochStats st !! epoch = None /\ lastProcessedEpoch st <= epoch)
  /\ match epochStats st !! epoch with
     | None =>
         if loadStats then
           exists stats,
             epochStats st' !! epoch = Some stats
             /\ AssignmentsMutex stats = Unlocked
             /\ Validators stats = mkEpochValidators Locked 0 0 ∅
         else st' = st
     | Some old =>
         st' = st
         \/ exists stats,
              epochStats st' !! epoch = Some stats
              /\ bytes_Equal (dependendRoot old) (dependendRoot stats) = false
              /\ dependendRoot stats = dependentRoot
              /\ AssignmentsMutex stats = Unlocked
              /\ Validators stats = Validators old
              /\ Assignments stats = answer (GetEpochAssignments node epoch)
     end.
Proof.
  assert (Hsame :
    cachedBlocks st = cachedBlocks st
    /\ lastHeadBlock st = lastHeadBlock st
    /\ lastHeadRoot st = lastHeadRoot st
    /\ lowestCachedSlot st = lowestCachedSlot st
    /\ lastProcessedEpoch st = lastProcessedEpoch st
    /\ (forall other, other <> epoch ->
          epochStats st !! other = epochStats st !! other)).
  { repeat split. }
  assert (Hnew : forall (stats stats0 : @EpochStats EpochAssignments),
    let st2 := set_epochStats
                 (<[epoch := stats]> (<[epoch := stats0]> (epochStats st)))
                 st in
    cachedBlocks st2 = cachedBlocks st
    /\ lastHeadBlock st2 = lastHeadBlock st
    /\ lastHeadRoot st2 = lastHeadRoot st
    /\ lowestCachedSlot st2 = lowestCachedSlot st
    /\ lastProcessedEpoch st2 = lastProcessedEpoch st
    /\ (forall other, other <> epoch ->
          epochStats st2 !! other = epochStats st !! other)
    /\ epochStats st2 !! epoch = Some stats).
  { intros stats stats0 st2. subst st2. simpl.
    do 5 (split; [reflexivity|]).
    split; [|apply lookup_insert_eq].
    intros other Hne. rewrite !lookup_insert_ne by congruence. reflexivity. }
  unfold processHeadEpoch, newEpochStats, publishAssignments.
  destruct (Z.ltb_spec epoch (lastProcessedEpoch st)) as [Hlt|Hge];
    destruct (epochStats st !! epoch) as [old|] eqn:Hm;
    destruct dependentRoot as [bytes|].
  - intros [= <- <-]. destruct Hsame as (?&?&?&?&?&?).
    repeat (split; [assumption|]). split; [|left; reflexivity].
    split; [discriminate|intros [[=] _]].
  - intros [= <- <-]. destruct Hsame as (?&?&?&?&?&?).
    repeat (split; [assumption|]). split; [|left; reflexivity].
    split; [discriminate|intros [[=] _]].
  - intros [= <- <-]. destruct Hsame as (?&?&?&?&?&?).
    repeat (split; [assumption|]). split; [|reflexivity].
    split; [discriminate|intros [_ ?]; lia].
  - destruct (answer (GetEpochAssignments node epoch)) as [a|];
      [|discriminate].
    intros [= <- <-]. destruct Hsame as (?&?&?&?&?&?).
    repeat (split; [assumption|]). split; [|reflexivity].
    split; [discriminate|intros [_ ?]; lia].
  - destruct (bytes_Equal (dependendRoot old) (Some bytes)) eqn:Heq.
    + intros [= <- <-]. destruct Hsame as (?&?&?&?&?&?).
      repeat (split; [assumption|]). split; [|left; reflexivity].
      split; [discriminate|intros [[=] _]].
    + simpl. rewrite lookup_insert_eq. simpl. intros [= <- <-].
      match goal with
      | |- context [set_epochStats (<[epoch := ?s]> (<[epoch := ?s0]> _)) _] =>
          destruct (Hnew s s0) as (?&?&?&?&?&?&Hl)
      end.
      repeat (split; [assumption|]).
      split; [split; [discriminate|intros [[=] _]]|].
      right. eexists. split; [exact Hl|]. simpl.
      split; [exact Heq|]. repeat split.
  - intros [= <- <-]. destruct Hsame as (?&?&?&?&?&?).
    repeat (split; [assumption|]). split; [|left; reflexivity].
    split; [discriminate|intros [[=] _]].
  - simpl. rewrite lookup_insert_eq. simpl. intros [= <- <-].
    match goal with
    | |- context [set_epochStats (<[epoch := ?s]> (<[epoch := ?s0]> _)) _] =>
        destruct (Hnew s s0) as (?&?&?&?&?&?&Hl)
    end.
    repeat (split; [assumption|]).
    split; [split; [intros _; split; [reflexivity|lia]|reflexivity]|].
    eexists. split; [exact Hl|]. simpl. split; reflexivity.
  - destruct (answer (GetEpochAssignments node epoch)) as [a|];
      [|discriminate].
    simpl. rewrite lookup_insert_eq. simpl. intros [= <- <-].
    match goal with
    | |- context [set_epochStats (<[epoch := ?s]> (<[epoch := ?s0]> _)) _] =>
        destruct (Hnew s s0) as (?&?&?&?&?&?&Hl)
    end.
    repeat (split; [assumption|]).
    split; [split; [intros _; split; [reflexivity|lia]|reflexivity]|].
    eexists. split; [exact Hl|]. simpl. split; reflexivity.
Qed.

(** X13. The one way [processHeadEpoch] fails: called without a dependent
    root for an epoch that has no stats, it dereferences the assignments it
    asked the node for, and panics when the node handed back nil. In every
    other case it returns. *)
Theorem processHeadEpoch_panics_iff node st epoch dependentRoot :
  (processHeadEpoch DependendRoot node st epoch dependentRoot = Panic <->
   dependentRoot = None /\ epochStats st !! epoch = None
   /\ answer (GetEpochAssignments node epoch) = None)
  /\ (processHeadEpoch DependendRoot node st epoch dependentRoot <> Panic ->
      exists st' loadStats,
        processHeadEpoch DependendRoot node st epoch dependentRoot
        = Returned (st', loadStats)).
Proof.
  unfold processHeadEpoch.
  destruct dependentRoot as [bytes|].
  - destruct (newEpochStats st epoch (Some bytes)) as [[st1 ls]|].
    + split; [split; [discriminate|intros [[=] _]]|eauto].
    + split; [split; [discriminate|intros [[=] _]]|eauto].
  - destruct (epochStats st !! epoch) as [old|].
    + split; [split; [discriminate|intros (_ & [=] & _)]|eauto].
    + destruct (answer (GetEpochAssignments node epoch)) as [a|].
      * destruct (newEpochStats st epoch (DependendRoot a)) as [[st1 ls]|].
        -- split; [split; [discriminate|intros (_ & _ & [=])]|eauto].
        -- split; [split; [discriminate|intros (_ & _ & [=])]|eauto].
      * split; [split; [intros _; repeat split|reflexivity]|].
        intros H. contradiction.
Qed.

(** X14. Calling [processHeadEpoch] again with the same arguments, on the
    state the first call returned, changes nothing and starts no loader:
    the stats are there, with that dependent root. *)
Theorem processHeadEpoch_idempotent node st epoch dependentRoot st' loadStats :
  processHeadEpoch DependendRoot node st epoch dependentRoot
  = Returned (st', loadStats) ->
  processHeadEpoch DependendRoot node st' epoch dependentRoot
  = Returned (st', false).
Proof.
  intros H.
  destruct (processHeadEpoch_cases _ _ _ _ _ _ H)
    as [[-> ->]|(root & a & Hge & Hls & Hold & Hroot & Ha & ->)];
    [exact H|].
  unfold processHeadEpoch. simpl. rewrite lookup_insert_eq.
  destruct dependentRoot as [bytes|]; [|reflexivity].
  rewrite (Hroot eq_refl).
  unfold newEpochStats. simpl. rewrite lookup_insert_eq. simpl.
  rewrite bytes_Equal_refl.
  destruct (epoch <? lastProcessedEpoch st); reflexivity.
Qed.

(** ** Polling the node *)

Lemma andThen_returns {A B : Type} (o : Outcome A) (f : A -> Outcome B) b :
  andThen o f = Returned b -> exists a, o = Returned a /\ f a = Returned b.
Proof. destruct o; simpl; try discriminate. eauto. Qed.

(** What [processHeadBlock] leaves of the state outside the block cache. *)
Lemma processHeadBlock_frame fuel st slot header (body : Body) r :
  processHeadBlock fuel st slot header body = Some r ->
  epochStats (hrState r) = epochStats st
  /\ lastProcessedEpoch (hrState r) = lastProcessedEpoch st
  /\ forall ref, hrBlock r = Some ref ->
       refSlot ref = slot /\ refHeader ref = header
       /\ lastHeadBlock (hrState r) = slot
       /\ lastHeadRoot (hrState r) = Root header.
Proof.
  intros Hr.
  destruct (processHeadBlock_cases _ _ _ _ _ _ Hr) as [[-> _]|[_ Hrec]].
  { simpl. split; [reflexivity|]. split; [reflexivity|]. intros ? [=]. }
  simpl in Hrec.
  destruct (reconcileHead_fields _ _ _ _ _ _ Hrec)
    as (_ & Hs & Hp & Hb & Hroot & Href & _).
  simpl in Hs, Hp.
  split; [exact Hs|]. split; [exact Hp|].
  intros ref Hx. rewrite Href in Hx. injection Hx as <-. simpl. tauto.
Qed.

(** [processHeadEpoch] followed by [processHeadBlock]. *)
Lemma processHead_returns fuel node st epoch slot header (body : Body)
    st' events blockInfo :
  processHead DependendRoot fuel node st epoch slot header body
  = Returned (st', events, blockInfo) ->
  lastProcessedEpoch st' = lastProcessedEpoch st
  /\ backfilledSlots events = []
  /\ (is_Some (epochStats st' !! epoch) \/ epoch < lastProcessedEpoch st)
  /\ forall ref, blockInfo = Some ref ->
       refSlot ref = slot /\ refHeader ref = header
       /\ lastHeadBlock st' = slot /\ lastHeadRoot st' = Root header.
Proof.
  unfold processHead. intros H.
  apply andThen_returns in H. destruct H as ([st1 loadStats] & He & H).
  destruct (processHeadBlock fuel st1 slot header body) as [r|] eqn:Hb;
    [|discriminate].
  injection H as <- <- <-.
  destruct (processHeadBlock_frame _ _ _ _ _ _ Hb) as (Hs & Hp & Href).
  assert (H1 : lastProcessedEpoch st1 = lastProcessedEpoch st
               /\ (is_Some (epochStats st1 !! epoch)
                   \/ epoch < lastProcessedEpoch st)).
  { destruct (processHeadEpoch_cases _ _ _ _ _ _ He)
      as [[-> ->]|(root & a & Hge & Hls & Hold & Hroot & Ha & ->)].
    - split; [reflexivity|].
      revert He. unfold processHeadEpoch.
      destruct (epochStats st !! epoch) as [old|] eqn:Hm; [eauto|].
      destruct (answer (GetEpochAssignments node epoch)) as [a|];
        [|discriminate].
      unfold newEpochStats. rewrite Hm.
      destruct (Z.ltb_spec epoch (lastProcessedEpoch st)); [tauto|].
      unfold publishAssignments. simpl. rewrite lookup_insert_eq.
      intros [= _ Hx].
    - simpl. split; [reflexivity|]. left. rewrite lookup_insert_eq. eauto. }
  destruct H1 as [H1 H2].
  split; [congruence|].
  split; [destruct loadStats; reflexivity|].
  split; [rewrite Hs; exact H2|exact Href].
Qed.

Lemma pollBackfillBlock_returns fuel cfg node st slot st' events res :
  pollBackfillBlock DependendRoot fuel cfg node st slot
  = Returned (st', events, res) ->
  lastProcessedEpoch st' = lastProcessedEpoch st
  /\ backfilledSlots events = [].
Proof.
  unfold pollBackfillBlock.
  destruct (failed (GetBlockHeaderBySlot node slot)).
  { intros [= <- <- <-]. split; reflexivity. }
  destruct (answer (GetBlockHeaderBySlot node slot)) as [header|].
  2: { intros [= <- <- <-]. split; reflexivity. }
  destruct (failed (GetBlockBodyByBlockroot node (Root header))).
  { intros [= <- <- <-]. split; reflexivity. }
  intros H. apply andThen_returns in H.
  destruct H as ([[st1 events1] blockInfo] & Hhead & [= <- <- <-]).
  destruct (processHead_returns _ _ _ _ _ _ _ _ _ _ Hhead) as (? & ? & _).
  tauto.
Qed.

Lemma backfillLoop_returns steps fuel cfg node headSlot backfillSlot st
    st' events :
  is_uint64 headSlot -> 0 <= backfillSlot ->
  backfillLoop DependendRoot steps fuel cfg node headSlot backfillSlot st
  = Returned (st', events) ->
  lastProcessedEpoch st' = lastProcessedEpoch st
  /\ backfilledSlots events = seqZ backfillSlot (headSlot - backfillSlot).
Proof.
  intros Hhead. revert backfillSlot st st' events.
  induction steps as [|steps IH]; intros backfillSlot st st' events Hb;
    simpl; [discriminate|].
  destruct (Z.ltb_spec backfillSlot headSlot) as [Hlt|Hge].
  - intros H. apply andThen_returns in H.
    destruct H as ([[st1 events1] res] & Hpoll & H).
    apply andThen_returns in H.
    destruct H as ([st2 events2] & Hloop & [= <- <-]).
    destruct (pollBackfillBlock_returns _ _ _ _ _ _ _ _ Hpoll) as [Hp1 He1].
    assert (Hw : wrap64 (backfillSlot + 1) = backfillSlot + 1).
    { apply wrap64_small. unfold is_uint64 in *. lia. }
    rewrite Hw in Hloop.
    assert (Hb' : 0 <= backfillSlot + 1) by lia.
    destruct (IH _ _ _ _ Hb' Hloop) as [Hp2 He2].
    split; [congruence|].
    unfold backfilledSlots in *. simpl. rewrite flat_map_app, He1, He2.
    simpl. rewrite (seqZ_cons backfillSlot) by lia.
    f_equal. f_equal; lia.
  - intros [= <- <-]. split; [reflexivity|].
    rewrite seqZ_nil by lia. reflexivity.
Qed.

(** The backfill as a whole. *)
Lemma backfill_gap steps fuel cfg node headSlot st st' events :
  is_uint64 headSlot -> is_uint64 (lastHeadBlock st) ->
  backfill DependendRoot steps fuel cfg node headSlot st
  = Returned (st', events) ->
  backfilledSlots events
  = seqZ (lastHeadBlock st + 1) (headSlot - lastHeadBlock st - 1)
  /\ lastProcessedEpoch st' = lastProcessedEpoch st.
Proof.
  intros Hhead Hlast. unfold backfill.
  destruct (Z.ltb_spec (lastHeadBlock st) (wrap64 (headSlot - 1)))
    as [Hlt|Hge].
  - pose proof (wrap64_range (headSlot - 1)) as Hr.
    assert (Hw : wrap64 (lastHeadBlock st + 1) = lastHeadBlock st + 1).
    { apply wrap64_small. unfold is_uint64 in *. lia. }
    rewrite Hw. intros H.
    assert (Hb : 0 <= lastHeadBlock st + 1)
      by (unfold is_uint64 in *; lia).
    destruct (backfillLoop_returns _ _ _ _ _ _ _ _ _ Hhead Hb H) as [Hp He].
    split; [|exact Hp]. rewrite He. f_equal. lia.
  - intros [= <- <-]. split; [|reflexivity].
    rewrite seqZ_nil; [reflexivity|].
    destruct (Z.eq_dec headSlot 0) as [->|Hne].
    + unfold is_uint64 in *. lia.
    + rewrite wrap64_small in Hge by (unfold is_uint64 in *; lia). lia.
Qed.

(** X15. [pollStreamedBlock], when it returns. With an error, nothing has
    happened: the state is untouched and no block is handed back. Without
    one, the header was fetched, the slots between [lastHeadBlock] and the
    block's slot have been backfilled in ascending order, and a block that
    is handed back sits under the slot of its header and is the new head.
    [lastProcessedEpoch] is never touched. *)
Theorem pollStreamedBlock_effect steps fuel cfg node st root
    st' events blockInfo err :
  is_uint64 (lastHeadBlock st) ->
  (forall header,
     answer (GetBlockHeaderByBlockroot node root) = Some header ->
     is_uint64 (Slot header)) ->
  pollStreamedBlock DependendRoot steps fuel cfg node st root
  = Returned (st', events, (blockInfo, err)) ->
  lastProcessedEpoch st' = lastProcessedEpoch st
  /\ (err = true -> st' = st /\ events = [] /\ blockInfo = None)
  /\ (err = false ->
      exists header,
        answer (GetBlockHeaderByBlockroot node root) = Some header
        /\ backfilledSlots events
           = seqZ (lastHeadBlock st + 1)
               (Slot header - lastHeadBlock st - 1)
        /\ forall ref, blockInfo = Some ref ->
             refSlot ref = Slot header /\ refHeader ref = header
             /\ lastHeadBlock st' = Slot header
             /\ lastHeadRoot st' = Root header).
Proof.
  intros Hlast Hslot. unfold pollStreamedBlock.
  destruct (failed (GetBlockHeaderByBlockroot node root)).
  { intros [= <- <- <- <-]. split; [reflexivity|].
    split; [tauto|discriminate]. }
  destruct (answer (GetBlockHeaderByBlockroot node root)) as [header|];
    [|discriminate].
  specialize (Hslot header eq_refl).
  destruct (failed (GetBlockBodyByBlockroot node (Root header))).
  { intros [= <- <- <- <-]. split; [reflexivity|].
    split; [tauto|discriminate]. }
  intros H. apply andThen_returns in H.
  destruct H as ([st1 events1] & Hfill & H).
  destruct (processHeadBlock fuel st1 (Slot header) header
              (answer (GetBlockBodyByBlockroot node (Root header))))
    as [r|] eqn:Hb; [|discriminate].
  injection H as <- <- <- <-.
  destruct (backfill_gap _ _ _ _ _ _ _ _ Hslot Hlast Hfill) as [Hev Hp1].
  destruct (processHeadBlock_frame _ _ _ _ _ _ Hb) as (_ & Hp & Href).
  split; [congruence|]. split; [discriminate|].
  intros _. exists header. split; [reflexivity|].
  split; [exact Hev|exact Href].
Qed.

(** X16. [pollHeadBlock], when it returns. With an error, or when the
    node's head is still [lastHeadRoot], nothing has happened. Otherwise
    the slots between [lastHeadBlock] and the head's slot have been
    backfilled in ascending order, and the epoch of the head has stats
    unless it lies behind [lastProcessedEpoch]. [lastProcessedEpoch] is
    never touched. *)
Theorem pollHeadBlock_effect steps fuel cfg node st st' events err :
  is_uint64 (lastHeadBlock st) ->
  (forall header,
     answer (GetLatestBlockHead node) = Some header ->
     is_uint64 (Slot header)) ->
  pollHeadBlock DependendRoot steps fuel cfg node st
  = Returned (st', events, err) ->
  lastProcessedEpoch st' = lastProcessedEpoch st
  /\ (err = true -> st' = st /\ events = [])
  /\ (err = false ->
      exists header,
        answer (GetLatestBlockHead node) = Some header
        /\ if bytes_Equal (Root header) (lastHeadRoot st)
           then st' = st /\ events = []
           else
             backfilledSlots events
             = seqZ (lastHeadBlock st + 1)
                 (Slot header - lastHeadBlock st - 1)
             /\ (is_Some (epochStats st' !! EpochOfSlot cfg (Slot header))
                 \/ EpochOfSlot cfg (Slot header) < lastProcessedEpoch st)).
Proof.
  intros Hlast Hslot. unfold pollHeadBlock.
  destruct (failed (GetLatestBlockHead node)).
  { intros [= <- <- <-]. split; [reflexivity|].
    split; [tauto|discriminate]. }
  destruct (answer (GetLatestBlockHead node)) as [header|]; [|discriminate].
  specialize (Hslot header eq_refl).
  destruct (bytes_Equal (Root header) (lastHeadRoot st)) eqn:Hsame.
  { intros [= <- <- <-]. split; [reflexivity|].
    split; [discriminate|]. intros _. exists header.
    rewrite Hsame. tauto. }
  destruct (failed (GetBlockBodyByBlockroot node (Root header))).
  { intros [= <- <- <-]. split; [reflexivity|].
    split; [tauto|discriminate]. }
  intros H. apply andThen_returns in H.
  destruct H as ([st1 events1] & Hfill & H).
  apply andThen_returns in H.
  destruct H as ([[st2 events2] blockInfo] & Hhead & [= <- <- <-]).
  destruct (backfill_gap _ _ _ _ _ _ _ _ Hslot Hlast Hfill) as [Hev Hp1].
  destruct (processHead_returns _ _ _ _ _ _ _ _ _ _ Hhead)
    as (Hp2 & Hev2 & Hstats & _).
  split; [congruence|]. split; [discriminate|].
  intros _. exists header. rewrite Hsame.
  split; [reflexivity|]. split.
  - unfold backfilledSlots in *. rewrite flat_map_app, Hev, Hev2.
    apply app_nil_r.
  - rewrite <- Hp1. exact Hstats.
Qed.

(** ** Loading the validator set *)

Context (DependendState : EpochAssignments -> string).

(** The latch is released by every [loadEpochStats] that returns. *)
Lemma loadEpochStats_returns node headValidatorsSlot epoch stats stats' hv :
  loadEpochStats DependendState node headValidatorsSlot epoch stats
  = Returned (stats', hv) ->
  exists a validators,
    Assignments stats = Some a
    /\ ValidatorsMutex validators = Locked
    /\ stats' = set_Validators (unlockValidators validators) stats
    /\ (if failed (GetStateValidators node (DependendState a))
        then validators = Validators stats /\ hv = None
        else exists data,
               answer (GetStateValidators node (DependendState a)) = Some data
               /\ validators = fold_left addValidator data (Validators stats)
               /\ hv = if headValidatorsSlot <? epoch then Some data
                       else None).
Proof.
  unfold loadEpochStats.
  destruct (Assignments stats) as [a|]; [|discriminate].
  destruct (failed (GetStateValidators node (DependendState a))) eqn:Hf.
  - simpl.
    destruct (ValidatorsMutex (Validators stats)) eqn:Hl; [discriminate|].
    intros [= <- <-]. exists a, (Validators stats). rewrite Hf.
    split; [reflexivity|]. split; [exact Hl|].
    split; [reflexivity|]. split; reflexivity.
  - destruct (answer (GetStateValidators node (DependendState a)))
      as [data|] eqn:Hd; [|discriminate].
    simpl.
    destruct (ValidatorsMutex (fold_left addValidator data (Validators stats)))
      eqn:Hl; [discriminate|].
    intros [= <- <-].
    exists a, (fold_left addValidator data (Validators stats)).
    rewrite Hf, Hd.
    split; [reflexivity|]. split; [exact Hl|].
    split; [reflexivity|]. exists data.
    split; [reflexivity|]. split; reflexivity.
Qed.

Lemma wrap64_add_l a b : wrap64 (wrap64 a + b) = wrap64 (a + b).
Proof. unfold wrap64. apply Z.add_mod_idemp_l. discriminate. Qed.

(** The loop over [epochValidators.Data] as a whole. *)
Lemma fold_addValidator data (ev : EpochValidators) :
  is_uint64 (ValidatorCount ev) -> is_uint64 (EligibleAmount ev) ->
  let ev' := fold_left addValidator data ev in
  ValidatorsMutex ev' = ValidatorsMutex ev
  /\ ValidatorCount ev'
     = wrap64 (ValidatorCount ev + Z.of_nat (length (activeOngoing data)))
  /\ EligibleAmount ev'
     = wrap64 (EligibleAmount ev + totalBalance (activeOngoing data))
  /\ forall index,
       ValidatorBalances ev' !! index
       = match lastBalance index data with
         | Some balance => Some balance
         | None => ValidatorBalances ev !! index
         end.
Proof.
  revert ev.
  induction data as [|v rest IH]; intros ev Hc He; simpl.
  - split; [reflexivity|].
    split; [rewrite Z.add_0_r, wrap64_small; [reflexivity|exact Hc]|].
    split; [rewrite Z.add_0_r, wrap64_small; [reflexivity|exact He]|].
    reflexivity.
  - assert (H1 : is_uint64 (ValidatorCount (addValidator ev v))
                 /\ is_uint64 (EligibleAmount (addValidator ev v))).
    { unfold addValidator.
      destruct (String.eqb (Status v) "active_ongoing"); simpl;
        split; try assumption; apply wrap64_range. }
    destruct (IH (addValidator ev v) (proj1 H1) (proj2 H1))
      as (Hm & Hcount & Helig & Hbal).
    unfold activeOngoing in *. simpl.
    split; [rewrite Hm; unfold addValidator;
            destruct (String.eqb (Status v) "active_ongoing"); reflexivity|].
    split; [|split].
    + rewrite Hcount. unfold addValidator.
      destruct (String.eqb (Status v) "active_ongoing"); simpl;
        [|reflexivity].
      rewrite wrap64_add_l. f_equal. lia.
    + rewrite Helig. unfold addValidator.
      destruct (String.eqb (Status v) "active_ongoing"); simpl;
        [|reflexivity].
      rewrite wrap64_add_l. f_equal. unfold totalBalance. simpl. lia.
    + intros index. rewrite Hbal. unfold lastBalance. simpl.
      rewrite find_app_first.
      destruct (find (fun v0 => Index v0 =? index) (rev rest)) as [w|];
        simpl; [reflexivity|].
      assert (Hb : ValidatorBalances (addValidator ev v)
                   = <[Index v := EffectiveBalance v]> (ValidatorBalances ev)).
      { unfold addValidator.
        destruct (String.eqb (Status v) "active_ongoing"); reflexivity. }
      rewrite Hb.
      destruct (Z.eqb_spec (Index v) index) as [->|Hne]; simpl.
      * apply lookup_insert_eq.
      * apply lookup_insert_ne. exact Hne.
Qed.

(** X17. What [loadEpochStats] computes when the node hands back the
    validator set: every validator's effective balance is recorded under
    its index (the last entry wins), validators with status
    ["active_ongoing"] are counted and their effective balances added up,
    both in [uint64], and the validators latch is released. Nothing else of
    the [EpochStats] changes; the set becomes [headValidators] when the
    epoch is above [headValidatorsSlot]. *)
Theorem loadEpochStats_counts node headValidatorsSlot epoch stats a data :
  Assignments stats = Some a ->
  GetStateValidators node (DependendState a) = mkAnswer (Some data) false ->
  ValidatorsMutex (Validators stats) = Locked ->
  is_uint64 (ValidatorCount (Validators stats)) ->
  is_uint64 (EligibleAmount (Validators stats)) ->
  exists stats',
    loadEpochStats DependendState node headValidatorsSlot epoch stats
    = Returned (stats',
                if headValidatorsSlot <? epoch then Some data else None)
    /\ dependendRoot stats' = dependendRoot stats
    /\ AssignmentsMutex stats' = AssignmentsMutex stats
    /\ Assignments stats' = Assignments stats
    /\ ValidatorsMutex (Validators stats') = Unlocked
    /\ ValidatorCount (Validators stats')
       = wrap64 (ValidatorCount (Validators stats)
                 + Z.of_nat (length (activeOngoing data)))
    /\ EligibleAmount (Validators stats')
       = wrap64 (EligibleAmount (Validators stats)
                 + totalBalance (activeOngoing data))
    /\ forall index,
         ValidatorBalances (Validators stats') !! index
         = match lastBalance index data with
           | Some balance => Some balance
           | None => ValidatorBalances (Validators stats) !! index
           end.
Proof.
  intros Ha Hnode Hlock Hc He.
  destruct (fold_addValidator data (Validators stats) Hc He)
    as (Hm & Hcount & Helig & Hbal).
  unfold loadEpochStats. rewrite Ha, Hnode. simpl.
  rewrite Hm, Hlock.
  eexists. split; [reflexivity|]. simpl.
  split; [reflexivity|]. split; [reflexivity|].
  split; [first [reflexivity|exact Ha]|]. split; [reflexivity|].
  split; [exact Hcount|]. split; [exact Helig|exact Hbal].
Qed.

(** X18. A [loadEpochStats] that returns was started with the validators
    latch held and has released it, and has touched nothing of the
    [EpochStats] besides the validator set. When the node failed to hand
    back the validators, the counters and balances are as they were and
    [headValidators] is not assigned; it is assigned only for an epoch above
    [headValidatorsSlot]. *)
Theorem loadEpochStats_releases node headValidatorsSlot epoch stats stats' hv :
  loadEpochStats DependendState node headValidatorsSlot epoch stats
  = Returned (stats', hv) ->
  ValidatorsMutex (Validators stats) = Locked
  /\ ValidatorsMutex (Validators stats') = Unlocked
  /\ dependendRoot stats' = dependendRoot stats
  /\ AssignmentsMutex stats' = AssignmentsMutex stats
  /\ Assignments stats' = Assignments stats
  /\ (forall a, Assignments stats = Some a ->
        failed (GetStateValidators node (DependendState a)) = true ->
        hv = None
        /\ ValidatorCount (Validators stats')
           = ValidatorCount (Validators stats)
        /\ EligibleAmount (Validators stats')
           = EligibleAmount (Validators stats)
        /\ ValidatorBalances (Validators stats')
           = ValidatorBalances (Validators stats))
  /\ (is_Some hv -> headValidatorsSlot < epoch).
Proof.
  intros H.
  destruct (loadEpochStats_returns _ _ _ _ _ _ H)
    as (a & validators & Ha & Hl & -> & Hrest).
  simpl.
  assert (Hmutex : ValidatorsMutex validators
                   = ValidatorsMutex (Validators stats)).
  { destruct (failed (GetStateValidators node (DependendState a))).
    - destruct Hrest as [-> _]. reflexivity.
    - destruct Hrest as (data & _ & -> & _).
      clear. generalize (Validators stats).
      induction data as [|v rest IH]; intros ev; simpl; [reflexivity|].
      rewrite IH. unfold addValidator.
      destruct (String.eqb (Status v) "active_ongoing"); reflexivity. }
  split; [rewrite <- Hmutex; exact Hl|].
  repeat (split; [reflexivity|]).
  split.
  - intros a' Ha' Hf. rewrite Ha in Ha'. injection Ha' as <-.
    rewrite Hf in Hrest. destruct Hrest as [-> ->]. repeat split.
  - intros [data Hd]. subst hv.
    destruct (failed (GetStateValidators node (DependendState a))).
    + destruct Hrest as [_ [=]].
    + destruct Hrest as (data' & _ & _ & Hhv).
      destruct (Z.ltb_spec headValidatorsSlot epoch); [assumption|].
      discriminate.
Qed.

(** X19. An epoch whose stats [processHeadEpoch] has just created cannot be
    processed before its loader is done: [processEpoch] waits on the
    validators latch. Once a [loadEpochStats] run on that entry has
    returned, whether the node answered or not, [processEpoch] on the
    entry it leaves neither waits nor fails. *)
Theorem fresh_epoch_waits_for_loader node st epoch dependentRoot st'
    fuel cfg icfg db :
  processHeadEpoch DependendRoot node st epoch dependentRoot
  = Returned (st', true) ->
  processEpoch fuel cfg icfg db st' epoch = Blocked
  /\ exists stats,
       epochStats st' !! epoch = Some stats
       /\ forall headValidatorsSlot stats' hv,
            loadEpochStats DependendState node headValidatorsSlot epoch stats
            = Returned (stats', hv) ->
            let loaded :=
              set_epochStats (<[epoch := stats']> (epochStats st')) st' in
            processEpoch fuel cfg icfg db loaded epoch <> Blocked
            /\ processEpoch fuel cfg icfg db loaded epoch <> Panic.
Proof.
  intros H.
  destruct (processHeadEpoch_cases _ _ _ _ _ _ H)
    as [[_ [=]]|(root & a & Hge & Hls & Hold & Hroot & Ha & ->)].
  destruct (epochStats st !! epoch) as [old|]; [discriminate|].
  split.
  - unfold processEpoch. simpl. rewrite lookup_insert_eq. reflexivity.
  - eexists. split; [simpl; apply lookup_insert_eq|].
    intros hvs stats' hv Hload loaded.
    destruct (loadEpochStats_returns _ _ _ _ _ _ Hload)
      as (a' & validators & _ & _ & -> & _).
    subst loaded. unfold processEpoch. simpl. rewrite lookup_insert_eq.
    simpl.
    destruct (epochTargetLoop _ _ _ _ _) as [[target|]|];
      [destruct (reachesSummary _ _);
         [destruct (orphanedLogLoop _ _ _)|]| |];
      split; discriminate.
Qed.

End NodeFacts.

(** ** The fork-gated duty getters *)

Section RpcFacts.

Context {ProposerDuties SyncCommittee StateRef Cause : Type}.

(** C8, as the code has it. At or after a configured Whisk fork epoch,
    [GetProposerDuties] returns the sentinel (nil duties, nil error)
    whatever the node would answer. Before the Altair fork epoch,
    [GetSyncCommitteeDuties] returns nil duties with the error "cannot get
    sync committee duties for epoch before altair", whatever the provider
    is: an error, not the sentinel. *)
Theorem duty_getters_outside_fork_range (cfg : ChainConfig)
    (getJson : Z -> Cause + ProposerDuties)
    (provider : option (StateRef -> Z -> option SyncCommittee * option Cause))
    (stateRef : StateRef) (epoch : Z) :
  (forall whisk, WhiskForkEpoch cfg = Some whisk -> whisk <= epoch ->
     Rpc.GetProposerDuties cfg getJson epoch = Rpc.sentinel)
  /\ (epoch < AltairForkEpoch cfg ->
      Rpc.GetSyncCommitteeDuties cfg provider stateRef epoch
      = (None, Some (Rpc.ErrBeforeAltair epoch))
      /\ Rpc.isError (Rpc.GetSyncCommitteeDuties cfg provider stateRef epoch)
         = true
      /\ Rpc.GetSyncCommitteeDuties cfg provider stateRef epoch
         <> Rpc.sentinel).
Proof.
  split.
  - intros whisk Hw Hle. unfold Rpc.GetProposerDuties. rewrite Hw.
    destruct (Z.leb_spec whisk epoch); [reflexivity|lia].
  - intros Hlt.
    assert (E : Rpc.GetSyncCommitteeDuties cfg provider stateRef epoch
                = (None, Some (Rpc.ErrBeforeAltair epoch))).
    { unfold Rpc.GetSyncCommitteeDuties.
      destruct (Z.ltb_spec epoch (AltairForkEpoch cfg)); [reflexivity|lia]. }
    rewrite E. split; [reflexivity|].
    split; [reflexivity|discriminate].
Qed.

(** X20. [GetProposerDuties] yields the sentinel (nil duties, nil error)
    only for an epoch at or after a configured Whisk fork epoch. For every
    other epoch it passes on what the round trip to the node gave: the
    duties without an error, or an error without duties. *)
Theorem GetProposerDuties_sentinel_iff (cfg : ChainConfig)
    (getJson : Z -> Cause + ProposerDuties) (epoch : Z) :
  (Rpc.GetProposerDuties cfg getJson epoch = Rpc.sentinel <->
   exists whisk, WhiskForkEpoch cfg = Some whisk /\ whisk <= epoch)
  /\ (Rpc.GetProposerDuties cfg getJson epoch <> Rpc.sentinel ->
      Rpc.GetProposerDuties cfg getJson epoch
      = match getJson epoch with
        | inl err => (None, Some (Rpc.ErrRetrievingProposerDuties err))
        | inr duties => (Some duties, None)
        end).
Proof.
  unfold Rpc.GetProposerDuties, Rpc.sentinel.
  destruct (WhiskForkEpoch cfg) as [whisk|].
  - destruct (Z.leb_spec whisk epoch) as [Hle|Hgt].
    + split; [|intros H; contradiction].
      split; [intros _; exists whisk; split; [reflexivity|exact Hle]|].
      reflexivity.
    + split; [|reflexivity].
      split; [destruct (getJson epoch); discriminate|].
      intros (w & [= <-] & Hle). lia.
  - split; [|reflexivity].
    split; [destruct (getJson epoch); discriminate|].
    intros (w & [=] & _).
Qed.

(** X21. [GetSyncCommitteeDuties] looks at the error of the provider's
    answer and at nothing else. It yields the sentinel (nil, nil) exactly
    when, for an epoch from the Altair fork epoch on and a client service
    that is a sync committee provider, the provider itself answered
    (nil, nil). It yields an error exactly before the Altair fork epoch,
    without a provider, or when the provider answered with an error, and
    then without a sync committee. A sync committee comes back only from
    the Altair fork epoch on and is the one the provider returned, without
    an error, for the state and the epoch. *)
Theorem GetSyncCommitteeDuties_sentinel_iff (cfg : ChainConfig)
    (provider : option (StateRef -> Z -> option SyncCommittee * option Cause))
    (stateRef : StateRef) (epoch : Z) :
  let r := Rpc.GetSyncCommitteeDuties cfg provider stateRef epoch in
  (r = Rpc.sentinel <->
   AltairForkEpoch cfg <= epoch
   /\ exists syncCommitteeAtEpoch,
        provider = Some syncCommitteeAtEpoch
        /\ syncCommitteeAtEpoch stateRef epoch = (None, None))
  /\ (Rpc.isError r = true <->
      epoch < AltairForkEpoch cfg
      \/ provider = None
      \/ exists syncCommitteeAtEpoch cause,
           provider = Some syncCommitteeAtEpoch
           /\ snd (syncCommitteeAtEpoch stateRef epoch) = Some cause)
  /\ (Rpc.isError r = true -> fst r = None)
  /\ (forall result, fst r = Some result ->
        AltairForkEpoch cfg <= epoch
        /\ exists syncCommitteeAtEpoch,
             provider = Some syncCommitteeAtEpoch
             /\ syncCommitteeAtEpoch stateRef epoch = (Some result, None)).
Proof.
  unfold Rpc.GetSyncCommitteeDuties, Rpc.sentinel, Rpc.isError.
  destruct (Z.ltb_spec epoch (AltairForkEpoch cfg)) as [Hlt|Hge]; simpl.
  { split; [split; [discriminate|intros [Hge _]; lia]|].
    split; [split; [intros _; left; exact Hlt|reflexivity]|].
    split; [reflexivity|intros ? [=]]. }
  destruct provider as [syncCommitteeAtEpoch|]; simpl.
  - destruct (syncCommitteeAtEpoch stateRef epoch) as [result [cause|]]
      eqn:Hp; simpl.
    + split.
      { split; [discriminate|].
        intros (_ & f & [= <-] & Hf). rewrite Hp in Hf. discriminate Hf. }
      split.
      { split; [|reflexivity]. intros _. right. right.
        exists syncCommitteeAtEpoch, cause. rewrite Hp. split; reflexivity. }
      split; [reflexivity|intros ? [=]].
    + split.
      { split.
        - intros [= ->]. split; [lia|]. eauto.
        - intros (_ & f & [= <-] & Hf). rewrite Hp in Hf.
          injection Hf as ->. reflexivity. }
      split.
      { split; [discriminate|].
        intros [Hlt|[[=]|(f & cause & [= <-] & Hf)]]; [lia|].
        rewrite Hp in Hf. discriminate Hf. }
      split; [discriminate|].
      intros ? ->. split; [lia|]. eauto.
  - split.
    { split; [discriminate|]. intros (_ & f & [=] & _). }
    split; [split; [intros _; right; left; reflexivity|reflexivity]|].
    split; [reflexivity|intros ? [=]].
Qed.

End RpcFacts.

(** * The validator slots page *)

Section PageFacts.

Context {Time Float32 Float64 : Type}.
Context (SlotToTime : Z -> Time) (toPercent : Float32 -> Float64)
        (zeroFloat : Float64).

(** The loop over the rows: it appends one entry per row until [idx]
    reaches the page size, and sets [haveMore] when a row is left. *)
Lemma slotLoop_spec cfg finalizedEpoch validator name pageSize idx
    (dbBlocks : list (handlers.AssignedBlock Float32)) :
  let room := Z.to_nat (pageSize - Z.of_nat idx) in
  handlers.slotLoop SlotToTime toPercent zeroFloat cfg finalizedEpoch
    validator name pageSize idx dbBlocks
  = (map (handlers.slotData SlotToTime toPercent zeroFloat cfg finalizedEpoch
            validator name) (take room dbBlocks),
     (room <? length dbBlocks)%nat).
Proof.
  revert idx.
  induction dbBlocks as [|row rest IH]; intros idx; simpl.
  - rewrite take_nil. reflexivity.
  - destruct (Z.leb_spec pageSize (Z.of_nat idx)) as [Hle|Hgt].
    + replace (Z.to_nat (pageSize - Z.of_nat idx)) with 0%nat by lia.
      reflexivity.
    + rewrite IH.
      replace (Z.to_nat (pageSize - Z.of_nat idx))
        with (S (Z.to_nat (pageSize - Z.of_nat (S idx)))) by lia.
      reflexivity.
Qed.

Lemma slotData_Slot cfg finalizedEpoch validator name
    (row : handlers.AssignedBlock Float32) :
  models.Slot (handlers.slotData SlotToTime toPercent zeroFloat cfg
                 finalizedEpoch validator name row)
  = handlers.Slot row.
Proof. unfold handlers.slotData. destruct (handlers.Block row); reflexivity. Qed.

(** X22. The page [buildValidatorSlotsPageData] builds. The page size is
    capped at 100; the page shows the first [PageSize] rows the database
    handed back, in their order, so never more than 100; a next page is
    offered exactly when a row was left over, and then counts in
    [TotalPages]. With a page size of 0 the page is empty and still offers
    a next page whenever the database handed back a row. *)
Theorem page_window cfg (service : handlers.BeaconService Float32)
    validator pageIdx pageSize :
  0 <= pageSize ->
  let page :=
    handlers.buildValidatorSlotsPageData SlotToTime toPercent zeroFloat cfg
      service validator pageIdx pageSize in
  let size := Z.min pageSize 100 in
  let rows := handlers.GetDbBlocksByFilter service validator pageIdx size in
  let more := size <? Z.of_nat (length rows) in
  models.PageSize page = size
  /\ models.Slots page
     = map (handlers.slotData SlotToTime toPercent zeroFloat cfg
              (handlers.GetFinalizedEpoch service) validator
              (handlers.GetValidatorName service validator))
         (take (Z.to_nat size) rows)
  /\ models.SlotCount page = Z.min size (Z.of_nat (length rows))
  /\ models.SlotCount page <= 100
  /\ models.NextPageIndex page = (if more then wrap64 (pageIdx + 1) else 0)
  /\ models.NextPageSlot page = models.NextPageIndex page
  /\ models.TotalPages page
     = (if more then wrap64 (wrap64 (pageIdx + 1) + 1)
        else wrap64 (pageIdx + 1))
  /\ models.FirstSlot page
     = match take (Z.to_nat size) rows with
       | row :: _ => handlers.Slot row
       | [] => 0
       end
  /\ models.LastSlot page
     = match last (take (Z.to_nat size) rows) with
       | Some row => handlers.Slot row
       | None => 0
       end.
Proof.
  intros Hsize page size rows more.
  assert (Hcap : (if 100 <? pageSize then 100 else pageSize) = size).
  { subst size. destruct (Z.ltb_spec 100 pageSize); lia. }
  subst page. unfold handlers.buildValidatorSlotsPageData.
  rewrite Hcap. fold rows. rewrite slotLoop_spec.
  replace (Z.to_nat (size - Z.of_nat 0)) with (Z.to_nat size) by lia.
  assert (Hmore : (Z.to_nat size <? length rows)%nat = more).
  { subst more.
    destruct (Nat.ltb_spec (Z.to_nat size) (length rows));
      destruct (Z.ltb_spec size (Z.of_nat (length rows))); lia. }
  rewrite Hmore. clearbody more. simpl.
  assert (Hlen : Z.of_nat (length (take (Z.to_nat size) rows))
                 = Z.min size (Z.of_nat (length rows))).
  { rewrite length_take. lia. }
  split; [reflexivity|]. split; [reflexivity|].
  rewrite length_map, Hlen.
  split; [reflexivity|]. split; [lia|].
  split; [reflexivity|]. split; [reflexivity|]. split; [reflexivity|].
  split.
  - destruct (take (Z.to_nat size) rows); simpl;
      [reflexivity|apply slotData_Slot].
  - match goal with
    | |- context [last (map ?f ?l)] =>
        change (map f l) with (f <$> l); rewrite (fmap_last f l)
    end.
    destruct (last (take (Z.to_nat size) rows)); simpl;
      [apply slotData_Slot|reflexivity].
Qed.

(** X23. The entries of the page. Each stands for one of the rows, with the
    slot of the row and its epoch, the validator as proposer, and a status
    that is 0 exactly for a row without block, 2 exactly for a block whose
    [Orphaned] is 1, and 1 for any other block; [WithEthBlock] is set
    exactly when the block has an execution block number. *)
Theorem page_slots cfg (service : handlers.BeaconService Float32)
    validator pageIdx pageSize entry :
  let page :=
    handlers.buildValidatorSlotsPageData SlotToTime toPercent zeroFloat cfg
      service validator pageIdx pageSize in
  let rows :=
    handlers.GetDbBlocksByFilter service validator pageIdx
      (if 100 <? pageSize then 100 else pageSize) in
  In entry (models.Slots page) ->
  exists row,
    In row rows
    /\ models.Slot entry = handlers.Slot row
    /\ models.Epoch entry = EpochOfSlot cfg (handlers.Slot row)
    /\ models.Proposer entry = validator
    /\ models.ProposerName entry = handlers.GetValidatorName service validator
    /\ models.Finalized entry
       = (handlers.toInt64 (EpochOfSlot cfg (handlers.Slot row))
          <=? handlers.GetFinalizedEpoch service)
    /\ match handlers.Block row with
       | None => models.Status entry = 0 /\ models.WithEthBlock entry = false
       | Some dbBlock =>
           models.Status entry
           = (if dbtypes.Orphaned dbBlock =? 1 then 2 else 1)
           /\ models.BlockRoot entry = dbtypes.Root dbBlock
           /\ (models.WithEthBlock entry = true <->
               is_Some (dbtypes.EthBlockNumber dbBlock))
       end.
Proof.
  intros page rows. subst page.
  unfold handlers.buildValidatorSlotsPageData. fold rows.
  rewrite slotLoop_spec. cbv beta iota zeta.
  cbn [models.Slots]. intros Hin. apply in_map_iff in Hin. destruct Hin as (row & <- & Hrow).
  exists row. split.
  { match type of Hrow with
    | In _ (take ?n _) => rewrite <- (take_drop n rows)
    end.
    apply in_or_app. left. exact Hrow. }
  unfold handlers.slotData.
  destruct (handlers.Block row) as [dbBlock|]; simpl.
  - do 5 (split; [reflexivity|]).
    split; [reflexivity|]. split; [reflexivity|].
    destruct (dbtypes.EthBlockNumber dbBlock).
    + split; [intros _; eauto|reflexivity].
    + split; [discriminate|intros [? [=]]].
  - do 5 (split; [reflexivity|]). split; reflexivity.
Qed.

End PageFacts.

(** ** The validators-ready latch *)

Lemma Latch_run_app schedule1 schedule2 s :
  Latch.run (schedule1 ++ schedule2) s
  = Latch.run schedule2 (Latch.run schedule1 s).
Proof.
  revert s. induction schedule1 as [|g rest IH]; intros s; simpl;
    [reflexivity|apply IH].
Qed.

Lemma Latch_deadlocked_stays s :
  Latch.deadlocked s = true -> forall schedule, Latch.run schedule s = s.
Proof.
  intros Hd schedule.
  unfold Latch.deadlocked in Hd.
  apply andb_true_iff in Hd. destruct Hd as [Hd Ha].
  apply andb_true_iff in Hd. destruct Hd as [_ Hl].
  apply negb_true_iff in Hl, Ha.
  assert (Hstep : forall g, Latch.step g s = s).
  { intros g. unfold Latch.step. destruct g; [rewrite Hl|rewrite Ha];
      reflexivity. }
  induction schedule as [|g rest IH]; simpl; [reflexivity|].
  rewrite Hstep. exact IH.
Qed.

(** Every schedule leads to one of the explored states. *)
Lemma Latch_reachable_closed fetchOk schedule :
  Latch.run schedule (Latch.start fetchOk) ∈ Latch.reachable fetchOk.
Proof.
  assert (Hstart : Latch.start fetchOk ∈ Latch.reachable fetchOk).
  { apply list_elem_of_In. destruct fetchOk; vm_compute; left; reflexivity. }
  assert (Hclosed : forall s g, s ∈ Latch.reachable fetchOk ->
                                Latch.step g s ∈ Latch.reachable fetchOk).
  { assert (Hb : forallb (fun s =>
                   forallb (fun g =>
                     bool_decide (Latch.step g s ∈ Latch.reachable fetchOk))
                     [Latch.Loader; Latch.Aggregator])
                   (Latch.reachable fetchOk) = true)
      by (destruct fetchOk; vm_compute; reflexivity).
    intros s g Hs. rewrite forallb_forall in Hb.
    specialize (Hb s (proj1 (list_elem_of_In _ _) Hs)).
    rewrite forallb_forall in Hb.
    assert (Hg : In g [Latch.Loader; Latch.Aggregator])
      by (destruct g; simpl; tauto).
    specialize (Hb g Hg). apply bool_decide_eq_true in Hb. exact Hb. }
  generalize (Latch.start fetchOk) Hstart.
  induction schedule as [|g rest IH]; intros s Hs; simpl; [exact Hs|].
  apply IH, Hclosed, Hs.
Qed.

(** X25. After a failed fetch no schedule leads to a deadlock: whatever has
    happened so far, giving both goroutines their turns lets both finish,
    and by then the loader has released the latch exactly once. The loader
    never releases it twice. *)
Lemma Latch_failed_fetch_never_blocks schedule :
  let s := Latch.run schedule (Latch.start false) in
  Latch.deadlocked s = false
  /\ (Latch.releases s <= 1)%nat
  /\ (Latch.loader s = [] -> Latch.releases s = 1%nat)
  /\ Latch.finished (Latch.run Latch.roundRobin s) = true.
Proof.
  intros s.
  assert (Hb : forallb (fun s =>
                 negb (Latch.deadlocked s)
                 && Nat.leb (Latch.releases s) 1
                 && (match Latch.loader s with
                     | [] => Nat.eqb (Latch.releases s) 1
                     | _ => true
                     end)
                 && Latch.finished (Latch.run Latch.roundRobin s))
                (Latch.reachable false) = true)
    by (vm_compute; reflexivity).
  rewrite forallb_forall in Hb.
  specialize (Hb s (proj1 (list_elem_of_In _ _)
                      (Latch_reachable_closed false schedule))).
  apply andb_true_iff in Hb. destruct Hb as [Hb Hfin].
  apply andb_true_iff in Hb. destruct Hb as [Hb Hone].
  apply andb_true_iff in Hb. destruct Hb as [Hdead Hle].
  split; [apply negb_true_iff, Hdead|].
  split; [apply Nat.leb_le, Hle|].
  split; [|exact Hfin].
  intros Hl. rewrite Hl in Hone. apply Nat.eqb_eq, Hone.
Qed.

(** On either path the loader releases the latch at most once, and exactly
    once if it runs to its end. *)
Lemma Latch_released_once fetchOk schedule :
  let s := Latch.run schedule (Latch.start fetchOk) in
  (Latch.releases s <= 1)%nat
  /\ (Latch.loader s = [] -> Latch.releases s = 1%nat).
Proof.
  intros s.
  assert (Hb : forallb (fun s =>
                 Nat.leb (Latch.releases s) 1
                 && (match Latch.loader s with
                     | [] => Nat.eqb (Latch.releases s) 1
                     | _ => true
                     end))
                (Latch.reachable fetchOk) = true)
    by (destruct fetchOk; vm_compute; reflexivity).
  rewrite forallb_forall in Hb.
  specialize (Hb s (proj1 (list_elem_of_In _ _)
                      (Latch_reachable_closed fetchOk schedule))).
  apply andb_true_iff in Hb. destruct Hb as [Hle Hone].
  split; [apply Nat.leb_le, Hle|].
  intros Hl. rewrite Hl in Hone. apply Nat.eqb_eq, Hone.
Qed.

(** C7 on the code. When [processEpoch] has taken the cache read lock and
    waits on the latch, a fetch that succeeds makes the loader wait for the
    cache write lock: neither goroutine can move, the latch is still locked
    and has not been released, and no schedule changes that. *)
Theorem Latch_successful_fetch_deadlocks :
  let s := Latch.run [Latch.Aggregator; Latch.Loader] (Latch.start true) in
  Latch.deadlocked s = true
  /\ Latch.aggregator s
     = [Latch.LatchLock; Latch.LatchUnlock; Latch.Work; Latch.CacheRUnlock]
  /\ Latch.loader s
     = [Latch.CacheLock; Latch.Work; Latch.CacheUnlock; Latch.LatchUnlock]
  /\ Latch.latchLocked (Latch.locks s) = true
  /\ Latch.releases s = 0%nat
  /\ forall schedule, Latch.run schedule s = s.
Proof.
  intros s.
  assert (Hd : Latch.deadlocked s = true) by (vm_compute; reflexivity).
  split; [exact Hd|].
  split; [reflexivity|]. split; [reflexivity|].
  split; [reflexivity|]. split; [reflexivity|].
  apply Latch_deadlocked_stays, Hd.
Qed.

(** ** The scenarios of the specification *)

(** C3. On a fresh indexer that followed a chain without gaps from slot
    [first] through slot 9: after A (slot 10, on the slot-9 block), B (slot
    10, same parent) and C (slot 11, on B), A is orphaned and B and C are
    not; after D (slot 12, on A), A and D are not orphaned and B and C are.
    The slot-9 block is canonical throughout. *)
Theorem reorg_scenarios_S3_S4 first :
  0 <= first <= 9 ->
  Scenario.flags (Scenario.afterS3 first) 10
  = Some [(Scenario.root 1, true); (Scenario.root 2, false)]
  /\ Scenario.flags (Scenario.afterS3 first) 11
     = Some [(Scenario.root 3, false)]
  /\ Scenario.flags (Scenario.afterS3 first) 9
     = Some [(Scenario.root 109, false)]
  /\ Scenario.flags (Scenario.afterS4 first) 10
     = Some [(Scenario.root 1, false); (Scenario.root 2, true)]
  /\ Scenario.flags (Scenario.afterS4 first) 11
     = Some [(Scenario.root 3, true)]
  /\ Scenario.flags (Scenario.afterS4 first) 12
     = Some [(Scenario.root 4, false)]
  /\ Scenario.flags (Scenario.afterS4 first) 9
     = Some [(Scenario.root 109, false)].
Proof.
  intros H.
  assert (Hc : first = 0 \/ first = 1 \/ first = 2 \/ first = 3 \/ first = 4
               \/ first = 5 \/ first = 6 \/ first = 7 \/ first = 8
               \/ first = 9) by lia.
  repeat (destruct Hc as [-> | Hc]); try subst first;
    vm_compute; repeat split; reflexivity.
Qed.

(** C2 on the code. A branch of depth two: A1 (slot 10) and A2 (slot 11, on
    A1) are orphaned by B (slot 12, on the slot-9 block), then D (slot 13,
    on A2) makes the branch canonical again. The walk clears the flag of the
    base A2 only: it steps over A1 on its way to the canonical slot-9 block
    and leaves A1 orphaned. *)
Theorem recanonicalization_skips_ancestor :
  Scenario.flags Scenario.deepOrphaned 10 = Some [(Scenario.root 1, true)]
  /\ Scenario.flags Scenario.deepOrphaned 11 = Some [(Scenario.root 2, true)]
  /\ Scenario.flags Scenario.deepOrphaned 12 = Some [(Scenario.root 3, false)]
  /\ Scenario.flags Scenario.deepRecanonicalized 9
     = Some [(Scenario.root 109, false)]
  /\ Scenario.flags Scenario.deepRecanonicalized 10
     = Some [(Scenario.root 1, true)]
  /\ Scenario.flags Scenario.deepRecanonicalized 11
     = Some [(Scenario.root 2, false)]
  /\ Scenario.flags Scenario.deepRecanonicalized 12
     = Some [(Scenario.root 3, true)]
  /\ Scenario.flags Scenario.deepRecanonicalized 13
     = Some [(Scenario.root 4, false)].
Proof. vm_compute. repeat split; reflexivity. Qed.

(** ** The loop around the re-canonicalization walk

    Each round of [for orphanedBlock.Orphaned] clears the flag of the block
    [orphanedBlock] points to and restarts the walk just below the base, not
    below that block. When the walk ends on an orphaned block whose parent
    is not cached, the next round clears its flag and the walk sets it
    again: the rounds repeat on the same cache, with a watermark of 20. *)

Lemma fixOrphaned_round {Body EpochAssignments : Type} rounds fuel baseSlot
    cur resync (st : @indexerState Body EpochAssignments) :
  fixOrphaned (S rounds) fuel baseSlot cur resync st
  = if refOrphaned st cur then
      match fixWalk fuel (wrap64 (baseSlot - 1)) cur
              (writeOrphaned false cur st) with
      | None => None
      | Some (st2, cur', found) =>
          fixOrphaned rounds fuel baseSlot cur'
            (if found then resync else true) st2
      end
    else Some (st, resync).
Proof. reflexivity. Qed.

Lemma spinning_round fuel :
  fixWalk (S (S fuel)) (wrap64 (21 - 1)) Scenario.spinningOn
    (writeOrphaned false Scenario.spinningOn Scenario.spinning)
  = Some (Scenario.spinning, Scenario.spinningOn, false).
Proof. vm_compute. reflexivity. Qed.

Lemma fixOrphaned_spins rounds :
  forall fuel resync,
    fixOrphaned rounds fuel 21 Scenario.spinningOn resync Scenario.spinning
    = None.
Proof.
  assert (Ho : refOrphaned Scenario.spinning Scenario.spinningOn = true)
    by (vm_compute; reflexivity).
  assert (H1 : fixWalk 1 (wrap64 (21 - 1)) Scenario.spinningOn
                 (writeOrphaned false Scenario.spinningOn Scenario.spinning)
               = None)
    by (vm_compute; reflexivity).
  induction rounds as [|rounds IH]; intros fuel resync; [reflexivity|].
  rewrite fixOrphaned_round, Ho.
  destruct fuel as [|[|fuel]].
  - reflexivity.
  - rewrite H1. reflexivity.
  - rewrite spinning_round. apply IH.
Qed.

Lemma recanonicalization_can_spin fuel :
  processHeadBlock fuel Scenario.missedParent 24 Scenario.returning tt = None.
Proof.
  destruct fuel as [|[|[|[|fuel]]]]; [vm_compute; reflexivity ..|].
  set (enough := S (S (S (S fuel)))).
  assert (Hfree : cachedBlocks Scenario.missedParent !! 24 = None)
    by (vm_compute; reflexivity).
  unfold processHeadBlock. rewrite Hfree. unfold reconcileHead.
  set (stored := set_cachedBlocks _ Scenario.missedParent).
  assert (Hlow : (lowestCachedSlot stored =? 0)
                 || (24 <? lowestCachedSlot stored) = false)
    by (vm_compute; reflexivity).
  rewrite Hlow.
  assert (Hreorg : negb (is_nil (lastHeadRoot stored))
                   && negb (bytes_Equal (lastHeadRoot stored)
                              (ParentRoot Scenario.returning)) = true)
    by (vm_compute; reflexivity).
  rewrite Hreorg.
  assert (Hsearch :
    reorgBaseSearch enough (Root Scenario.returning)
      (ParentRoot Scenario.returning) 24 stored
    = Some (Scenario.searched, Some Scenario.searchedBase))
    by (subst enough stored; vm_compute; reflexivity).
  rewrite Hsearch. cbn [refSlot Scenario.searchedBase].
  subst enough. rewrite fixOrphaned_round.
  assert (Ho : refOrphaned Scenario.searched Scenario.searchedBase = true)
    by (vm_compute; reflexivity).
  rewrite Ho.
  assert (Hwalk :
    fixWalk (S (S (S (S fuel)))) (wrap64 (21 - 1)) Scenario.searchedBase
      (writeOrphaned false Scenario.searchedBase Scenario.searched)
    = Some (Scenario.spinning, Scenario.spinningOn, false))
    by (vm_compute; reflexivity).
  rewrite Hwalk, fixOrphaned_spins. reflexivity.
Qed.

(** ** The statements at concrete inputs *)

Lemma processHeadBlock_idempotent_witness :
  exists r,
    processHeadBlock 64 Scenario.withA 10 Scenario.blockB tt = Some r
    /\ hrBlock r = Some (mkRef 10 1 Scenario.blockB)
    /\ processHeadBlock 0 (hrState r) 10 Scenario.blockB tt
       = Some (mkHeadResult (hrState r) None false).
Proof.
  eexists. split; [vm_compute; reflexivity|].
  split; [reflexivity|].
  apply (processHeadBlock_idempotent 64 Scenario.withA 10 Scenario.blockB tt).
  vm_compute. reflexivity.
Defined.

Lemma backward_walks_termination_witness :
  is_Some (reorgBaseSearch 64 (Scenario.root 2) (Scenario.root 109) 10
             Scenario.withA)
  /\ is_Some (fixWalk 64 9 (mkRef 10 0 Scenario.blockA) Scenario.withA)
  /\ match reorgBaseSearch 5 (Scenario.root 7) (Scenario.root 100) 0
             Scenario.genesisFork with
     | Some (_, base) => is_Some base
     | None => False
     end
  /\ match fixWalk 5 0 (mkRef 1 0 (Scenario.header 101 1 100))
             Scenario.genesisFork with
     | Some (_, _, found) => found = true
     | None => False
     end
  /\ reorgBaseSearch 1000 (Scenario.root 7) (Scenario.root 8) 0
       Scenario.genesisFork = None
  /\ fixWalk 1000 uint64_max (mkRef 0 0 (Scenario.header 100 0 99))
       Scenario.genesisFork = None.
Proof.
  destruct (@backward_walks_termination unit unit)
    as (T1 & T2 & _ & B1 & B2 & T3 & T4).
  assert (Hu : forall z, (0 <=? z) && (z <? uint64_modulus) = true ->
                         is_uint64 z).
  { intros z H. apply andb_true_iff in H. unfold is_uint64. lia. }
  split; [|split; [|split; [|split; [|split]]]].
  - apply T1; [vm_compute; discriminate | apply Hu; reflexivity |].
    vm_compute. lia.
  - apply T2; [vm_compute; discriminate | apply Hu; reflexivity |].
    vm_compute. lia.
  - destruct (reorgBaseSearch 5 (Scenario.root 7) (Scenario.root 100) 0
                Scenario.genesisFork) as [[st' base]|] eqn:E;
      [|vm_compute in E; discriminate E].
    apply (B1 _ _ 0 Scenario.genesisFork eq_refl (Hu 0 eq_refl) 5%nat st'
             base E).
  - destruct (fixWalk 5 0 (mkRef 1 0 (Scenario.header 101 1 100))
                Scenario.genesisFork) as [[[st' cur'] found]|] eqn:E;
      [|vm_compute in E; discriminate E].
    apply (B2 0 _ Scenario.genesisFork eq_refl (Hu 0 eq_refl) 5%nat st' cur'
             found E).
  - apply T3; [reflexivity | apply Hu; reflexivity | vm_compute; reflexivity].
  - apply T4; [reflexivity | apply Hu; reflexivity | vm_compute; reflexivity].
Defined.

(** C1 fails as stated: with no canonical block in the frontier epoch, and
    with a transaction that does not commit, [processIndexing] still moves
    [lastProcessedEpoch] from 0 to 1. *)
Lemma advancesOnlyOnSuccess_fails :
  ~ advancesOnlyOnSuccess 64 Scenario.mainnet (Scenario.delayOne false)
      Scenario.dbOk Scenario.emptyEpoch
  /\ ~ advancesOnlyOnSuccess 64 Scenario.mainnet (Scenario.delayOne true)
         Scenario.dbCommitFails Scenario.fullEpoch.
Proof.
  split; intros H.
  - assert (E : processIndexing 64 Scenario.mainnet (Scenario.delayOne false)
                  Scenario.dbOk Scenario.emptyEpoch
                = Returned (set_lastProcessedEpoch 1 Scenario.emptyEpoch,
                            [LogNoTarget 1]))
      by (vm_compute; reflexivity).
    specialize (H _ _ E). simpl in H.
    destruct H as [H|[]]; [discriminate|discriminate].
  - assert (E : processIndexing 64 Scenario.mainnet (Scenario.delayOne true)
                  Scenario.dbCommitFails Scenario.fullEpoch
                = Returned (set_lastProcessedEpoch 1 Scenario.fullEpoch,
                            [AggregateVotes 1 (Scenario.root 132); DbBegin;
                             DbPersist 1 true; DbSetSyncState 1 true;
                             DbCommitFailed; DbRollback]))
      by (vm_compute; reflexivity).
    specialize (H _ _ E). simpl in H.
    assert (Hne : 1 <> 0) by discriminate. specialize (H Hne).
    repeat (destruct H as [H|H]; [discriminate|]). exact H.
Defined.

Lemma processIndexing_advances_whatever_happened_witness :
  let st' := set_lastProcessedEpoch 1 Scenario.emptyEpoch in
  processIndexing 64 Scenario.mainnet (Scenario.delayOne false) Scenario.dbOk
    Scenario.emptyEpoch = Returned (st', [LogNoTarget 1])
  /\ lastProcessedEpoch st' = 1
  /\ forall fuel' db',
       processIndexing fuel' Scenario.mainnet (Scenario.delayOne false) db' st'
       = Returned (st', []).
Proof.
  apply (processIndexing_advances_whatever_happened 64 Scenario.mainnet
           (Scenario.delayOne false) Scenario.dbOk Scenario.emptyEpoch
           [LogNoTarget 1]).
  - vm_compute. reflexivity.
  - vm_compute. reflexivity.
Defined.


(** C6 fails as stated. With the watermark already on the threshold (slot
    96) the pass is skipped as a whole, and the stats of the epoch below the
    threshold (epoch 2) stay in the map with nothing handed back. And on a
    cache started at genesis the pass leaves the key of slot 0 in the map,
    below the threshold (slot 12). *)
Lemma cleanupPostcondition_fails :
  ~ (forall st' events,
       processCacheCleanup 8 Scenario.mainnet Scenario.keepOne
         Scenario.staleStats = Some (st', events) ->
       cleanupPostcondition Scenario.mainnet Scenario.keepOne
         Scenario.staleStats st' events)
  /\ ~ (forall st' events,
          processCacheCleanup 64 Scenario.chain4 Scenario.keepOne
            Scenario.fromGenesis = Some (st', events) ->
          cleanupPostcondition Scenario.chain4 Scenario.keepOne
            Scenario.fromGenesis st' events).
Proof.
  split; intros H.
  - assert (E : processCacheCleanup 8 Scenario.mainnet Scenario.keepOne
                  Scenario.staleStats = Some (Scenario.staleStats, []))
      by (vm_compute; reflexivity).
    destruct (H _ _ E) as (_ & _ & _ & Hgone & _).
    vm_compute in Hgone. discriminate.
  - destruct (processCacheCleanup 64 Scenario.chain4 Scenario.keepOne
                Scenario.fromGenesis) as [[st' events]|] eqn:E;
      [|vm_compute in E; discriminate E].
    destruct (H _ _ eq_refl) as (Hkeys & _).
    assert (H0 : is_Some (cachedBlocks st' !! 0)).
    { vm_compute in E. injection E as <- _. vm_compute. eauto. }
    specialize (Hkeys 0 H0). vm_compute in Hkeys. apply Hkeys. reflexivity.
Defined.

Lemma processCacheCleanup_effect_witness :
  exists st' events,
    processCacheCleanup 64 Scenario.mainnet Scenario.keepOne
      Scenario.dueForCleanup = Some (st', events)
    /\ lowestCachedSlot st' = 96
    /\ cachedBlocks st' !! 70 = None
    /\ is_Some (cachedBlocks st' !! 100)
    /\ epochStats st' !! 2 = None
    /\ is_Some (epochStats st' !! 3)
    /\ events = [AddCachedEpochAssignments 2 (Some tt)].
Proof.
  destruct (processCacheCleanup_effect 64 Scenario.mainnet Scenario.keepOne
              Scenario.dueForCleanup)
    as (st' & events & Hrun & _ & _ & _ & _ & Hevict & _).
  - vm_compute. split; [discriminate|reflexivity].
  - vm_compute. lia.
  - destruct (Hevict ltac:(vm_compute; reflexivity)) as (_ & _ & Hevents).
    exists st', events. rewrite Hrun.
    vm_compute in Hrun. injection Hrun as <- <-.
    split; [reflexivity|]. vm_compute.
    repeat split; eauto.
Defined.

(** A cache that was started at genesis keeps the block of slot 0 below the
    watermark (the second block moves [lowestCachedSlot] from 0 to 1), and
    the cleanup, which starts at the watermark, never deletes it; only
    [GetCachedBlocks] hides it. *)
Lemma cleanup_keeps_slot_below_watermark :
  exists st' events,
    lowestCachedSlot Scenario.fromGenesis = 1
    /\ processCacheCleanup 64 Scenario.chain4 Scenario.keepOne
         Scenario.fromGenesis = Some (st', events)
    /\ cleanThreshold Scenario.chain4 Scenario.keepOne Scenario.fromGenesis
       = 12
    /\ lowestCachedSlot st' = 12
    /\ is_Some (cachedBlocks st' !! 0)
    /\ GetCachedBlocks st' 0 = None.
Proof.
  eexists _, _.
  split; [vm_compute; reflexivity|].
  split; [vm_compute; reflexivity|].
  vm_compute. repeat split; eauto.
Qed.

Lemma epoch_target_first_canonical_witness :
  processEpoch 64 Scenario.mainnet (Scenario.delayOne false) Scenario.dbOk
    Scenario.reorgedEpoch 1
  = Returned [AggregateVotes 1 (Scenario.root 131); LogEpochSummary 1]
  /\ BuildLiveEpoch 64 Scenario.mainnet Scenario.reorgedEpoch 1
     = Returned (Some (Scenario.root 131))
  /\ processEpoch 64 Scenario.mainnet (Scenario.delayOne false) Scenario.dbOk
       Scenario.emptyEpoch 1
     = Returned [LogNoTarget 1]
  /\ BuildLiveEpoch 64 Scenario.mainnet Scenario.emptyEpoch 1 = Returned None.
Proof.
  destruct (epoch_target_first_canonical 64 Scenario.mainnet
              (Scenario.delayOne false) Scenario.dbOk Scenario.reorgedEpoch 1
              Scenario.readyStats)
    as (_ & Hp & _ & Hb & _);
    [vm_compute; reflexivity | vm_compute; lia | vm_compute; reflexivity|].
  destruct (epoch_target_first_canonical 64 Scenario.mainnet
              (Scenario.delayOne false) Scenario.dbOk Scenario.emptyEpoch 1
              Scenario.readyStats)
    as (_ & Hp' & _ & Hb' & _);
    [vm_compute; reflexivity | vm_compute; lia | vm_compute; reflexivity|].
  split; [rewrite (Hp eq_refl); vm_compute; reflexivity|].
  split; [rewrite Hb; vm_compute; reflexivity|].
  split; [rewrite (Hp' eq_refl); vm_compute; reflexivity|].
  rewrite Hb'. vm_compute. reflexivity.
Defined.

(** At the one epoch the theorem leaves out, the last slot is 2^64 - 1 and
    [slot <= lastSlot] holds for every [uint64]. The first walk leaves the
    epoch, wraps to slot 0 and stops at the block cached under slot 5; the
    closing loop has nothing to stop it, and [processEpoch] does not return
    however many steps it is given. *)
Lemma processEpoch_at_last_epoch :
  lastSlotOf Scenario.mainnet Scenario.lastEpoch = uint64_max
  /\ epochTargetLoop 64 (firstSlotOf Scenario.mainnet Scenario.lastEpoch)
       uint64_max (firstSlotOf Scenario.mainnet Scenario.lastEpoch)
       (cachedBlocks Scenario.atLastEpoch)
     = Some (Scenario.root 104)
  /\ forall fuel events,
       processEpoch fuel Scenario.mainnet (Scenario.delayOne false)
         Scenario.dbOk Scenario.atLastEpoch Scenario.lastEpoch
       <> Returned events.
Proof.
  split; [vm_compute; reflexivity|].
  split; [vm_compute; reflexivity|].
  intros fuel events H.
  apply processEpoch_last_epoch in H;
    [|vm_compute; reflexivity|reflexivity].
  destruct H as [H _].
  do 38 (destruct fuel as [|fuel]; [vm_compute in H; discriminate H|]).
  vm_compute in H. discriminate H.
Qed.

(** C8 fails as stated: before Altair the sync-committee getter answers
    with an error. *)
Lemma outsideForkRangeYieldsSentinel_fails :
  ~ @Rpc.outsideForkRangeYieldsSentinel unit unit unit unit Scenario.mainnet
      (fun _ => inr tt) (Some (fun _ _ => (Some tt, None))) tt 0.
Proof.
  intros [_ H].
  specialize (H ltac:(vm_compute; reflexivity)).
  vm_compute in H. discriminate H.
Defined.

Lemma duty_getters_outside_fork_range_witness :
  @Rpc.GetProposerDuties unit unit (mkChainConfig 32 0 (Some 5))
    (fun _ => inr tt) 7 = Rpc.sentinel
  /\ @Rpc.GetSyncCommitteeDuties unit unit unit Scenario.mainnet
       (Some (fun _ _ => (Some tt, None))) tt 0
     = (None, Some (Rpc.ErrBeforeAltair 0)).
Proof.
  split.
  - apply (proj1 (@duty_getters_outside_fork_range unit unit unit unit
                    (mkChainConfig 32 0 (Some 5)) (fun _ => inr tt)
                    (Some (fun _ _ => (Some tt, None))) tt 7) 5);
      [reflexivity | vm_compute; discriminate].
  - apply (proj2 (@duty_getters_outside_fork_range unit unit unit unit
                    Scenario.mainnet (fun _ => inr tt)
                    (Some (fun _ _ => (Some tt, None))) tt 0)).
    vm_compute. reflexivity.
Defined.

Lemma reorg_scenarios_S3_S4_witness :
  Scenario.flags (Scenario.afterS3 0) 10
  = Some [(Scenario.root 1, true); (Scenario.root 2, false)]
  /\ Scenario.flags (Scenario.afterS4 0) 10
     = Some [(Scenario.root 1, false); (Scenario.root 2, true)].
Proof.
  destruct (reorg_scenarios_S3_S4 0) as (H1 & _ & _ & H4 & _);
    [vm_compute; split; discriminate|].
  split; assumption.
Defined.

(** ** The further properties at concrete inputs *)

Lemma processHeadBlock_keeps_cache_witness :
  exists r,
    processHeadBlock 64 Scenario.withA 10 Scenario.blockB tt = Some r
    /\ epochStats (hrState r) = epochStats Scenario.withA
    /\ lastProcessedEpoch (hrState r) = lastProcessedEpoch Scenario.withA
    /\ lastHeadRoot (hrState r) = Root Scenario.blockB.
Proof.
  destruct (processHeadBlock 64 Scenario.withA 10 Scenario.blockB tt)
    as [r|] eqn:Hr; [|vm_compute in Hr; discriminate].
  exists r. split; [reflexivity|].
  pose proof (processHeadBlock_keeps_cache 64 Scenario.withA 10
                Scenario.blockB tt r Hr) as (Hs & Hp & Hb).
  split; [exact Hs|]. split; [exact Hp|].
  assert (Href : hrBlock r = Some (mkRef 10 1 Scenario.blockB)).
  { vm_compute in Hr. injection Hr as <-. reflexivity. }
  rewrite Href in Hb. cbv zeta in Hb.
  destruct Hb as (_ & _ & _ & _ & Hroot). exact Hroot.
Defined.

Lemma processHeadBlock_then_GetCachedBlocks_witness :
  exists r blocks b,
    processHeadBlock 64 Scenario.withA 10 Scenario.blockB tt = Some r
    /\ GetCachedBlocks (hrState r) 10 = Some blocks
    /\ blocks !! 1%nat = Some b
    /\ Header b = Scenario.blockB
    /\ length blocks = 2%nat.
Proof.
  destruct (processHeadBlock 64 Scenario.withA 10 Scenario.blockB tt)
    as [r|] eqn:Hr; [|vm_compute in Hr; discriminate].
  assert (Href : hrBlock r = Some (mkRef 10 1 Scenario.blockB)).
  { vm_compute in Hr. injection Hr as <-. reflexivity. }
  destruct (processHeadBlock_then_GetCachedBlocks 64 Scenario.withA 10
              Scenario.blockB tt r _ Hr Href)
    as (_ & blocks & b & Hget & Hb & Hh & Hlen).
  exists r, blocks, b. split; [reflexivity|].
  split; [exact Hget|]. split; [exact Hb|]. split; [exact Hh|].
  vm_compute in Hlen. exact Hlen.
Defined.

Lemma processHeadBlock_extends_head_witness :
  exists r,
    processHeadBlock 0 Scenario.upTo9 10 (Scenario.header 110 10 109) tt
    = Some r
    /\ hrResync r = false
    /\ lastHeadRoot (hrState r) = Scenario.root 110.
Proof.
  destruct (processHeadBlock_extends_head 0 Scenario.upTo9 10
              (Scenario.header 110 10 109) tt)
    as (r & Hr & Hres & _ & Hroot).
  - right. vm_compute. reflexivity.
  - intros blocks H. vm_compute in H. discriminate.
  - exists r. split; [exact Hr|]. split; [exact Hres|exact Hroot].
Defined.

Lemma reorgBaseSearch_marks_witness :
  exists st' p,
    reorgBaseSearch 8 (Scenario.root 124) (Scenario.root 121) 24
      Scenario.spinning = Some (st', Some p)
    /\ refSlot p = 21
    /\ forall s, s < 21 \/ 24 < s ->
         cachedBlocks st' !! s = cachedBlocks Scenario.spinning !! s.
Proof.
  destruct (reorgBaseSearch 8 (Scenario.root 124) (Scenario.root 121) 24
              Scenario.spinning) as [[st' [p|]]|] eqn:Hrun;
    [|vm_compute in Hrun; discriminate ..].
  assert (Hp : refSlot p = 21).
  { vm_compute in Hrun. injection Hrun as _ <-. reflexivity. }
  pose proof (reorgBaseSearch_marks 8 (Scenario.root 124) (Scenario.root 121)
                24 Scenario.spinning st' (Some p)
                ltac:(simpl; lia)
                ltac:(unfold is_uint64, uint64_modulus; lia) Hrun) as H.
  cbv zeta in H. destruct H as (_ & _ & Hout & _).
  exists st', p. split; [reflexivity|]. split; [exact Hp|].
  intros s Hs. apply Hout. rewrite Hp. exact Hs.
Defined.

Lemma processHeadBlock_head_canonical_witness :
  exists r ref,
    processHeadBlock 64 (default NewIndexer_state (Scenario.afterS3 0)) 12
      Scenario.blockD tt = Some r
    /\ hrBlock r = Some ref
    /\ refOrphaned (hrState r) ref = false.
Proof.
  destruct (processHeadBlock 64 (default NewIndexer_state (Scenario.afterS3 0))
              12 Scenario.blockD tt) as [r|] eqn:Hr;
    [|vm_compute in Hr; discriminate].
  assert (Href : hrBlock r = Some (mkRef 12 0 Scenario.blockD)).
  { vm_compute in Hr. injection Hr as <-. reflexivity. }
  exists r, (mkRef 12 0 Scenario.blockD).
  split; [reflexivity|]. split; [exact Href|].
  apply (processHeadBlock_head_canonical 64
           (default NewIndexer_state (Scenario.afterS3 0)) 12
           Scenario.blockD tt r).
  - lia.
  - unfold is_uint64, uint64_modulus. lia.
  - vm_compute. discriminate.
  - exact Hr.
  - exact Href.
Defined.

Lemma processHeadBlock_unknown_parent_witness :
  exists r,
    processHeadBlock 64 Scenario.withA 12 Scenario.strayHead tt = Some r
    /\ hrResync r = true.
Proof.
  destruct (processHeadBlock_unknown_parent 64 Scenario.withA 12
              Scenario.strayHead tt) as (r & Hr & Hres & _).
  - lia.
  - unfold is_uint64, uint64_modulus. lia.
  - vm_compute. discriminate.
  - vm_compute. reflexivity.
  - vm_compute. reflexivity.
  - intros blocks H. vm_compute in H. discriminate.
  - vm_compute. reflexivity.
  - vm_compute. lia.
  - exists r. split; [exact Hr|exact Hres].
Defined.

Lemma fixOrphaned_diverges_witness :
  fixOrphaned 5 7 21 Scenario.spinningOn false Scenario.spinning = None.
Proof.
  apply (fixOrphaned_diverges 5 7 21 Scenario.spinningOn false
           Scenario.spinning).
  - simpl. lia.
  - lia.
  - unfold is_uint64, uint64_modulus. lia.
  - simpl. lia.
  - vm_compute. reflexivity.
  - vm_compute. reflexivity.
Defined.

Lemma processEpoch_transaction_discipline_witness :
  exists events,
    processEpoch 64 Scenario.mainnet (Scenario.delayOne true)
      Scenario.dbCommitFails Scenario.fullEpoch 1 = Returned events
    /\ last events = Some DbRollback
    /\ In DbCommitFailed events.
Proof.
  destruct (processEpoch 64 Scenario.mainnet (Scenario.delayOne true)
              Scenario.dbCommitFails Scenario.fullEpoch 1)
    as [events| | |] eqn:Hr; try (vm_compute in Hr; discriminate).
  destruct (processEpoch_transaction_discipline _ _ _ _ _ _ _ Hr)
    as (_ & Hbegun & _).
  assert (Hin : In DbBegin events).
  { vm_compute in Hr. injection Hr as <-. simpl. tauto. }
  destruct (Hbegun Hin) as (Hlast & _ & _ & Hfailed & _).
  exists events. split; [reflexivity|]. split; [exact Hlast|].
  apply Hfailed. reflexivity.
Defined.

Lemma processIndexing_one_epoch_witness :
  exists st' events,
    processIndexing 64 Scenario.mainnet (Scenario.delayOne false)
      Scenario.dbOk Scenario.fullEpoch = Returned (st', events)
    /\ lastProcessedEpoch st' = 1
    /\ cachedBlocks st' = cachedBlocks Scenario.fullEpoch.
Proof.
  destruct (processIndexing 64 Scenario.mainnet (Scenario.delayOne false)
              Scenario.dbOk Scenario.fullEpoch)
    as [[st' events]| | |] eqn:Hr; try (vm_compute in Hr; discriminate).
  destruct (processIndexing_one_epoch _ _ _ _ _ _ _ Hr)
    as (Hp & _ & Hc & _).
  exists st', events. split; [reflexivity|].
  split; [rewrite Hp; vm_compute; reflexivity|exact Hc].
Defined.

Lemma processCacheCleanup_keeps_and_settles_witness :
  exists st' events,
    processCacheCleanup 64 Scenario.mainnet Scenario.keepOne
      Scenario.dueForCleanup = Some (st', events)
    /\ cachedBlocks st' !! 100 = cachedBlocks Scenario.dueForCleanup !! 100
    /\ processCacheCleanup 0 Scenario.mainnet Scenario.keepOne st'
       = Some (st', []).
Proof.
  destruct (processCacheCleanup 64 Scenario.mainnet Scenario.keepOne
              Scenario.dueForCleanup) as [[st' events]|] eqn:Hr;
    [|vm_compute in Hr; discriminate].
  destruct (processCacheCleanup_keeps_and_settles 64 Scenario.mainnet
              Scenario.keepOne Scenario.dueForCleanup st' events)
    as (Hkeep & _ & _ & _ & _ & Hagain).
  - vm_compute. split; [discriminate|reflexivity].
  - exact Hr.
  - exists st', events. split; [reflexivity|].
    split; [apply Hkeep; right; vm_compute; discriminate|apply Hagain].
Defined.

Lemma processIndexing_without_stats_witness :
  processIndexing 64 Scenario.mainnet (mkIndexerConfig false 2 0 false)
    Scenario.dbOk Scenario.emptyEpoch = Panic.
Proof.
  apply (processIndexing_without_stats 64 Scenario.mainnet
           (mkIndexerConfig false 2 0 false) Scenario.dbOk
           Scenario.emptyEpoch).
  - vm_compute. reflexivity.
  - vm_compute. reflexivity.
Defined.

Lemma processHeadEpoch_effect_witness :
  exists st' loadStats,
    processHeadEpoch Scenario.assignmentsRoot Scenario.node Scenario.upTo9 0
      None = Returned (st', loadStats)
    /\ loadStats = true
    /\ cachedBlocks st' = cachedBlocks Scenario.upTo9
    /\ lastProcessedEpoch st' = lastProcessedEpoch Scenario.upTo9.
Proof.
  destruct (processHeadEpoch Scenario.assignmentsRoot Scenario.node
              Scenario.upTo9 0 None) as [[st' loadStats]| | |] eqn:Hr;
    try (vm_compute in Hr; discriminate).
  destruct (processHeadEpoch_effect _ _ _ _ _ _ _ Hr)
    as (Hc & _ & _ & _ & Hp & _ & Hload & _).
  exists st', loadStats. split; [reflexivity|].
  split; [|split; [exact Hc|exact Hp]].
  apply Hload. split; [vm_compute; reflexivity|vm_compute; discriminate].
Defined.

Lemma processHeadEpoch_idempotent_witness :
  exists st' loadStats,
    processHeadEpoch Scenario.assignmentsRoot Scenario.node Scenario.upTo9 0
      None = Returned (st', loadStats)
    /\ processHeadEpoch Scenario.assignmentsRoot Scenario.node st' 0 None
       = Returned (st', false).
Proof.
  destruct (processHeadEpoch Scenario.assignmentsRoot Scenario.node
              Scenario.upTo9 0 None) as [[st' loadStats]| | |] eqn:Hr;
    try (vm_compute in Hr; discriminate).
  exists st', loadStats. split; [reflexivity|].
  exact (processHeadEpoch_idempotent _ _ _ _ _ _ _ Hr).
Defined.

Lemma fresh_epoch_waits_for_loader_witness :
  exists st',
    processHeadEpoch Scenario.assignmentsRoot Scenario.node Scenario.upTo9 0
      None = Returned (st', true)
    /\ processEpoch 64 Scenario.mainnet (Scenario.delayOne false)
         Scenario.dbOk st' 0 = Blocked.
Proof.
  eexists. split; [vm_compute; reflexivity|].
  apply (fresh_epoch_waits_for_loader Scenario.assignmentsRoot
           Scenario.assignmentsState Scenario.node Scenario.upTo9 0 None).
  vm_compute. reflexivity.
Defined.

Lemma loadEpochStats_counts_witness :
  exists stats',
    loadEpochStats Scenario.assignmentsState Scenario.node 0 5
      Scenario.freshStats = Returned (stats', Some Scenario.validators)
    /\ ValidatorsMutex (Validators stats') = Unlocked
    /\ ValidatorCount (Validators stats') = 3
    /\ EligibleAmount (Validators stats') = 93
    /\ ValidatorBalances (Validators stats') !! 0 = Some 30
    /\ ValidatorBalances (Validators stats') !! 1 = Some 32.
Proof.
  destruct (loadEpochStats_counts Scenario.assignmentsState Scenario.node 0 5
              Scenario.freshStats tt Scenario.validators)
    as (stats' & Hrun & _ & _ & _ & Hm & Hc & He & Hb).
  - reflexivity.
  - reflexivity.
  - reflexivity.
  - unfold is_uint64, uint64_modulus. simpl. lia.
  - unfold is_uint64, uint64_modulus. simpl. lia.
  - exists stats'. split; [exact Hrun|]. split; [exact Hm|].
    split; [rewrite Hc; vm_compute; reflexivity|].
    split; [rewrite He; vm_compute; reflexivity|].
    split; [rewrite Hb; vm_compute; reflexivity|].
    rewrite Hb. vm_compute. reflexivity.
Defined.

Lemma loadEpochStats_releases_witness :
  exists stats' hv,
    loadEpochStats Scenario.assignmentsState Scenario.nodeWithoutValidators
      0 5 Scenario.freshStats = Returned (stats', hv)
    /\ ValidatorsMutex (Validators stats') = Unlocked
    /\ hv = None
    /\ ValidatorCount (Validators stats') = 0.
Proof.
  destruct (loadEpochStats Scenario.assignmentsState
              Scenario.nodeWithoutValidators 0 5 Scenario.freshStats)
    as [[stats' hv]| | |] eqn:Hr; try (vm_compute in Hr; discriminate).
  destruct (loadEpochStats_releases _ _ _ _ _ _ _ Hr)
    as (_ & Hm & _ & _ & _ & Hfailed & _).
  destruct (Hfailed tt eq_refl eq_refl) as (Hhv & Hc & _).
  exists stats', hv. split; [reflexivity|].
  split; [exact Hm|]. split; [exact Hhv|]. rewrite Hc. reflexivity.
Defined.

Lemma pollStreamedBlock_effect_witness :
  exists st' events blockInfo,
    pollStreamedBlock Scenario.assignmentsRoot 64 64 Scenario.mainnet
      Scenario.node Scenario.upTo9 (Scenario.root 112)
    = Returned (st', events, (blockInfo, false))
    /\ lastProcessedEpoch st' = lastProcessedEpoch Scenario.upTo9
    /\ backfilledSlots events = [10; 11]
    /\ lastHeadBlock st' = 12.
Proof.
  destruct (pollStreamedBlock Scenario.assignmentsRoot 64 64 Scenario.mainnet
              Scenario.node Scenario.upTo9 (Scenario.root 112))
    as [[[st' events] [blockInfo err]]| | |] eqn:Hr;
    try (vm_compute in Hr; discriminate).
  assert (Herr : err = false).
  { vm_compute in Hr. injection Hr as _ _ _ <-. reflexivity. }
  assert (Hblock : blockInfo = Some (mkRef 12 0 (Scenario.header 112 12 111))).
  { vm_compute in Hr. injection Hr as _ _ <- _. reflexivity. }
  subst err.
  destruct (pollStreamedBlock_effect Scenario.assignmentsRoot 64 64
              Scenario.mainnet Scenario.node Scenario.upTo9 (Scenario.root 112)
              st' events blockInfo false) as (Hp & _ & Hok).
  - vm_compute. split; [discriminate|reflexivity].
  - intros header H. simpl in H. injection H as <-.
    vm_compute. split; [discriminate|reflexivity].
  - exact Hr.
  - destruct (Hok eq_refl) as (header & Hh & Hev & Href).
    simpl in Hh. injection Hh as <-.
    destruct (Href _ Hblock) as (_ & _ & Hhead & _).
    exists st', events, blockInfo. split; [reflexivity|].
    split; [exact Hp|]. split; [rewrite Hev; vm_compute; reflexivity|].
    exact Hhead.
Defined.

Lemma pollHeadBlock_effect_witness :
  exists st' events,
    pollHeadBlock Scenario.assignmentsRoot 64 64 Scenario.mainnet
      Scenario.node Scenario.upTo9 = Returned (st', events, false)
    /\ lastProcessedEpoch st' = lastProcessedEpoch Scenario.upTo9
    /\ backfilledSlots events = [10; 11]
    /\ is_Some (epochStats st' !! 0).
Proof.
  destruct (pollHeadBlock Scenario.assignmentsRoot 64 64 Scenario.mainnet
              Scenario.node Scenario.upTo9)
    as [[[st' events] err]| | |] eqn:Hr;
    try (vm_compute in Hr; discriminate).
  assert (Herr : err = false).
  { vm_compute in Hr. injection Hr as _ _ <-. reflexivity. }
  subst err.
  destruct (pollHeadBlock_effect Scenario.assignmentsRoot 64 64
              Scenario.mainnet Scenario.node Scenario.upTo9
              st' events false) as (Hp & _ & Hok).
  - vm_compute. split; [discriminate|reflexivity].
  - intros header H. simpl in H. injection H as <-.
    vm_compute. split; [discriminate|reflexivity].
  - exact Hr.
  - destruct (Hok eq_refl) as (header & Hh & Hrest).
    simpl in Hh. injection Hh as <-.
    change (bytes_Equal (Root (Scenario.header 112 12 111))
              (lastHeadRoot Scenario.upTo9)) with false in Hrest.
    destruct Hrest as [Hev Hstats].
    exists st', events. split; [reflexivity|].
    split; [exact Hp|]. split; [rewrite Hev; vm_compute; reflexivity|].
    destruct Hstats as [Hs|Hlt]; [exact Hs|].
    vm_compute in Hlt. discriminate.
Defined.

Lemma GetSyncCommitteeDuties_sentinel_iff_witness :
  @Rpc.GetSyncCommitteeDuties unit unit unit Scenario.mainnet
    (Some (fun _ _ => (None, None))) tt 74240
  = Rpc.sentinel.
Proof.
  apply (proj2 (proj1 (@GetSyncCommitteeDuties_sentinel_iff unit unit unit
                         Scenario.mainnet (Some (fun _ _ => (None, None)))
                         tt 74240))).
  split; [vm_compute; discriminate|].
  eexists. split; reflexivity.
Defined.

Lemma page_window_witness :
  let page :=
    handlers.buildValidatorSlotsPageData (fun _ : Z => tt)
      (fun _ : unit => tt) tt Scenario.mainnet Scenario.service 9 0 2 in
  models.SlotCount page = 2
  /\ models.NextPageIndex page = 1
  /\ models.TotalPages page = 2
  /\ models.FirstSlot page = 40
  /\ models.LastSlot page = 37.
Proof.
  pose proof (page_window (fun _ : Z => tt) (fun _ : unit => tt) tt
                Scenario.mainnet Scenario.service 9 0 2 ltac:(lia)) as H.
  cbv zeta in H.
  destruct H as (_ & _ & Hcount & _ & Hnext & _ & Htotal & Hfirst & Hlast).
  cbv zeta.
  split; [rewrite Hcount; vm_compute; reflexivity|].
  split; [rewrite Hnext; vm_compute; reflexivity|].
  split; [rewrite Htotal; vm_compute; reflexivity|].
  split; [rewrite Hfirst; vm_compute; reflexivity|].
  rewrite Hlast. vm_compute. reflexivity.
Defined.

Lemma page_slots_witness :
  let page :=
    handlers.buildValidatorSlotsPageData (fun _ : Z => tt)
      (fun _ : unit => tt) tt Scenario.mainnet Scenario.service 9 0 50 in
  exists entry row,
    In entry (models.Slots page)
    /\ In row Scenario.rows
    /\ models.Slot entry = handlers.Slot row
    /\ models.Slot entry = 33
    /\ models.Proposer entry = 9.
Proof.
  cbv zeta.
  assert (Hin : exists entry,
            In entry
              (models.Slots
                 (handlers.buildValidatorSlotsPageData (fun _ : Z => tt)
                    (fun _ : unit => tt) tt Scenario.mainnet Scenario.service
                    9 0 50))
            /\ models.Slot entry = 33).
  { eexists. split; [vm_compute; right; right; left; reflexivity|].
    reflexivity. }
  destruct Hin as (entry & Hin & Hslot).
  pose proof (page_slots (fun _ : Z => tt) (fun _ : unit => tt) tt
                Scenario.mainnet Scenario.service 9 0 50 entry) as H.
  cbv zeta in H.
  destruct (H Hin) as (row & Hrow & Hs & _ & Hprop & _).
  exists entry, row. split; [exact Hin|]. split; [exact Hrow|].
  split; [exact Hs|]. split; [exact Hslot|exact Hprop].
Defined.

Lemma bootstrap_then_processIndexing_witness :
  processIndexing 64 Scenario.mainnet Scenario.delayTwo Scenario.dbOk
    (bootstrap Scenario.mainnet Scenario.delayTwo 4
       (@NewIndexer_state unit unit)) = Panic.
Proof.
  pose proof (bootstrap_then_processIndexing 64 Scenario.mainnet
                Scenario.delayTwo Scenario.dbOk 4
                (@NewIndexer_state unit unit)) as H.
  cbv zeta in H.
  destruct H as (_ & _ & _ & Hpanic).
  - simpl. lia.
  - unfold is_uint16. simpl. lia.
  - unfold is_uint16. simpl. lia.
  - simpl. lia.
  - simpl. lia.
  - unfold uint64_modulus. simpl. lia.
  - apply Hpanic; [simpl; lia|reflexivity].
Defined.
